(** * Snek libretro core: simulation rules, save-state layout and HUD

    A shallow embedding of [snake_core.c]: the global simulation state, the
    per-tick update rule with its collision logic, input handling, the frame
    entry point, the binary save-state routines and the integer drawing code
    of the HUD, followed by the properties established about them.

    Conventions.
    - A C [int] is a [Z]; where the source does arithmetic that can leave the
      32-bit range the wrap-around is written with [wrap_int].  The frame
      counter is an [unsigned long] (64 bits, LP64) and wraps with
      [wrap_ulong].
    - The fixed-size arrays [snake_x], [snake_y], [particles] and [obstacle]
      are lists; [obstacle[x][y]] lives at index [x * GRID_H + y] of the flat
      list, as in the C object.  A read outside the list yields 0 and a write
      outside it does nothing; the theorems only rely on in-range accesses.
    - [rand()] is an oracle: the list of its future results, consumed from the
      head.  A computation that needs more results than the list holds yields
      [None]; the unbounded resampling loops are therefore structural
      recursions on that list.
    - The floating-point fields of a particle (position, velocity, colour)
      have no influence on the simulation and are left out; the number of
      [rand()] calls made while spawning particles is kept.
    - Of the renderer, which never writes a simulation global, the integer
      code of the HUD is embedded: the frame buffer is a list of pixels, row
      after row, and a store outside the screen is skipped by the guard of
      the source.  The shaded cells, the background gradient and the
      overlays are computed in single precision and are left out.

    Source lines of the embedded functions.
    - [game_reset] 276-303 (its assignments are [reset_globals])
    - [random_free_cell] 307-336, [spawn_food] 339-342, [spawn_item] 347-357
    - [spawn_particles] 360-383, [update_particles] 386-411
    - [spawn_obstacles] 417-448, [check_obstacle_collision] 451-454
    - [update_snake] 529-639: [step_head] 534-550, [wrap_cell] 558-565,
      [shift_body] and [commit_move] 599-605, [grow] 610-615,
      [add_score] 616-618, [eat_food] 608-622, [start_effect] and
      [take_item] 625-638
    - [handle_input] 642-703: [press_start] 658-675, [press_select] 683-686,
      [turn] 694-701
    - [retro_init] 1405-1418, [retro_reset] 1454-1457
    - [retro_serialize_size] 1462-1465, [retro_serialize] 1475-1513,
      [retro_unserialize] 1515-1553
    - [retro_run] 1613-1647 ([play_frame] 1618-1635)
    - [RGB] 65-68, [seven_seg_digits] 83-93, [font_glyphs] 104-140,
      [get_glyph_bitmap] 145-154
    - [draw_segment] 1101-1115, [draw_digit] 1117-1147,
      [draw_text] 1151-1182 ([draw_glyph] 1163-1178),
      [draw_scoreboard] 1187-1258 ([draw_number] 1195-1202 and 1205-1212,
      [draw_phase_icon] 1219-1233, [draw_speed_icon] 1239-1256) *)

From Stdlib Require Import ZArith List Bool Lia.
From stdpp Require Import base option list.
Import ListNotations.

#[local] Open Scope Z_scope.

(** ** Configuration constants *)

Definition GRID_W : Z := 40.
Definition GRID_H : Z := 30.
Definition MAX_SNAKE_LENGTH : Z := GRID_W * GRID_H.
Definition MAX_PARTICLES : Z := 128.
Definition PHASE_DURATION : Z := 60 * 5.
Definition SPEED_DURATION : Z := 60 * 5.
Definition BASE_MOVE_INTERVAL : Z := 8.

(** ** Machine integers *)

Definition INT_MIN : Z := - 2 ^ 31.
Definition INT_MAX : Z := 2 ^ 31 - 1.
Definition ULONG_MAX : Z := 2 ^ 64 - 1.

Definition wrap_int (z : Z) : Z := (z + 2 ^ 31) mod 2 ^ 32 - 2 ^ 31.
Definition wrap_ulong (z : Z) : Z := z mod 2 ^ 64.

Definition is_int (z : Z) : Prop := INT_MIN <= z <= INT_MAX.
Definition is_ulong (z : Z) : Prop := 0 <= z <= ULONG_MAX.

(** A C scalar used as a condition. *)
Definition truthy (z : Z) : bool := negb (z =? 0).

(** ** Enumerations *)

Inductive game_state_t := STATE_TITLE | STATE_PLAY | STATE_PAUSE | STATE_GAMEOVER.
Inductive direction_t := DIR_UP | DIR_DOWN | DIR_LEFT | DIR_RIGHT.
Inductive item_type_t := ITEM_NONE | ITEM_PHASE | ITEM_SPEED.

#[global] Instance game_state_eq_dec : EqDecision game_state_t.
Proof. solve_decision. Defined.
#[global] Instance direction_eq_dec : EqDecision direction_t.
Proof. solve_decision. Defined.
#[global] Instance item_type_eq_dec : EqDecision item_type_t.
Proof. solve_decision. Defined.

(** ** Particles (integer part) *)

Record particle_t := mkParticle { lifetime : Z; active : bool }.

(** ** The global state *)

Record game := mkGame {
  snake_x : list Z;
  snake_y : list Z;
  snake_length : Z;
  snake_dir : direction_t;
  pending_dir : direction_t;
  food_x : Z;
  food_y : Z;
  item_type : item_type_t;
  item_x : Z;
  item_y : Z;
  phase_timer : Z;
  speed_timer : Z;
  particles : list particle_t;
  obstacle : list Z;
  obstacle_count : Z;
  score : Z;
  highscore : Z;
  state : game_state_t;
  move_counter : Z;
  frame_count : Z;
  (* the two function-local statics of handle_input *)
  prev_start : Z;
  prev_select : Z
}.

(** Assignment to one global. *)

Definition set_snake_x (v : list Z) (g : game) : game :=
  {| snake_x := v; snake_y := snake_y g; snake_length := snake_length g; snake_dir :=
     snake_dir g; pending_dir := pending_dir g; food_x := food_x g; food_y := food_y g;
     item_type := item_type g; item_x := item_x g; item_y := item_y g; phase_timer :=
     phase_timer g; speed_timer := speed_timer g; particles := particles g; obstacle :=
     obstacle g; obstacle_count := obstacle_count g; score := score g; highscore :=
     highscore g; state := state g; move_counter := move_counter g; frame_count :=
     frame_count g; prev_start := prev_start g; prev_select := prev_select g |}.

Definition set_snake_y (v : list Z) (g : game) : game :=
  {| snake_x := snake_x g; snake_y := v; snake_length := snake_length g; snake_dir :=
     snake_dir g; pending_dir := pending_dir g; food_x := food_x g; food_y := food_y g;
     item_type := item_type g; item_x := item_x g; item_y := item_y g; phase_timer :=
     phase_timer g; speed_timer := speed_timer g; particles := particles g; obstacle :=
     obstacle g; obstacle_count := obstacle_count g; score := score g; highscore :=
     highscore g; state := state g; move_counter := move_counter g; frame_count :=
     frame_count g; prev_start := prev_start g; prev_select := prev_select g |}.

Definition set_snake_length (v : Z) (g : game) : game :=
  {| snake_x := snake_x g; snake_y := snake_y g; snake_length := v; snake_dir :=
     snake_dir g; pending_dir := pending_dir g; food_x := food_x g; food_y := food_y g;
     item_type := item_type g; item_x := item_x g; item_y := item_y g; phase_timer :=
     phase_timer g; speed_timer := speed_timer g; particles := particles g; obstacle :=
     obstacle g; obstacle_count := obstacle_count g; score := score g; highscore :=
     highscore g; state := state g; move_counter := move_counter g; frame_count :=
     frame_count g; prev_start := prev_start g; prev_select := prev_select g |}.

Definition set_snake_dir (v : direction_t) (g : game) : game :=
  {| snake_x := snake_x g; snake_y := snake_y g; snake_length := snake_length g;
     snake_dir := v; pending_dir := pending_dir g; food_x := food_x g; food_y := food_y
     g; item_type := item_type g; item_x := item_x g; item_y := item_y g; phase_timer :=
     phase_timer g; speed_timer := speed_timer g; particles := particles g; obstacle :=
     obstacle g; obstacle_count := obstacle_count g; score := score g; highscore :=
     highscore g; state := state g; move_counter := move_counter g; frame_count :=
     frame_count g; prev_start := prev_start g; prev_select := prev_select g |}.

Definition set_pending_dir (v : direction_t) (g : game) : game :=
  {| snake_x := snake_x g; snake_y := snake_y g; snake_length := snake_length g;
     snake_dir := snake_dir g; pending_dir := v; food_x := food_x g; food_y := food_y g;
     item_type := item_type g; item_x := item_x g; item_y := item_y g; phase_timer :=
     phase_timer g; speed_timer := speed_timer g; particles := particles g; obstacle :=
     obstacle g; obstacle_count := obstacle_count g; score := score g; highscore :=
     highscore g; state := state g; move_counter := move_counter g; frame_count :=
     frame_count g; prev_start := prev_start g; prev_select := prev_select g |}.

Definition set_food_x (v : Z) (g : game) : game :=
  {| snake_x := snake_x g; snake_y := snake_y g; snake_length := snake_length g;
     snake_dir := snake_dir g; pending_dir := pending_dir g; food_x := v; food_y :=
     food_y g; item_type := item_type g; item_x := item_x g; item_y := item_y g;
     phase_timer := phase_timer g; speed_timer := speed_timer g; particles := particles
     g; obstacle := obstacle g; obstacle_count := obstacle_count g; score := score g;
     highscore := highscore g; state := state g; move_counter := move_counter g;
     frame_count := frame_count g; prev_start := prev_start g; prev_select :=
     prev_select g |}.

Definition set_food_y (v : Z) (g : game) : game :=
  {| snake_x := snake_x g; snake_y := snake_y g; snake_length := snake_length g;
     snake_dir := snake_dir g; pending_dir := pending_dir g; food_x := food_x g; food_y
     := v; item_type := item_type g; item_x := item_x g; item_y := item_y g; phase_timer
     := phase_timer g; speed_timer := speed_timer g; particles := particles g; obstacle
     := obstacle g; obstacle_count := obstacle_count g; score := score g; highscore :=
     highscore g; state := state g; move_counter := move_counter g; frame_count :=
     frame_count g; prev_start := prev_start g; prev_select := prev_select g |}.

Definition set_item_type (v : item_type_t) (g : game) : game :=
  {| snake_x := snake_x g; snake_y := snake_y g; snake_length := snake_length g;
     snake_dir := snake_dir g; pending_dir := pending_dir g; food_x := food_x g; food_y
     := food_y g; item_type := v; item_x := item_x g; item_y := item_y g; phase_timer :=
     phase_timer g; speed_timer := speed_timer g; particles := particles g; obstacle :=
     obstacle g; obstacle_count := obstacle_count g; score := score g; highscore :=
     highscore g; state := state g; move_counter := move_counter g; frame_count :=
     frame_count g; prev_start := prev_start g; prev_select := prev_select g |}.

Definition set_item_x (v : Z) (g : game) : game :=
  {| snake_x := snake_x g; snake_y := snake_y g; snake_length := snake_length g;
     snake_dir := snake_dir g; pending_dir := pending_dir g; food_x := food_x g; food_y
     := food_y g; item_type := item_type g; item_x := v; item_y := item_y g; phase_timer
     := phase_timer g; speed_timer := speed_timer g; particles := particles g; obstacle
     := obstacle g; obstacle_count := obstacle_count g; score := score g; highscore :=
     highscore g; state := state g; move_counter := move_counter g; frame_count :=
     frame_count g; prev_start := prev_start g; prev_select := prev_select g |}.

Definition set_item_y (v : Z) (g : game) : game :=
  {| snake_x := snake_x g; snake_y := snake_y g; snake_length := snake_length g;
     snake_dir := snake_dir g; pending_dir := pending_dir g; food_x := food_x g; food_y
     := food_y g; item_type := item_type g; item_x := item_x g; item_y := v; phase_timer
     := phase_timer g; speed_timer := speed_timer g; particles := particles g; obstacle
     := obstacle g; obstacle_count := obstacle_count g; score := score g; highscore :=
     highscore g; state := state g; move_counter := move_counter g; frame_count :=
     frame_count g; prev_start := prev_start g; prev_select := prev_select g |}.

Definition set_phase_timer (v : Z) (g : game) : game :=
  {| snake_x := snake_x g; snake_y := snake_y g; snake_length := snake_length g;
     snake_dir := snake_dir g; pending_dir := pending_dir g; food_x := food_x g; food_y
     := food_y g; item_type := item_type g; item_x := item_x g; item_y := item_y g;
     phase_timer := v; speed_timer := speed_timer g; particles := particles g; obstacle
     := obstacle g; obstacle_count := obstacle_count g; score := score g; highscore :=
     highscore g; state := state g; move_counter := move_counter g; frame_count :=
     frame_count g; prev_start := prev_start g; prev_select := prev_select g |}.

Definition set_speed_timer (v : Z) (g : game) : game :=
  {| snake_x := snake_x g; snake_y := snake_y g; snake_length := snake_length g;
     snake_dir := snake_dir g; pending_dir := pending_dir g; food_x := food_x g; food_y
     := food_y g; item_type := item_type g; item_x := item_x g; item_y := item_y g;
     phase_timer := phase_timer g; speed_timer := v; particles := particles g; obstacle
     := obstacle g; obstacle_count := obstacle_count g; score := score g; highscore :=
     highscore g; state := state g; move_counter := move_counter g; frame_count :=
     frame_count g; prev_start := prev_start g; prev_select := prev_select g |}.

Definition set_particles (v : list particle_t) (g : game) : game :=
  {| snake_x := snake_x g; snake_y := snake_y g; snake_length := snake_length g;
     snake_dir := snake_dir g; pending_dir := pending_dir g; food_x := food_x g; food_y
     := food_y g; item_type := item_type g; item_x := item_x g; item_y := item_y g;
     phase_timer := phase_timer g; speed_timer := speed_timer g; particles := v;
     obstacle := obstacle g; obstacle_count := obstacle_count g; score := score g;
     highscore := highscore g; state := state g; move_counter := move_counter g;
     frame_count := frame_count g; prev_start := prev_start g; prev_select :=
     prev_select g |}.

Definition set_obstacle (v : list Z) (g : game) : game :=
  {| snake_x := snake_x g; snake_y := snake_y g; snake_length := snake_length g;
     snake_dir := snake_dir g; pending_dir := pending_dir g; food_x := food_x g; food_y
     := food_y g; item_type := item_type g; item_x := item_x g; item_y := item_y g;
     phase_timer := phase_timer g; speed_timer := speed_timer g; particles := particles
     g; obstacle := v; obstacle_count := obstacle_count g; score := score g; highscore
     := highscore g; state := state g; move_counter := move_counter g; frame_count :=
     frame_count g; prev_start := prev_start g; prev_select := prev_select g |}.

Definition set_obstacle_count (v : Z) (g : game) : game :=
  {| snake_x := snake_x g; snake_y := snake_y g; snake_length := snake_length g;
     snake_dir := snake_dir g; pending_dir := pending_dir g; food_x := food_x g; food_y
     := food_y g; item_type := item_type g; item_x := item_x g; item_y := item_y g;
     phase_timer := phase_timer g; speed_timer := speed_timer g; particles := particles
     g; obstacle := obstacle g; obstacle_count := v; score := score g; highscore :=
     highscore g; state := state g; move_counter := move_counter g; frame_count :=
     frame_count g; prev_start := prev_start g; prev_select := prev_select g |}.

Definition set_score (v : Z) (g : game) : game :=
  {| snake_x := snake_x g; snake_y := snake_y g; snake_length := snake_length g;
     snake_dir := snake_dir g; pending_dir := pending_dir g; food_x := food_x g; food_y
     := food_y g; item_type := item_type g; item_x := item_x g; item_y := item_y g;
     phase_timer := phase_timer g; speed_timer := speed_timer g; particles := particles
     g; obstacle := obstacle g; obstacle_count := obstacle_count g; score := v;
     highscore := highscore g; state := state g; move_counter := move_counter g;
     frame_count := frame_count g; prev_start := prev_start g; prev_select :=
     prev_select g |}.

Definition set_highscore (v : Z) (g : game) : game :=
  {| snake_x := snake_x g; snake_y := snake_y g; snake_length := snake_length g;
     snake_dir := snake_dir g; pending_dir := pending_dir g; food_x := food_x g; food_y
     := food_y g; item_type := item_type g; item_x := item_x g; item_y := item_y g;
     phase_timer := phase_timer g; speed_timer := speed_timer g; particles := particles
     g; obstacle := obstacle g; obstacle_count := obstacle_count g; score := score g;
     highscore := v; state := state g; move_counter := move_counter g; frame_count :=
     frame_count g; prev_start := prev_start g; prev_select := prev_select g |}.

Definition set_state (v : game_state_t) (g : game) : game :=
  {| snake_x := snake_x g; snake_y := snake_y g; snake_length := snake_length g;
     snake_dir := snake_dir g; pending_dir := pending_dir g; food_x := food_x g; food_y
     := food_y g; item_type := item_type g; item_x := item_x g; item_y := item_y g;
     phase_timer := phase_timer g; speed_timer := speed_timer g; particles := particles
     g; obstacle := obstacle g; obstacle_count := obstacle_count g; score := score g;
     highscore := highscore g; state := v; move_counter := move_counter g; frame_count
     := frame_count g; prev_start := prev_start g; prev_select := prev_select g |}.

Definition set_move_counter (v : Z) (g : game) : game :=
  {| snake_x := snake_x g; snake_y := snake_y g; snake_length := snake_length g;
     snake_dir := snake_dir g; pending_dir := pending_dir g; food_x := food_x g; food_y
     := food_y g; item_type := item_type g; item_x := item_x g; item_y := item_y g;
     phase_timer := phase_timer g; speed_timer := speed_timer g; particles := particles
     g; obstacle := obstacle g; obstacle_count := obstacle_count g; score := score g;
     highscore := highscore g; state := state g; move_counter := v; frame_count :=
     frame_count g; prev_start := prev_start g; prev_select := prev_select g |}.

Definition set_frame_count (v : Z) (g : game) : game :=
  {| snake_x := snake_x g; snake_y := snake_y g; snake_length := snake_length g;
     snake_dir := snake_dir g; pending_dir := pending_dir g; food_x := food_x g; food_y
     := food_y g; item_type := item_type g; item_x := item_x g; item_y := item_y g;
     phase_timer := phase_timer g; speed_timer := speed_timer g; particles := particles
     g; obstacle := obstacle g; obstacle_count := obstacle_count g; score := score g;
     highscore := highscore g; state := state g; move_counter := move_counter g;
     frame_count := v; prev_start := prev_start g; prev_select := prev_select g |}.

Definition set_prev_start (v : Z) (g : game) : game :=
  {| snake_x := snake_x g; snake_y := snake_y g; snake_length := snake_length g;
     snake_dir := snake_dir g; pending_dir := pending_dir g; food_x := food_x g; food_y
     := food_y g; item_type := item_type g; item_x := item_x g; item_y := item_y g;
     phase_timer := phase_timer g; speed_timer := speed_timer g; particles := particles
     g; obstacle := obstacle g; obstacle_count := obstacle_count g; score := score g;
     highscore := highscore g; state := state g; move_counter := move_counter g;
     frame_count := frame_count g; prev_start := v; prev_select := prev_select g |}.

Definition set_prev_select (v : Z) (g : game) : game :=
  {| snake_x := snake_x g; snake_y := snake_y g; snake_length := snake_length g;
     snake_dir := snake_dir g; pending_dir := pending_dir g; food_x := food_x g; food_y
     := food_y g; item_type := item_type g; item_x := item_x g; item_y := item_y g;
     phase_timer := phase_timer g; speed_timer := speed_timer g; particles := particles
     g; obstacle := obstacle g; obstacle_count := obstacle_count g; score := score g;
     highscore := highscore g; state := state g; move_counter := move_counter g;
     frame_count := frame_count g; prev_start := prev_start g; prev_select := v |}.

(** ** Arrays *)

Definition aget (a : list Z) (i : Z) : Z :=
  if i <? 0 then 0 else default 0 (a !! Z.to_nat i).

Definition aset (a : list Z) (i : Z) (v : Z) : list Z :=
  if i <? 0 then a else <[Z.to_nat i := v]> a.

Definition obstacle_index (x y : Z) : Z := x * GRID_H + y.

Definition obstacle_at (g : game) (x y : Z) : Z :=
  aget (obstacle g) (obstacle_index x y).

Definition set_obstacle_at (x y v : Z) (g : game) : game :=
  set_obstacle (aset (obstacle g) (obstacle_index x y) v) g.

(** ** The [rand()] oracle *)

Definition Rand (A : Type) : Type := list nat -> option (A * list nat).

Definition ret {A} (a : A) : Rand A := fun ds => Some (a, ds).

Definition bind {A B} (m : Rand A) (k : A -> Rand B) : Rand B :=
  fun ds => match m ds with
            | Some (a, ds') => k a ds'
            | None => None
            end.

Notation "'let*' x ':=' m 'in' k" := (bind m (fun x => k))
  (at level 10, x name, m at level 100, k at level 200).

Definition rand : Rand Z :=
  fun ds => match ds with
            | [] => None
            | d :: ds' => Some (Z.of_nat d, ds')
            end.

Section Simulation.

(** The power-up gate of [spawn_item] compares
    [(float)rand() / (float)RAND_MAX] with [POWERUP_PROBABILITY] in single
    precision; its verdict on a draw is a parameter: [powerup_roll_fails r]
    holds when the quotient exceeds the probability and nothing is spawned. *)
Variable powerup_roll_fails : Z -> bool.

(** The scan [for (i = 0; i < snake_length; i++)] over the body cells, shared
    by [random_free_cell] and the self-collision test of [update_snake]. *)
Definition snake_occupies (g : game) (x y : Z) : bool :=
  existsb (fun i => (aget (snake_x g) (Z.of_nat i) =? x)
                    && (aget (snake_y g) (Z.of_nat i) =? y))
          (seq 0 (Z.to_nat (snake_length g))).

Definition item_occupies (g : game) (x y : Z) : bool :=
  negb (bool_decide (item_type g = ITEM_NONE)) && (item_x g =? x) && (item_y g =? y).

(** The three rejection tests of one round of [random_free_cell]. *)
Definition cell_collides (g : game) (x y : Z) : bool :=
  snake_occupies g x y || truthy (obstacle_at g x y) || item_occupies g x y.

(** [random_free_cell]: every round draws [x] and [y]; the loop ends at the
    first pair that collides with nothing. *)
Fixpoint random_free_cell (g : game) (ds : list nat) : option ((Z * Z) * list nat) :=
  match ds with
  | [] => None
  | rx :: ds1 =>
      match ds1 with
      | [] => None
      | ry :: ds2 =>
          let x := Z.rem (Z.of_nat rx) GRID_W in
          let y := Z.rem (Z.of_nat ry) GRID_H in
          if cell_collides g x y then random_free_cell g ds2
          else Some ((x, y), ds2)
      end
  end.

Definition spawn_food (g : game) : Rand game :=
  let* c := random_free_cell g in
  ret (set_food_y (snd c) (set_food_x (fst c) g)).

Definition spawn_item (g : game) : Rand game :=
  if negb (bool_decide (item_type g = ITEM_NONE)) then ret g
  else
    let* r := rand in
    if powerup_roll_fails r then ret g
    else
      let* t := rand in
      let g1 := set_item_type (if truthy (Z.rem t 2) then ITEM_PHASE else ITEM_SPEED) g in
      let* c := random_free_cell g1 in
      ret (set_item_y (snd c) (set_item_x (fst c) g1)).

(** [spawn_particles]: the first inactive slot is activated with four draws
    (angle, speed, lifetime, coin); an even coin ends the loop. *)
Fixpoint spawn_particles_loop (ps : list particle_t) : Rand (list particle_t) :=
  match ps with
  | [] => ret []
  | p :: rest =>
      if active p then
        let* rest' := spawn_particles_loop rest in ret (p :: rest')
      else
        let* _angle := rand in
        let* _speed := rand in
        let* l := rand in
        let p' := {| lifetime := 30 + Z.rem l 30; active := true |} in
        let* coin := rand in
        if Z.rem coin 2 =? 0 then ret (p' :: rest)
        else let* rest' := spawn_particles_loop rest in ret (p' :: rest')
  end.

Definition spawn_particles (g : game) : Rand game :=
  let* ps := spawn_particles_loop (particles g) in ret (set_particles ps g).

Definition update_particle (p : particle_t) : particle_t :=
  if active p then
    let l := wrap_int (lifetime p - 1) in
    {| lifetime := l; active := negb (l <=? 0) |}
  else p.

Definition update_particles (g : game) : game :=
  set_particles (map update_particle (particles g)) g.

(** ** Obstacles *)

Definition border_column (g : game) (x : nat) : game :=
  set_obstacle_at (Z.of_nat x) (GRID_H - 1) 1 (set_obstacle_at (Z.of_nat x) 0 1 g).

Definition border_row (g : game) (y : nat) : game :=
  set_obstacle_at (GRID_W - 1) (Z.of_nat y) 1 (set_obstacle_at 0 (Z.of_nat y) 1 g).

(** The [do ... while] of [spawn_obstacles]: resample until the cell is not
    the head, the food, the active item or an obstacle. *)
Fixpoint pick_obstacle_cell (g : game) (ds : list nat) : option ((Z * Z) * list nat) :=
  match ds with
  | [] => None
  | rx :: ds1 =>
      match ds1 with
      | [] => None
      | ry :: ds2 =>
          let x := Z.rem (Z.of_nat rx) GRID_W in
          let y := Z.rem (Z.of_nat ry) GRID_H in
          if ((aget (snake_x g) 0 =? x) && (aget (snake_y g) 0 =? y))
             || ((food_x g =? x) && (food_y g =? y))
             || item_occupies g x y
             || truthy (obstacle_at g x y)
          then pick_obstacle_cell g ds2
          else Some ((x, y), ds2)
      end
  end.

Fixpoint place_obstacles (n : nat) (g : game) : Rand game :=
  match n with
  | O => ret g
  | S n' =>
      let* c := pick_obstacle_cell g in
      let g1 := set_obstacle_at (fst c) (snd c) 1 g in
      place_obstacles n' (set_obstacle_count (obstacle_count g1 + 1) g1)
  end.

Definition spawn_obstacles (g : game) : Rand game :=
  let g1 := fold_left border_column (seq 0 (Z.to_nat GRID_W)) g in
  let g2 := fold_left border_row (seq 0 (Z.to_nat GRID_H)) g1 in
  let g3 := set_obstacle_count (2 * (GRID_W + GRID_H) - 4) g2 in
  let num_obstacles := GRID_W * GRID_H / 100 in
  place_obstacles (Z.to_nat num_obstacles) g3.

Definition check_obstacle_collision (g : game) (new_x new_y : Z) : bool :=
  (0 <=? new_x) && (new_x <? GRID_W) && (0 <=? new_y) && (new_y <? GRID_H)
  && truthy (obstacle_at g new_x new_y).

(** ** Reset *)

Definition deactivate (p : particle_t) : particle_t :=
  {| lifetime := lifetime p; active := false |}.

(** The assignments of [game_reset] that precede its two spawn calls. *)
Definition reset_globals (g : game) : game :=
  let g := set_snake_length 3 g in
  let g := set_snake_x (aset (snake_x g) 0 (GRID_W / 2)) g in
  let g := set_snake_y (aset (snake_y g) 0 (GRID_H / 2)) g in
  let g := set_snake_x (aset (snake_x g) 1 (aget (snake_x g) 0 - 1)) g in
  let g := set_snake_y (aset (snake_y g) 1 (aget (snake_y g) 0)) g in
  let g := set_snake_x (aset (snake_x g) 2 (aget (snake_x g) 1 - 1)) g in
  let g := set_snake_y (aset (snake_y g) 2 (aget (snake_y g) 1)) g in
  let g := set_snake_dir DIR_RIGHT g in
  let g := set_pending_dir DIR_RIGHT g in
  let g := set_score 0 g in
  let g := set_phase_timer 0 g in
  let g := set_speed_timer 0 g in
  let g := set_item_type ITEM_NONE g in
  let g := set_move_counter BASE_MOVE_INTERVAL g in
  let g := set_frame_count 0 g in
  let g := set_particles (map deactivate (particles g)) g in
  let g := set_obstacle (map (fun _ => 0) (obstacle g)) g in
  set_obstacle_count 0 g.

Definition game_reset (g : game) : Rand game :=
  let* g := spawn_food (reset_globals g) in
  spawn_obstacles g.

(** ** One simulation tick *)

(** The [switch (snake_dir)] that steps the head cell by one unit. *)
Definition step_head (g : game) : Z * Z :=
  let new_x := aget (snake_x g) 0 in
  let new_y := aget (snake_y g) 0 in
  match snake_dir g with
  | DIR_UP => (new_x, wrap_int (new_y - 1))
  | DIR_DOWN => (new_x, wrap_int (new_y + 1))
  | DIR_LEFT => (wrap_int (new_x - 1), new_y)
  | DIR_RIGHT => (wrap_int (new_x + 1), new_y)
  end.

Definition out_of_grid (x y : Z) : bool :=
  (x <? 0) || (x >=? GRID_W) || (y <? 0) || (y >=? GRID_H).

(** The four assignments of the phasing branch, in source order. *)
Definition wrap_cell (c : Z * Z) : Z * Z :=
  let new_x := fst c in
  let new_y := snd c in
  let new_x := if new_x <? 0 then GRID_W - 1 else new_x in
  let new_x := if new_x >=? GRID_W then 0 else new_x in
  let new_y := if new_y <? 0 then GRID_H - 1 else new_y in
  let new_y := if new_y >=? GRID_H then 0 else new_y in
  (new_x, new_y).

(** The candidate head cell as the collision tests see it. *)
Definition candidate (g : game) : Z * Z :=
  if phase_timer g >? 0 then wrap_cell (step_head g) else step_head g.

(** [for (i = snake_length - 1; i > 0; i--) a[i] = a[i - 1]], with [n] the
    first index written. *)
Fixpoint shift_body (n : nat) (a : list Z) : list Z :=
  match n with
  | O => a
  | S j => shift_body j (aset a (Z.of_nat (S j)) (aget a (Z.of_nat j)))
  end.

Definition commit_move (new_x new_y : Z) (g : game) : game :=
  let n := Z.to_nat (snake_length g - 1) in
  let g := set_snake_y (shift_body n (snake_y g)) (set_snake_x (shift_body n (snake_x g)) g) in
  set_snake_y (aset (snake_y g) 0 new_y) (set_snake_x (aset (snake_x g) 0 new_x) g).

Definition grow (g : game) : game :=
  if snake_length g <? MAX_SNAKE_LENGTH then
    let g := set_snake_length (snake_length g + 1) g in
    let g := set_snake_x (aset (snake_x g) (snake_length g - 1)
                               (aget (snake_x g) (snake_length g - 2))) g in
    set_snake_y (aset (snake_y g) (snake_length g - 1)
                      (aget (snake_y g) (snake_length g - 2))) g
  else g.

Definition add_score (g : game) : game :=
  let g := set_score (wrap_int (score g + 10)) g in
  if score g >? highscore g then set_highscore (score g) g else g.

(** The food branch of [update_snake]. *)
Definition eat_food (g : game) : Rand game :=
  let* g := spawn_particles (add_score (grow g)) in
  let* g := spawn_food g in
  spawn_item g.

Definition start_effect (g : game) : game :=
  match item_type g with
  | ITEM_PHASE => set_phase_timer PHASE_DURATION g
  | ITEM_SPEED => set_speed_timer SPEED_DURATION g
  | ITEM_NONE => g
  end.

(** The item branch of [update_snake]. *)
Definition take_item (g : game) : Rand game :=
  let* g := spawn_particles (start_effect g) in
  ret (set_item_type ITEM_NONE g).

Definition update_snake (g : game) : Rand game :=
  let g := set_snake_dir (pending_dir g) g in
  let s := step_head g in
  if (phase_timer g <=? 0) && out_of_grid (fst s) (snd s) then
    ret (set_state STATE_GAMEOVER g)
  else
    let c := candidate g in
    let new_x := fst c in
    let new_y := snd c in
    if (phase_timer g <=? 0) && snake_occupies g new_x new_y then
      ret (set_state STATE_GAMEOVER g)
    else if check_obstacle_collision g new_x new_y then
      ret (set_state STATE_GAMEOVER g)
    else
      let g := commit_move new_x new_y g in
      let* g := if (new_x =? food_x g) && (new_y =? food_y g)
                then eat_food g else ret g in
      if item_occupies g new_x new_y then take_item g else ret g.

(** ** Input handling *)

Record input := mkInput {
  in_up : Z; in_down : Z; in_left : Z; in_right : Z; in_start : Z; in_select : Z
}.

Definition press_start (g : game) : Rand game :=
  match state g with
  | STATE_TITLE => game_reset (set_state STATE_PLAY g)
  | STATE_PLAY => ret (set_state STATE_PAUSE g)
  | STATE_PAUSE => ret (set_state STATE_PLAY g)
  | STATE_GAMEOVER => game_reset (set_state STATE_PLAY g)
  end.

Definition press_select (g : game) : game :=
  if bool_decide (state g = STATE_TITLE) then set_highscore 0 g else g.

(** The turning rule: the first requested direction, in the order up, down,
    left, right, whose reverse is neither current nor buffered. *)
Definition turn (i : input) (g : game) : game :=
  let ok d := negb (bool_decide (snake_dir g = d)) && negb (bool_decide (pending_dir g = d)) in
  if truthy (in_up i) && ok DIR_DOWN then set_pending_dir DIR_UP g
  else if truthy (in_down i) && ok DIR_UP then set_pending_dir DIR_DOWN g
  else if truthy (in_left i) && ok DIR_RIGHT then set_pending_dir DIR_LEFT g
  else if truthy (in_right i) && ok DIR_LEFT then set_pending_dir DIR_RIGHT g
  else g.

Definition handle_input (i : input) (g : game) : Rand game :=
  let* g := if truthy (in_start i) && negb (truthy (prev_start g))
            then press_start g else ret g in
  let g := set_prev_start (in_start i) g in
  let g := if truthy (in_select i) && negb (truthy (prev_select g))
           then press_select g else g in
  let g := set_prev_select (in_select i) g in
  ret (if bool_decide (state g = STATE_PLAY) then turn i g else g).

(** ** The frame entry point *)

Definition count_down (t : Z) : Z := if t >? 0 then t - 1 else t.

(** The body of [if (state == STATE_PLAY)] in [retro_run]. *)
Definition play_frame (g : game) : Rand game :=
  let g := set_phase_timer (count_down (phase_timer g)) g in
  let g := set_speed_timer (count_down (speed_timer g)) g in
  let interval := if speed_timer g >? 0 then BASE_MOVE_INTERVAL / 2
                  else BASE_MOVE_INTERVAL in
  let g := set_move_counter (wrap_int (move_counter g - 1)) g in
  let* g := if move_counter g <=? 0
            then let* g := update_snake g in ret (set_move_counter interval g)
            else ret g in
  ret (update_particles g).

Definition retro_run (i : input) (g : game) : Rand game :=
  let* g := handle_input i g in
  let* g := if bool_decide (state g = STATE_PLAY) then play_frame g else ret g in
  ret (set_frame_count (wrap_ulong (frame_count g + 1)) g).

Definition retro_reset (g : game) : Rand game := game_reset g.

Definition retro_init (g : game) : Rand game := game_reset (set_state STATE_TITLE g).

End Simulation.

(** The values of the globals at program start. *)
Definition init_game : game :=
  {| snake_x := replicate (Z.to_nat MAX_SNAKE_LENGTH) 0;
     snake_y := replicate (Z.to_nat MAX_SNAKE_LENGTH) 0;
     snake_length := 0;
     snake_dir := DIR_RIGHT;
     pending_dir := DIR_RIGHT;
     food_x := 0; food_y := 0;
     item_type := ITEM_NONE; item_x := 0; item_y := 0;
     phase_timer := 0; speed_timer := 0;
     particles := replicate (Z.to_nat MAX_PARTICLES) {| lifetime := 0; active := false |};
     obstacle := replicate (Z.to_nat (GRID_W * GRID_H)) 0;
     obstacle_count := 0;
     score := 0; highscore := 0;
     state := STATE_TITLE;
     move_counter := BASE_MOVE_INTERVAL;
     frame_count := 0;
     prev_start := 0; prev_select := 0 |}.

(** ** Save states

    Memory is a list of bytes (each a [Z] in [0, 256)); the ABI is LP64,
    little endian: [int] and the three enumerations occupy 4 bytes,
    [unsigned long] 8.  The buffer handed to the serializer is the list of
    the bytes of the object [data] points to; an access outside it is a
    fault.  The byte pointer [ptr] only ever moves forward, so a cursor is
    the pair of the bytes before [ptr] and the bytes from [ptr] on. *)

Inductive fault := OutOfBounds | NotAnEnumerator.

Definition result (A : Type) : Type := fault + A.

Notation "'try' x ':=' m 'in' k" :=
  (match m with inl e => inl e | inr x => k end)
  (at level 10, x name, m at level 100, k at level 200).

Definition sizeof_int : Z := 4.
Definition sizeof_direction_t : Z := 4.
Definition sizeof_item_type_t : Z := 4.
Definition sizeof_game_state_t : Z := 4.
Definition sizeof_unsigned_long : Z := 8.

(** The low [n] bytes of [v], least significant first (two's complement). *)
Fixpoint encode_le (n : nat) (v : Z) : list Z :=
  match n with
  | O => []
  | S k => v mod 256 :: encode_le k (v / 256)
  end.

Definition decode_le (bs : list Z) : Z := fold_right (fun b acc => b + 256 * acc) 0 bs.

Definition int_bytes (v : Z) : list Z := encode_le (Z.to_nat sizeof_int) v.
Definition int_of_bytes (bs : list Z) : Z := wrap_int (decode_le bs).
Definition ulong_bytes (v : Z) : list Z := encode_le (Z.to_nat sizeof_unsigned_long) v.
Definition ulong_of_bytes (bs : list Z) : Z := decode_le bs.

Definition int_of_direction (d : direction_t) : Z :=
  match d with DIR_UP => 0 | DIR_DOWN => 1 | DIR_LEFT => 2 | DIR_RIGHT => 3 end.

Definition direction_of_int (z : Z) : option direction_t :=
  if z =? 0 then Some DIR_UP else if z =? 1 then Some DIR_DOWN
  else if z =? 2 then Some DIR_LEFT else if z =? 3 then Some DIR_RIGHT else None.

Definition int_of_item_type (t : item_type_t) : Z :=
  match t with ITEM_NONE => 0 | ITEM_PHASE => 1 | ITEM_SPEED => 2 end.

Definition item_type_of_int (z : Z) : option item_type_t :=
  if z =? 0 then Some ITEM_NONE else if z =? 1 then Some ITEM_PHASE
  else if z =? 2 then Some ITEM_SPEED else None.

Definition int_of_game_state (s : game_state_t) : Z :=
  match s with STATE_TITLE => 0 | STATE_PLAY => 1 | STATE_PAUSE => 2 | STATE_GAMEOVER => 3 end.

Definition game_state_of_int (z : Z) : option game_state_t :=
  if z =? 0 then Some STATE_TITLE else if z =? 1 then Some STATE_PLAY
  else if z =? 2 then Some STATE_PAUSE else if z =? 3 then Some STATE_GAMEOVER else None.

(** The [MAX_SNAKE_LENGTH] cells of a coordinate array and their bytes. *)
Definition array_cells (a : list Z) : list Z :=
  map (fun i => aget a (Z.of_nat i)) (seq 0 (Z.to_nat MAX_SNAKE_LENGTH)).

Definition array_bytes (a : list Z) : list Z := flat_map int_bytes (array_cells a).

Fixpoint ints_of_bytes (n : nat) (bs : list Z) : list Z :=
  match n with
  | O => []
  | S k => int_of_bytes (take (Z.to_nat sizeof_int) bs)
           :: ints_of_bytes k (drop (Z.to_nat sizeof_int) bs)
  end.

(** The four bytes of a field of enumeration type.  The C code stores
    whatever they hold; a value that is none of the declared enumerators has
    no counterpart in the enumeration types here and is reported as
    [NotAnEnumerator].  The blobs [retro_serialize] writes never hold one. *)
Definition enum_of_bytes {A} (of_int : Z -> option A) (bs : list Z) : result A :=
  match of_int (int_of_bytes bs) with
  | Some a => inr a
  | None => inl NotAnEnumerator
  end.

(** A cursor: the bytes of the buffer before [ptr], and those from [ptr] on. *)
Definition cursor : Type := list Z * list Z.

Definition zlength (l : list Z) : Z := Z.of_nat (length l).

(** [memcpy(ptr, src, n); ptr += n] with [src] the [n] bytes copied. *)
Definition memcpy_out (src : list Z) (c : cursor) : result cursor :=
  if zlength src <=? zlength (snd c)
  then inr (fst c ++ src, drop (length src) (snd c))
  else inl OutOfBounds.

(** [memcpy(dst, ptr, n); ptr += n], returning the [n] bytes copied. *)
Definition memcpy_in (n : Z) (c : cursor) : result (list Z * cursor) :=
  if n <=? zlength (snd c)
  then inr (take (Z.to_nat n) (snd c),
            (fst c ++ take (Z.to_nat n) (snd c), drop (Z.to_nat n) (snd c)))
  else inl OutOfBounds.

Definition retro_serialize_size : Z :=
  sizeof_int * (2 * MAX_SNAKE_LENGTH + 5) + sizeof_game_state_t + sizeof_unsigned_long.

Definition retro_serialize (g : game) (data : list Z) (size : Z) : result (bool * list Z) :=
  let needed := retro_serialize_size in
  if size <? needed then inr (false, data)
  else
    let ptr : cursor := ([], data) in
    try ptr := memcpy_out (array_bytes (snake_x g)) ptr in
    try ptr := memcpy_out (array_bytes (snake_y g)) ptr in
    try ptr := memcpy_out (int_bytes (snake_length g)) ptr in
    try ptr := memcpy_out (int_bytes (int_of_direction (snake_dir g))) ptr in
    try ptr := memcpy_out (int_bytes (food_x g)) ptr in
    try ptr := memcpy_out (int_bytes (food_y g)) ptr in
    try ptr := memcpy_out (int_bytes (int_of_item_type (item_type g))) ptr in
    try ptr := memcpy_out (int_bytes (item_x g)) ptr in
    try ptr := memcpy_out (int_bytes (item_y g)) ptr in
    try ptr := memcpy_out (int_bytes (phase_timer g)) ptr in
    try ptr := memcpy_out (int_bytes (speed_timer g)) ptr in
    try ptr := memcpy_out (int_bytes (score g)) ptr in
    try ptr := memcpy_out (int_bytes (highscore g)) ptr in
    try ptr := memcpy_out (int_bytes (int_of_game_state (state g))) ptr in
    try ptr := memcpy_out (int_bytes (move_counter g)) ptr in
    try ptr := memcpy_out (ulong_bytes (frame_count g)) ptr in
    inr (true, fst ptr ++ snd ptr).

Definition retro_unserialize (g : game) (data : list Z) (size : Z) : result (bool * game) :=
  let needed := retro_serialize_size in
  if size <? needed then inr (false, g)
  else
    let ptr : cursor := ([], data) in
    try r := memcpy_in (sizeof_int * MAX_SNAKE_LENGTH) ptr in
    let g := set_snake_x (ints_of_bytes (Z.to_nat MAX_SNAKE_LENGTH) (fst r)) g in
    try r := memcpy_in (sizeof_int * MAX_SNAKE_LENGTH) (snd r) in
    let g := set_snake_y (ints_of_bytes (Z.to_nat MAX_SNAKE_LENGTH) (fst r)) g in
    try r := memcpy_in sizeof_int (snd r) in
    let g := set_snake_length (int_of_bytes (fst r)) g in
    try r := memcpy_in sizeof_direction_t (snd r) in
    try d := enum_of_bytes direction_of_int (fst r) in
    let g := set_snake_dir d g in
    try r := memcpy_in sizeof_int (snd r) in
    let g := set_food_x (int_of_bytes (fst r)) g in
    try r := memcpy_in sizeof_int (snd r) in
    let g := set_food_y (int_of_bytes (fst r)) g in
    try r := memcpy_in sizeof_item_type_t (snd r) in
    try t := enum_of_bytes item_type_of_int (fst r) in
    let g := set_item_type t g in
    try r := memcpy_in sizeof_int (snd r) in
    let g := set_item_x (int_of_bytes (fst r)) g in
    try r := memcpy_in sizeof_int (snd r) in
    let g := set_item_y (int_of_bytes (fst r)) g in
    try r := memcpy_in sizeof_int (snd r) in
    let g := set_phase_timer (int_of_bytes (fst r)) g in
    try r := memcpy_in sizeof_int (snd r) in
    let g := set_speed_timer (int_of_bytes (fst r)) g in
    try r := memcpy_in sizeof_int (snd r) in
    let g := set_score (int_of_bytes (fst r)) g in
    try r := memcpy_in sizeof_int (snd r) in
    let g := set_highscore (int_of_bytes (fst r)) g in
    try r := memcpy_in sizeof_game_state_t (snd r) in
    try s := enum_of_bytes game_state_of_int (fst r) in
    let g := set_state s g in
    try r := memcpy_in sizeof_int (snd r) in
    let g := set_move_counter (int_of_bytes (fst r)) g in
    try r := memcpy_in sizeof_unsigned_long (snd r) in
    let g := set_frame_count (ulong_of_bytes (fst r)) g in
    inr (true, g).

(** The sixteen copies of [retro_serialize], in order. *)
Definition serialize_chunks (g : game) : list (list Z) :=
  [ array_bytes (snake_x g); array_bytes (snake_y g);
    int_bytes (snake_length g); int_bytes (int_of_direction (snake_dir g));
    int_bytes (food_x g); int_bytes (food_y g);
    int_bytes (int_of_item_type (item_type g));
    int_bytes (item_x g); int_bytes (item_y g);
    int_bytes (phase_timer g); int_bytes (speed_timer g);
    int_bytes (score g); int_bytes (highscore g);
    int_bytes (int_of_game_state (state g));
    int_bytes (move_counter g); ulong_bytes (frame_count g) ].

(** The bytes [retro_serialize] copies, and their number. *)
Definition serialize_stream (g : game) : list Z := concat (serialize_chunks g).

Fixpoint write_all (chunks : list (list Z)) (c : cursor) : result cursor :=
  match chunks with
  | [] => inr c
  | src :: rest => try c := memcpy_out src c in write_all rest c
  end.

Definition serialized_length : Z :=
  sizeof_int * (2 * MAX_SNAKE_LENGTH + 10)
  + sizeof_direction_t + sizeof_item_type_t + sizeof_game_state_t + sizeof_unsigned_long.

(** * Vocabulary of the properties *)

(** ** Cells *)

Definition snake_cell (g : game) (i : Z) : Z * Z :=
  (aget (snake_x g) i, aget (snake_y g) i).

Definition head_cell (g : game) : Z * Z := snake_cell g 0.

Definition on_snake (g : game) (x y : Z) : Prop :=
  exists i, 0 <= i < snake_length g /\ snake_cell g i = (x, y).

Definition in_grid (x y : Z) : Prop := 0 <= x < GRID_W /\ 0 <= y < GRID_H.

Definition on_obstacle (g : game) (x y : Z) : Prop :=
  in_grid x y /\ obstacle_at g x y <> 0.

Definition on_item (g : game) (x y : Z) : Prop :=
  item_type g <> ITEM_NONE /\ item_x g = x /\ item_y g = y.

Definition cell_free (g : game) (x y : Z) : Prop :=
  ~ on_snake g x y /\ ~ on_obstacle g x y /\ ~ on_item g x y.

Definition on_border (x y : Z) : Prop :=
  x = 0 \/ x = GRID_W - 1 \/ y = 0 \/ y = GRID_H - 1.

(** ** Ticks *)

(** The state right after [snake_dir = pending_dir]. *)
Definition turned (g : game) : game := set_snake_dir (pending_dir g) g.

(** The candidate head cell of the tick that starts in [g]. *)
Definition tick_candidate (g : game) : Z * Z := candidate (turned g).

(** The three fatal collisions of a tick. *)
Definition fatal_collision (g : game) : Prop :=
  let c := tick_candidate g in
  (phase_timer g <= 0 /\ ~ in_grid (fst c) (snd c))
  \/ (phase_timer g <= 0 /\ on_snake g (fst c) (snd c))
  \/ on_obstacle g (fst c) (snd c).

(** The collision tests of [update_snake], as one boolean. *)
Definition fatalb (g : game) : bool :=
  let g1 := turned g in
  let s := step_head g1 in
  let c := candidate g1 in
  ((phase_timer g <=? 0) && out_of_grid (fst s) (snd s))
  || ((phase_timer g <=? 0) && snake_occupies g1 (fst c) (snd c))
  || check_obstacle_collision g1 (fst c) (snd c).

(** What [update_snake] does after the collision tests have passed. *)
Definition after_commit (gate : Z -> bool) (g : game) : Rand game :=
  let c := tick_candidate g in
  let g2 := commit_move (fst c) (snd c) (turned g) in
  let* g3 := if (fst c =? food_x g2) && (snd c =? food_y g2)
             then eat_food gate g2 else ret g2 in
  if item_occupies g3 (fst c) (snd c) then take_item g3 else ret g3.

(** ** Directions and input *)

Definition reverse (d : direction_t) : direction_t :=
  match d with
  | DIR_UP => DIR_DOWN
  | DIR_DOWN => DIR_UP
  | DIR_LEFT => DIR_RIGHT
  | DIR_RIGHT => DIR_LEFT
  end.

Definition no_reversal (g : game) : Prop := pending_dir g <> reverse (snake_dir g).

(** The direction a frame's input requests, one flag per control. *)
Definition requested (i : input) (d : direction_t) : Prop :=
  match d with
  | DIR_UP => in_up i <> 0
  | DIR_DOWN => in_down i <> 0
  | DIR_LEFT => in_left i <> 0
  | DIR_RIGHT => in_right i <> 0
  end.

(** Whether the frame's Start edge restarts the game. *)
Definition restarts (i : input) (g : game) : bool :=
  truthy (in_start i) && negb (truthy (prev_start g))
  && (bool_decide (state g = STATE_TITLE) || bool_decide (state g = STATE_GAMEOVER)).

(** A requested direction that is the only one requested. *)
Definition only_left (i : input) : Prop :=
  in_left i <> 0 /\ in_up i = 0 /\ in_down i = 0 /\ in_right i = 0
  /\ in_start i = 0 /\ in_select i = 0.

(** ** Frames *)

(** The globals as [retro_run] leaves them just before it tests the move
    countdown: both timers and the countdown have been stepped. *)
Definition frame_prelude (g : game) : game :=
  set_move_counter (wrap_int (move_counter g - 1))
    (set_speed_timer (count_down (speed_timer g))
       (set_phase_timer (count_down (phase_timer g)) g)).

(** The interval [retro_run] reloads the countdown with. *)
Definition move_interval (g : game) : Z :=
  if speed_timer g >? 0 then BASE_MOVE_INTERVAL / 2 else BASE_MOVE_INTERVAL.

(** A frame on which the snake steps. *)
Definition tick_due (g : game) : Prop := move_counter (frame_prelude g) <= 0.



(** ** Well-formed globals *)

#[global] Instance is_int_dec (z : Z) : Decision (is_int z).
Proof. unfold is_int. apply _. Defined.

#[global] Instance is_ulong_dec (z : Z) : Decision (is_ulong z).
Proof. unfold is_ulong. apply _. Defined.

(** The coordinate arrays have their declared size and every [int] and
    [unsigned long] global holds a value of its type. *)
Definition wf_game (g : game) : Prop :=
  length (snake_x g) = Z.to_nat MAX_SNAKE_LENGTH
  /\ length (snake_y g) = Z.to_nat MAX_SNAKE_LENGTH
  /\ Forall is_int (snake_x g) /\ Forall is_int (snake_y g)
  /\ is_int (snake_length g)
  /\ is_int (food_x g) /\ is_int (food_y g)
  /\ is_int (item_x g) /\ is_int (item_y g)
  /\ is_int (phase_timer g) /\ is_int (speed_timer g)
  /\ is_int (score g) /\ is_int (highscore g)
  /\ is_int (move_counter g) /\ is_ulong (frame_count g).

(** The arrays have their declared sizes. *)
Definition arrays_sized (g : game) : Prop :=
  length (snake_x g) = Z.to_nat MAX_SNAKE_LENGTH
  /\ length (snake_y g) = Z.to_nat MAX_SNAKE_LENGTH
  /\ length (obstacle g) = Z.to_nat (GRID_W * GRID_H).

(** ** The play field *)

Definition border_blocked (g : game) : Prop :=
  forall x y, in_grid x y -> on_border x y -> obstacle_at g x y <> 0.

Definition head_interior (g : game) : Prop :=
  0 < fst (head_cell g) < GRID_W - 1 /\ 0 < snd (head_cell g) < GRID_H - 1.

(** The invariant of play. *)
Definition playable (g : game) : Prop :=
  arrays_sized g /\ 1 <= snake_length g /\ border_blocked g /\ head_interior g.

(** States reached from a game reset by ticks, input handling and frames. *)
Inductive reachable (gate : Z -> bool) : game -> Prop :=
  | reach_reset g ds g' ds' :
      arrays_sized g -> game_reset g ds = Some (g', ds') -> reachable gate g'
  | reach_tick g ds g' ds' :
      reachable gate g -> update_snake gate g ds = Some (g', ds') -> reachable gate g'
  | reach_input i g ds g' ds' :
      reachable gate g -> handle_input i g ds = Some (g', ds') -> reachable gate g'
  | reach_frame i g ds g' ds' :
      reachable gate g -> retro_run gate i g ds = Some (g', ds') -> reachable gate g'.

(** [g'] differs from [g] in the obstacle grid and its count at most. *)
Definition obstacles_only (g g' : game) : Prop :=
  exists o c, g' = set_obstacle_count c (set_obstacle o g).

(** [g'] has the obstacle grid of [g] with some more cells occupied. *)
Definition keeps_blocked (g g' : game) : Prop :=
  length (obstacle g') = length (obstacle g)
  /\ forall x y, obstacle_at g x y <> 0 -> obstacle_at g' x y <> 0.

(** [g'] has the snake and the obstacle grid of [g]. *)
Definition same_field (g g' : game) : Prop :=
  snake_x g' = snake_x g /\ snake_y g' = snake_y g
  /\ snake_length g' = snake_length g /\ obstacle g' = obstacle g.

(** ** Operations of the core *)

Inductive core_op :=
  | OpInit
  | OpReset
  | OpFrame (i : input)
  | OpLoad (data : list Z) (size : Z).

Definition exec (gate : Z -> bool) (o : core_op) (g : game) : Rand game :=
  match o with
  | OpInit => retro_init g
  | OpReset => retro_reset g
  | OpFrame i => retro_run gate i g
  | OpLoad data size =>
      fun ds => match retro_unserialize g data size with
                | inr (_, g') => Some (g', ds)
                | inl _ => None
                end
  end.

Definition is_load (o : core_op) : bool :=
  match o with OpLoad _ _ => true | _ => false end.

(** The explicit clear: a Select edge handled in the Title state. *)
Definition explicit_clear (o : core_op) (g : game) : bool :=
  match o with
  | OpFrame i =>
      truthy (in_select i) && negb (truthy (prev_select g))
      && bool_decide (state g = STATE_TITLE)
      && negb (truthy (in_start i) && negb (truthy (prev_start g)))
  | _ => false
  end.

(** The reading "every operation but the explicit clear". *)
Definition highscore_never_decreases (gate : Z -> bool) : Prop :=
  forall o g ds g' ds',
    exec gate o g ds = Some (g', ds') ->
    explicit_clear o g = false ->
    highscore g <= highscore g'.

(** A run of operations, with the largest score seen after an operation
    since the last explicit clear. *)
Fixpoint observe (gate : Z -> bool) (ops : list core_op) (g : game) (m : Z)
  : Rand (game * Z) :=
  match ops with
  | [] => ret (g, m)
  | o :: rest =>
      let* g' := exec gate o g in
      observe gate rest g' (if explicit_clear o g then score g' else Z.max m (score g'))
  end.

(** The invariant behind the running maximum. *)
Definition tracks_maximum (g : game) (m : Z) : Prop :=
  highscore g = m /\ score g <= m /\ 0 <= m
  /\ (state g = STATE_TITLE -> score g = 0).

(** ** Enough draws *)

(** The draws [x, y, x, y, ...], [n] pairs long. *)
Fixpoint alternate (x y : nat) (n : nat) : list nat :=
  match n with
  | O => []
  | S k => x :: y :: alternate x y k
  end.

(** ** The size formulas on any ABI

    [reported_size] is the expression of [retro_serialize_size] and
    [copied_size] the sum of the byte counts of the sixteen copies of
    [retro_serialize], for arbitrary sizes of [int], [direction_t],
    [item_type_t], [game_state_t] and [unsigned long]. *)
Definition reported_size (si sg su : Z) : Z :=
  si * (2 * MAX_SNAKE_LENGTH + 5) + sg + su.

Definition copied_size (si sd st sg su : Z) : Z :=
  si * MAX_SNAKE_LENGTH + si * MAX_SNAKE_LENGTH + si + sd + si + si + st
  + si + si + si + si + si + si + sg + si + su.

(** ** Sample data *)

Definition no_input : input := mkInput 0 0 0 0 0 0.

Definition press_left : input := mkInput 0 0 1 0 0 0.

(** A session: load the core, press Start, then let forty frames pass
    without input; the snake reaches the food on its fifth step. *)
Definition press_start_only : input := mkInput 0 0 0 0 1 0.

(** The power-up gate where [RAND_MAX] is [2 ^ 31 - 1]: in single precision
    [(float)r / (float)RAND_MAX] exceeds [0.5f] from [r = 2 ^ 30 + 65] on. *)
Definition sample_gate (r : Z) : bool := 1073741888 <? r.

(** Draws for one [game_reset]: the food cell, then twelve obstacle cells. *)
Definition sample_draws : list nat :=
  [ 25; 15; 2; 2; 3; 3; 4; 4; 5; 5; 6; 6; 7; 7; 8; 8; 9; 9; 10; 10; 11; 11;
    12; 12; 13; 13 ]%nat.

(** The game as the first Start press leaves it. *)
Definition started_game : game :=
  match game_reset (set_state STATE_PLAY init_game) sample_draws with
  | Some (g, _) => g
  | None => init_game
  end.

(** The snake about to turn back onto its own second segment. *)
Definition reversing_game : game := set_pending_dir DIR_LEFT started_game.

(** The food one cell ahead of the head. *)
Definition hungry_game : game := set_food_x 21 started_game.

(** Draws for the tick of [hungry_game]: one particle (four draws, even
    coin), the new food cell, the power-up roll, its variant and its cell. *)
Definition eat_draws : list nat := [ 0; 0; 0; 0; 30; 20; 0; 1; 10; 20 ]%nat.

Definition fed_game : game :=
  match update_snake sample_gate hungry_game eat_draws with
  | Some (g, _) => g
  | None => hungry_game
  end.

(** Both effects running, the move countdown at its base value. *)
Definition powered_game : game := set_speed_timer 7 (set_phase_timer 5 started_game).

Definition next_frame : game :=
  match retro_run sample_gate no_input powered_game [] with
  | Some (g, _) => g
  | None => powered_game
  end.

(** A buffer with room for every byte the serializer copies, and the blob
    it receives. *)
Definition roomy_buffer : list Z := replicate (Z.to_nat serialized_length) 0.

Definition saved_blob : list Z :=
  match retro_serialize started_game roomy_buffer retro_serialize_size with
  | inr (_, data) => data
  | inl _ => []
  end.

(** A buffer of exactly the reported size. *)
Definition exact_buffer : list Z := replicate (Z.to_nat retro_serialize_size) 0.

(** The started game after an Up request and a step, then a Left request
    and a step: the snake heads left, its neck on the cell right of the head. *)
Definition press_up : input := mkInput 1 0 0 0 0 0.

Definition leftward_game : game :=
  match (let* g := handle_input press_up started_game in
         let* g := update_snake sample_gate g in
         let* g := handle_input press_left g in
         update_snake sample_gate g) [] with
  | Some (g, _) => g
  | None => started_game
  end.

(** The save state taken there, and the game a load of it leaves when it
    happens in the freshly started game, whose buffered direction is Right. *)
Definition leftward_blob : list Z :=
  match retro_serialize leftward_game roomy_buffer retro_serialize_size with
  | inr (_, data) => data
  | inl _ => []
  end.

Definition crossed_game : game :=
  match retro_unserialize started_game leftward_blob retro_serialize_size with
  | inr (_, g) => g
  | inl _ => started_game
  end.

(** A later state of the same process, with a high score of 50. *)
Definition rich_game : game := set_highscore 50 (set_score 50 started_game).

Definition loaded_game : game :=
  match retro_unserialize rich_game saved_blob retro_serialize_size with
  | inr (_, g) => g
  | inl _ => rich_game
  end.

Definition sample_session : list core_op :=
  OpInit :: OpFrame press_start_only :: replicate 40 (OpFrame no_input).

Definition session_draws : list nat := sample_draws ++ sample_draws ++ eat_draws.

Definition session_game : game :=
  match observe sample_gate sample_session init_game 0 session_draws with
  | Some ((g, _), _) => g
  | None => init_game
  end.

Definition session_max : Z :=
  match observe sample_gate sample_session init_game 0 session_draws with
  | Some ((_, m), _) => m
  | None => 0
  end.

(** * Further vocabulary *)

(** ** The state between ticks *)

Definition strictly_inside (c : Z * Z) : Prop :=
  0 < fst c < GRID_W - 1 /\ 0 < snd c < GRID_H - 1.

(** Every body cell lies strictly inside the border ring. *)
Definition cells_interior (g : game) : Prop :=
  forall i, 0 <= i < snake_length g -> strictly_inside (snake_cell g i).

(** The food cell is a grid cell that no body cell covers. *)
Definition food_placed (g : game) : Prop :=
  in_grid (food_x g) (food_y g) /\ ~ on_snake g (food_x g) (food_y g).

(** An active item lies on a grid cell free of the snake and of obstacles. *)
Definition item_placed (g : game) : Prop :=
  item_type g <> ITEM_NONE ->
  in_grid (item_x g) (item_y g)
  /\ ~ on_snake g (item_x g) (item_y g)
  /\ obstacle_at g (item_x g) (item_y g) = 0.

Definition counters_bounded (g : game) : Prop :=
  3 <= snake_length g <= MAX_SNAKE_LENGTH
  /\ 0 <= phase_timer g <= PHASE_DURATION
  /\ 0 <= speed_timer g <= SPEED_DURATION.

(** The move countdown between frames. *)
Definition cadence (g : game) : Prop := 1 <= move_counter g <= BASE_MOVE_INTERVAL.

(** An active particle has between 1 and 59 frames left. *)
Definition particle_fresh (p : particle_t) : Prop :=
  active p = true -> 1 <= lifetime p <= 59.

(** The globals the simulation rules read. *)
Definition same_sim (g g' : game) : Prop :=
  same_field g g'
  /\ food_x g' = food_x g /\ food_y g' = food_y g
  /\ item_type g' = item_type g /\ item_x g' = item_x g /\ item_y g' = item_y g
  /\ phase_timer g' = phase_timer g /\ speed_timer g' = speed_timer g
  /\ move_counter g' = move_counter g /\ particles g' = particles g.

(** The invariant of the simulation state, and of the state between frames. *)
Definition settled (g : game) : Prop :=
  playable g /\ counters_bounded g /\ cells_interior g
  /\ food_placed g /\ item_placed g /\ Forall particle_fresh (particles g).

Definition steady (g : game) : Prop := settled g /\ cadence g.

(** An active item may lie under the head [c] during a tick, nowhere else
    under the snake. *)
Definition item_ahead (g : game) (c : Z * Z) : Prop :=
  item_type g <> ITEM_NONE ->
  in_grid (item_x g) (item_y g)
  /\ obstacle_at g (item_x g) (item_y g) = 0
  /\ (on_snake g (item_x g) (item_y g) -> (item_x g, item_y g) = c).

(** The invariant inside a tick, after the move and the food branch. *)
Definition mid_tick (g : game) (c : Z * Z) : Prop :=
  playable g /\ counters_bounded g /\ cells_interior g
  /\ food_placed g /\ item_ahead g c /\ Forall particle_fresh (particles g).

(** ** Further sample data *)

(** The started game after its first step; no draw is needed, the head
    moves onto an empty cell. *)
Definition stepped_game : game :=
  match update_snake sample_gate started_game [] with
  | Some (g, _) => g
  | None => started_game
  end.

(** A speed item one cell ahead of the head, and the game after the step
    that picks it up (one particle: four draws, even coin). *)
Definition tempting_game : game :=
  set_item_y 15 (set_item_x 21 (set_item_type ITEM_SPEED started_game)).

Definition pickup_draws : list nat := [ 0; 0; 0; 0 ]%nat.

Definition boosted_game : game :=
  match update_snake sample_gate tempting_game pickup_draws with
  | Some (g, _) => g
  | None => tempting_game
  end.

(** ** Button edges and frames outside play *)

(** [start && !prev_start] and [select && !prev_select] of [handle_input]. *)
Definition start_edge (i : input) (g : game) : bool :=
  truthy (in_start i) && negb (truthy (prev_start g)).

Definition select_edge (i : input) (g : game) : bool :=
  truthy (in_select i) && negb (truthy (prev_select g)).

(** The state a newly pressed Start leads to. *)
Definition after_start (s : game_state_t) : game_state_t :=
  match s with
  | STATE_PLAY => STATE_PAUSE
  | _ => STATE_PLAY
  end.

(** Every global of the simulation is the same in both states; the frame
    counter, the two remembered buttons and the high score may differ. *)
Definition frozen (g g' : game) : Prop :=
  snake_x g' = snake_x g /\ snake_y g' = snake_y g
  /\ snake_length g' = snake_length g
  /\ snake_dir g' = snake_dir g /\ pending_dir g' = pending_dir g
  /\ food_x g' = food_x g /\ food_y g' = food_y g
  /\ item_type g' = item_type g /\ item_x g' = item_x g /\ item_y g' = item_y g
  /\ phase_timer g' = phase_timer g /\ speed_timer g' = speed_timer g
  /\ particles g' = particles g
  /\ obstacle g' = obstacle g /\ obstacle_count g' = obstacle_count g
  /\ score g' = score g /\ state g' = state g
  /\ move_counter g' = move_counter g.

(** The started game paused by a second Start press, and a frame in which
    the player holds Left while paused. *)
Definition paused_game : game := set_state STATE_PAUSE started_game.

Definition idle_frame : game :=
  match retro_run sample_gate press_left paused_game [] with
  | Some (g, _) => g
  | None => paused_game
  end.

(** The started game with Start newly pressed: the game pauses. *)
Definition pressed_game : game :=
  match handle_input press_start_only started_game [] with
  | Some (g, _) => g
  | None => started_game
  end.

(** ** Obstacle census *)

(** The number of cells of the grid that hold an obstacle. *)
Definition blocked_cells (g : game) : Z :=
  Z.of_nat (length (List.filter truthy (obstacle g))).

(** The border ring and the random obstacles of [spawn_obstacles]. *)
Definition obstacle_total : Z := 2 * (GRID_W + GRID_H) - 4 + GRID_W * GRID_H / 100.

Definition census (g : game) : Prop :=
  obstacle_count g = obstacle_total /\ blocked_cells g = obstacle_total.

(** The two border loops of [spawn_obstacles] run on a cleared grid. *)
Definition ring_game : game :=
  fold_left border_row (seq 0 (Z.to_nat GRID_H))
    (fold_left border_column (seq 0 (Z.to_nat GRID_W)) init_game).

Definition on_borderb (x y : Z) : bool :=
  (x =? 0) || (x =? GRID_W - 1) || (y =? 0) || (y =? GRID_H - 1).

(** Obstacle grid and obstacle counter are the same in both states. *)
Definition same_obstacles (g g' : game) : Prop :=
  obstacle g' = obstacle g /\ obstacle_count g' = obstacle_count g.

(** Draws for a reset whose food cell (0, 5) lies on the border ring. *)
Definition buried_draws : list nat := (0 :: 5 :: drop 2 sample_draws)%nat.

Definition buried_game : game :=
  match game_reset (set_state STATE_PLAY init_game) buried_draws with
  | Some (g, _) => g
  | None => init_game
  end.

(** Eight frames later, after the first step. *)
Definition buried_frame : game :=
  match retro_run sample_gate no_input
          (set_move_counter 1 buried_game) [] with
  | Some (g, _) => g
  | None => buried_game
  end.

(** Draws for one [spawn_item] on the started game: the roll passes, the
    variant is odd (phase), the cell is (10, 20). *)
Definition item_draws : list nat := [ 0; 1; 10; 20 ]%nat.

Definition itemised_game : game :=
  match spawn_item sample_gate started_game item_draws with
  | Some (g, _) => g
  | None => started_game
  end.

(** One explosion on the started game: one particle, even coin. *)
Definition sparked_game : game :=
  match spawn_particles started_game pickup_draws with
  | Some (g, _) => g
  | None => started_game
  end.

(** ** Loading over a running game *)

(** A later state whose pending direction is Up, the state a load of
    [saved_blob] (saved while heading Right) leaves, and the step after. *)
Definition turning_game : game := set_pending_dir DIR_UP rich_game.

Definition reloaded_game : game :=
  match retro_unserialize turning_game saved_blob retro_serialize_size with
  | inr (_, g) => g
  | inl _ => turning_game
  end.

Definition reloaded_step : game :=
  match update_snake sample_gate reloaded_game [] with
  | Some (g, _) => g
  | None => reloaded_game
  end.

(** * The HUD layer of the renderer

    The integer drawing code: [RGB], the seven-segment table, the bitmap
    font, [draw_segment], [draw_digit], [draw_text] and [draw_scoreboard].
    The frame buffer [video_buffer] is an array of
    [FB_WIDTH * FB_HEIGHT] pixels, row after row; a colour is the value of
    a [uint32_t], a character the value of a [char]. *)

Definition CELL_SIZE : Z := 16.
Definition FB_WIDTH : Z := GRID_W * CELL_SIZE.
Definition FB_HEIGHT : Z := GRID_H * CELL_SIZE.

Definition to_uint32 (z : Z) : Z := z mod 2 ^ 32.

(** The macro [RGB(r, g, b)]. *)
Definition RGB (r g b : Z) : Z :=
  Z.lor (Z.lor (Z.shiftl (Z.land (to_uint32 r) 0xFF) 16)
               (Z.shiftl (Z.land (to_uint32 g) 0xFF) 8))
        (Z.land (to_uint32 b) 0xFF).

Definition PHASE_COLOUR : Z := RGB 80 80 200.
Definition SPEED_COLOUR : Z := RGB 200 160 40.
Definition HUD_TEXT_COLOUR : Z := RGB 240 240 240.

(** The unpacking [(c >> 16) & 0xFF], [(c >> 8) & 0xFF], [c & 0xFF] used
    wherever a colour is taken apart. *)
Definition red_of (c : Z) : Z := Z.land (Z.shiftr c 16) 0xFF.
Definition green_of (c : Z) : Z := Z.land (Z.shiftr c 8) 0xFF.
Definition blue_of (c : Z) : Z := Z.land c 0xFF.

(** [seven_seg_digits]: bit 6 is segment a, bit 0 segment g. *)
Definition seven_seg_digits : list Z :=
  [ 126 (* 0: 0b1111110 *); 48 (* 1: 0b0110000 *); 109 (* 2: 0b1101101 *);
    121 (* 3: 0b1111001 *); 51 (* 4: 0b0110011 *); 91 (* 5: 0b1011011 *);
    95 (* 6: 0b1011111 *); 112 (* 7: 0b1110000 *); 127 (* 8: 0b1111111 *);
    123 (* 9: 0b1111011 *) ].

(** [font_glyphs]: the character code and the eight rows of its bitmap. *)
Definition font_glyphs : list (Z * list Z) :=
  [ (65 (* A *), [0x38; 0x44; 0x44; 0x7c; 0x44; 0x44; 0x44; 0x00]);
    (66 (* B *), [0x78; 0x44; 0x44; 0x78; 0x44; 0x44; 0x78; 0x00]);
    (67 (* C *), [0x38; 0x44; 0x40; 0x40; 0x40; 0x44; 0x38; 0x00]);
    (68 (* D *), [0x78; 0x44; 0x44; 0x44; 0x44; 0x44; 0x78; 0x00]);
    (69 (* E *), [0x7c; 0x40; 0x40; 0x78; 0x40; 0x40; 0x7c; 0x00]);
    (70 (* F *), [0x7c; 0x40; 0x40; 0x78; 0x40; 0x40; 0x40; 0x00]);
    (71 (* G *), [0x38; 0x44; 0x40; 0x5c; 0x44; 0x44; 0x38; 0x00]);
    (72 (* H *), [0x44; 0x44; 0x44; 0x7c; 0x44; 0x44; 0x44; 0x00]);
    (73 (* I *), [0x3c; 0x10; 0x10; 0x10; 0x10; 0x10; 0x3c; 0x00]);
    (74 (* J *), [0x1c; 0x08; 0x08; 0x08; 0x08; 0x48; 0x30; 0x00]);
    (75 (* K *), [0x44; 0x48; 0x50; 0x60; 0x50; 0x48; 0x44; 0x00]);
    (76 (* L *), [0x40; 0x40; 0x40; 0x40; 0x40; 0x40; 0x7c; 0x00]);
    (77 (* M *), [0x44; 0x6c; 0x54; 0x54; 0x44; 0x44; 0x44; 0x00]);
    (78 (* N *), [0x44; 0x64; 0x54; 0x4c; 0x44; 0x44; 0x44; 0x00]);
    (79 (* O *), [0x38; 0x44; 0x44; 0x44; 0x44; 0x44; 0x38; 0x00]);
    (80 (* P *), [0x78; 0x44; 0x44; 0x78; 0x40; 0x40; 0x40; 0x00]);
    (81 (* Q *), [0x38; 0x44; 0x44; 0x44; 0x54; 0x48; 0x34; 0x00]);
    (82 (* R *), [0x78; 0x44; 0x44; 0x78; 0x50; 0x48; 0x44; 0x00]);
    (83 (* S *), [0x38; 0x44; 0x20; 0x18; 0x04; 0x44; 0x38; 0x00]);
    (84 (* T *), [0x7c; 0x10; 0x10; 0x10; 0x10; 0x10; 0x10; 0x00]);
    (85 (* U *), [0x44; 0x44; 0x44; 0x44; 0x44; 0x44; 0x38; 0x00]);
    (86 (* V *), [0x44; 0x44; 0x44; 0x44; 0x44; 0x28; 0x10; 0x00]);
    (87 (* W *), [0x44; 0x44; 0x44; 0x54; 0x54; 0x6c; 0x44; 0x00]);
    (88 (* X *), [0x44; 0x44; 0x28; 0x10; 0x28; 0x44; 0x44; 0x00]);
    (89 (* Y *), [0x44; 0x44; 0x28; 0x10; 0x10; 0x10; 0x3c; 0x00]);
    (90 (* Z *), [0x7c; 0x04; 0x08; 0x10; 0x20; 0x40; 0x7c; 0x00]);
    (48 (* 0 *), [0x38; 0x44; 0x4c; 0x54; 0x64; 0x44; 0x38; 0x00]);
    (49 (* 1 *), [0x10; 0x30; 0x10; 0x10; 0x10; 0x10; 0x38; 0x00]);
    (50 (* 2 *), [0x38; 0x44; 0x04; 0x08; 0x10; 0x20; 0x7c; 0x00]);
    (51 (* 3 *), [0x38; 0x44; 0x04; 0x18; 0x04; 0x44; 0x38; 0x00]);
    (52 (* 4 *), [0x08; 0x18; 0x28; 0x48; 0x7c; 0x08; 0x08; 0x00]);
    (53 (* 5 *), [0x7c; 0x40; 0x78; 0x04; 0x04; 0x44; 0x38; 0x00]);
    (54 (* 6 *), [0x18; 0x20; 0x40; 0x78; 0x44; 0x44; 0x38; 0x00]);
    (55 (* 7 *), [0x7c; 0x04; 0x08; 0x10; 0x20; 0x20; 0x20; 0x00]);
    (56 (* 8 *), [0x38; 0x44; 0x44; 0x38; 0x44; 0x44; 0x38; 0x00]);
    (57 (* 9 *), [0x38; 0x44; 0x44; 0x3c; 0x04; 0x08; 0x30; 0x00]) ].

(** [get_glyph_bitmap]: the bitmap of the first entry whose character is
    [c]; [None] stands for the null pointer. *)
Fixpoint find_glyph (table : list (Z * list Z)) (c : Z) : option (list Z) :=
  match table with
  | [] => None
  | (ch, bitmap) :: rest => if ch =? c then Some bitmap else find_glyph rest c
  end.

Definition get_glyph_bitmap (c : Z) : option (list Z) := find_glyph font_glyphs c.

(** [for (int i = 0; i < n; i++) body], threading the state [a]. *)
Definition for_int {A} (n : Z) (body : Z -> A -> A) (a : A) : A :=
  fold_left (fun a i => body (Z.of_nat i) a) (seq 0 (Z.to_nat n)) a.

(** The guarded store
    [if (draw_x >= 0 && draw_x < FB_WIDTH && draw_y >= 0 && draw_y < FB_HEIGHT)
       video_buffer[draw_y * FB_WIDTH + draw_x] = colour]. *)
Definition plot (fb : list Z) (draw_x draw_y colour : Z) : list Z :=
  if (draw_x >=? 0) && (draw_x <? FB_WIDTH) && (draw_y >=? 0) && (draw_y <? FB_HEIGHT)
  then aset fb (wrap_int (wrap_int (draw_y * FB_WIDTH) + draw_x)) colour
  else fb.

Definition draw_segment (x y px py pw ph colour : Z) (fb : list Z) : list Z :=
  for_int ph (fun yy fb =>
    for_int pw (fun xx fb =>
      let draw_x := wrap_int (wrap_int (x + px) + xx) in
      let draw_y := wrap_int (wrap_int (y + py) + yy) in
      plot fb draw_x draw_y colour) fb) fb.

Definition draw_digit (x y value colour : Z) (fb : list Z) : list Z :=
  if (value <? 0) || (value >? 9) then fb
  else
    let mask := aget seven_seg_digits value in
    let w := 20 in
    let h := 36 in
    let thickness := 4 in
    let fb := if truthy (Z.land mask 64)
              then draw_segment x y thickness 0 (w - 2 * thickness) thickness colour fb
              else fb in
    let fb := if truthy (Z.land mask 32)
              then draw_segment x y (w - thickness) thickness thickness
                     (Z.quot h 2 - thickness) colour fb
              else fb in
    let fb := if truthy (Z.land mask 16)
              then draw_segment x y (w - thickness) (Z.quot h 2) thickness
                     (Z.quot h 2 - thickness) colour fb
              else fb in
    let fb := if truthy (Z.land mask 8)
              then draw_segment x y thickness (h - thickness) (w - 2 * thickness)
                     thickness colour fb
              else fb in
    let fb := if truthy (Z.land mask 4)
              then draw_segment x y 0 (Z.quot h 2) thickness
                     (Z.quot h 2 - thickness) colour fb
              else fb in
    let fb := if truthy (Z.land mask 2)
              then draw_segment x y 0 thickness thickness
                     (Z.quot h 2 - thickness) colour fb
              else fb in
    if truthy (Z.land mask 1)
    then draw_segment x y thickness (Z.quot h 2 - Z.quot thickness 2)
           (w - 2 * thickness) thickness colour fb
    else fb.

(** The two loops over the rows and columns of one glyph in [draw_text]. *)
Definition draw_glyph (x y : Z) (bm : list Z) (colour : Z) (fb : list Z) : list Z :=
  for_int 8 (fun row fb =>
    let bits := aget bm row in
    for_int 8 (fun col fb =>
      if truthy (Z.land bits (Z.shiftl 1 (7 - col)))
      then plot fb (wrap_int (x + col)) (wrap_int (y + row)) colour
      else fb) fb) fb.

(** [draw_text] on the characters of [text] before its terminator; 32 is
    the space. *)
Fixpoint draw_text (x y : Z) (text : list Z) (colour : Z) (fb : list Z) : list Z :=
  match text with
  | [] => fb
  | c :: rest =>
      if c =? 32 then draw_text (wrap_int (x + 8)) y rest colour fb
      else
        let fb := match get_glyph_bitmap c with
                  | Some bm => draw_glyph x y bm colour fb
                  | None => fb
                  end in
        draw_text (wrap_int (x + 8)) y rest colour fb
  end.

(** The two digit loops of [draw_scoreboard] differ in the column [dx] of
    digit [i] only:
    [digit = n % 10; n /= 10; draw_digit(dx, 32, digit, HUD_TEXT_COLOUR)]. *)
Definition draw_number (dx : Z -> Z) (n : Z) (fb : list Z) : list Z :=
  snd (for_int 5 (fun i st =>
         let digit := Z.rem (fst st) 10 in
         (Z.quot (fst st) 10, draw_digit (dx i) 32 digit HUD_TEXT_COLOUR (snd st)))
       (n, fb)).

Definition label_score : list Z := [83; 67; 79; 82; 69] (* SCORE *).
Definition label_hi : list Z := [72; 73] (* HI *).

(** The diamond and the bolt of the HUD, each 12 x 12 at [icon_x]. *)
Definition draw_phase_icon (icon_x icon_y : Z) (fb : list Z) : list Z :=
  for_int 12 (fun y fb =>
    for_int 12 (fun x fb =>
      let dx := Z.abs (x - 6) in
      let dy := Z.abs (y - 6) in
      if dx + dy <? 6
      then plot fb (wrap_int (icon_x + x)) (wrap_int (icon_y + y)) PHASE_COLOUR
      else fb) fb) fb.

Definition draw_speed_icon (icon_x icon_y : Z) (fb : list Z) : list Z :=
  for_int 12 (fun y fb =>
    for_int 12 (fun x fb =>
      let fill := if (y <? 4) && (x >? 6) then true
                  else if (y >=? 4) && (y <? 8) && (x <? 6) then true
                  else if (y >=? 8) && (x >? 6) then true
                  else false in
      if fill
      then plot fb (wrap_int (icon_x + x)) (wrap_int (icon_y + y)) SPEED_COLOUR
      else fb) fb) fb.

Definition draw_scoreboard (g : game) (fb : list Z) : list Z :=
  let base_y := 16 in
  let label_x := 8 in
  let fb := draw_text label_x base_y label_score HUD_TEXT_COLOUR fb in
  let fb := draw_number (fun i => 8 + (4 - i) * 24) (score g) fb in
  let fb := draw_text (FB_WIDTH - 8 - 2 * 8 - 5 * 24 - 4) base_y label_hi
              HUD_TEXT_COLOUR fb in
  let fb := draw_number (fun i => FB_WIDTH - 8 - (i + 1) * 24) (highscore g) fb in
  let icon_y := 8 in
  let icon_x := Z.quot FB_WIDTH 2 - 32 in
  let fb := if phase_timer g >? 0 then draw_phase_icon icon_x icon_y fb else fb in
  let icon_x := if phase_timer g >? 0 then icon_x + 16 else icon_x in
  if speed_timer g >? 0 then draw_speed_icon icon_x icon_y fb else fb.

(** ** Vocabulary of the renderer *)

Definition screen_size : nat := Z.to_nat (FB_WIDTH * FB_HEIGHT).

Definition on_screen (u v : Z) : Prop := 0 <= u < FB_WIDTH /\ 0 <= v < FB_HEIGHT.

Definition pixel (fb : list Z) (u v : Z) : Z := aget fb (v * FB_WIDTH + u).

(** Coordinates far from the ends of [int]. *)
Definition modest (z : Z) : Prop := - 2 ^ 20 <= z <= 2 ^ 20.

Definition in_rect (x y w h u v : Z) : bool :=
  (x <=? u) && (u <? x + w) && (y <=? v) && (v <? y + h).

(** [fb'] is [fb] with the pixels selected by [s] set to [colour]. *)
Definition paints (s : Z -> Z -> bool) (colour : Z) (fb fb' : list Z) : Prop :=
  length fb' = length fb
  /\ forall u v, on_screen u v ->
       pixel fb' u v = if s u v then colour else pixel fb u v.

(** [fb'] is [fb] except, possibly, on pixels selected by [s]. *)
Definition confined (s : Z -> Z -> bool) (fb fb' : list Z) : Prop :=
  length fb' = length fb
  /\ forall u v, on_screen u v -> s u v = false -> pixel fb' u v = pixel fb u v.

(** Digit [i] of [n], counted from the least significant, as the digit
    loops compute it. *)
Definition decimal_digit (n i : Z) : Z := Z.rem (Z.quot n (10 ^ i)) 10.

(** The pixels of one segment, lit when its bit is set in the mask, and of
    a whole digit at [(x, y)]. *)
Definition segment_lit (mask bit x y w h u v : Z) : bool :=
  truthy (Z.land mask bit) && in_rect x y w h u v.

Definition digit_shape (mask x y u v : Z) : bool :=
  segment_lit mask 64 (x + 4) y 12 4 u v
  || segment_lit mask 32 (x + 16) (y + 4) 4 14 u v
  || segment_lit mask 16 (x + 16) (y + 18) 4 14 u v
  || segment_lit mask 8 (x + 4) (y + 32) 12 4 u v
  || segment_lit mask 4 x (y + 18) 4 14 u v
  || segment_lit mask 2 x (y + 4) 4 14 u v
  || segment_lit mask 1 (x + 4) (y + 16) 12 4 u v.

(** ** Sample frame buffers *)

Definition blank_screen : list Z := replicate screen_size 0.

(** What every entry of the font table satisfies: a capital letter or a
    digit, eight rows, no row using the leftmost column, an empty last row. *)
Definition glyph_ok (gl : Z * list Z) : bool :=
  (((65 <=? fst gl) && (fst gl <=? 90)) || ((48 <=? fst gl) && (fst gl <=? 57)))
  && (length (snd gl) =? 8)%nat
  && forallb (fun row => (0 <=? row) && (row <? 128)) (snd gl)
  && (aget (snd gl) 7 =? 0).

(** * Properties *)

(** ** Basic facts *)

Lemma wrap_int_id (z : Z) : is_int z -> wrap_int z = z.
Proof.
  unfold is_int, wrap_int, INT_MIN, INT_MAX. intros H.
  rewrite Z.mod_small; lia.
Qed.

Lemma wrap_int_is_int (z : Z) : is_int (wrap_int z).
Proof.
  unfold is_int, wrap_int, INT_MIN, INT_MAX.
  pose proof (Z.mod_pos_bound (z + 2 ^ 31) (2 ^ 32)). lia.
Qed.

Lemma truthy_true (z : Z) : truthy z = true <-> z <> 0.
Proof. unfold truthy. destruct (Z.eqb_spec z 0); simpl; split; intros; congruence. Qed.

Lemma truthy_false (z : Z) : truthy z = false <-> z = 0.
Proof. unfold truthy. destruct (Z.eqb_spec z 0); simpl; split; intros; congruence. Qed.

Lemma bind_Some {A B} (m : Rand A) (k : A -> Rand B) ds r :
  bind m k ds = Some r -> exists a ds1, m ds = Some (a, ds1) /\ k a ds1 = Some r.
Proof.
  unfold bind. destruct (m ds) as [[a ds1]|]; [|discriminate].
  intros H. exists a, ds1. split; [reflexivity | exact H].
Qed.

Lemma ret_Some {A} (a : A) ds r : ret a ds = Some r -> r = (a, ds).
Proof. unfold ret. congruence. Qed.

(** Decompose a successful run of a computation in [Rand]. *)
Ltac rand_inv :=
  repeat match goal with
    | H : bind _ _ _ = Some _ |- _ =>
        let a := fresh "a" in let ds := fresh "ds" in
        let H1 := fresh "Hrun" in let H2 := fresh "Hk" in
        apply bind_Some in H; destruct H as (a & ds & H1 & H2)
    | H : ret _ _ = Some _ |- _ => apply ret_Some in H; inversion H; subst; clear H
    end.

(** ** Occupancy *)

Lemma snake_occupies_spec (g : game) (x y : Z) :
  snake_occupies g x y = true <-> on_snake g x y.
Proof.
  unfold snake_occupies, on_snake, snake_cell. rewrite existsb_exists. split.
  - intros (i & Hin & Heq). apply in_seq in Hin.
    apply andb_true_iff in Heq as [Hx Hy].
    apply Z.eqb_eq in Hx. apply Z.eqb_eq in Hy.
    exists (Z.of_nat i). split; [lia | congruence].
  - intros (i & Hi & Heq). inversion Heq; subst.
    exists (Z.to_nat i). split.
    + apply in_seq. lia.
    + rewrite Z2Nat.id by lia. rewrite !Z.eqb_refl. reflexivity.
Qed.

Lemma item_occupies_spec (g : game) (x y : Z) :
  item_occupies g x y = true <-> on_item g x y.
Proof.
  unfold item_occupies, on_item.
  rewrite !andb_true_iff, negb_true_iff, bool_decide_eq_false, !Z.eqb_eq.
  tauto.
Qed.

Lemma check_obstacle_collision_spec (g : game) (x y : Z) :
  check_obstacle_collision g x y = true <-> on_obstacle g x y.
Proof.
  unfold check_obstacle_collision, on_obstacle, in_grid.
  rewrite !andb_true_iff, truthy_true, !Z.leb_le, !Z.ltb_lt. tauto.
Qed.

Lemma out_of_grid_spec (x y : Z) : out_of_grid x y = true <-> ~ in_grid x y.
Proof.
  unfold out_of_grid, in_grid.
  rewrite !orb_true_iff, !Z.ltb_lt, !Z.geb_le. lia.
Qed.

Lemma rem_range (d : nat) (m : Z) : 0 < m -> 0 <= Z.rem (Z.of_nat d) m < m.
Proof. intros Hm. apply Z.rem_bound_pos; lia. Qed.

(** ** Random free-cell selection *)

Lemma random_free_cell_inv (g : game) (ds : list nat) x y ds' :
  random_free_cell g ds = Some ((x, y), ds') ->
  cell_collides g x y = false /\ in_grid x y /\ (length ds' < length ds)%nat.
Proof.
  assert (Haux : forall n ds, (length ds <= n)%nat ->
            random_free_cell g ds = Some ((x, y), ds') ->
            cell_collides g x y = false /\ in_grid x y
            /\ (length ds' < length ds)%nat).
  { clear ds. induction n as [|n IH]; intros ds Hle H.
    - destruct ds; [discriminate | simpl in Hle; lia].
    - destruct ds as [|rx [|ry ds2]]; simpl in H; try discriminate.
      simpl in Hle.
      destruct (cell_collides g (Z.rem (Z.of_nat rx) GRID_W)
                  (Z.rem (Z.of_nat ry) GRID_H)) eqn:Hc.
      + apply IH in H; [|lia]. simpl. intuition lia.
      + inversion H; subst. split; [exact Hc|]. split; [|simpl; lia].
        unfold in_grid. split; apply rem_range; reflexivity. }
  apply (Haux (length ds)). lia.
Qed.

Lemma cell_collides_false (g : game) (x y : Z) :
  in_grid x y -> cell_collides g x y = false -> cell_free g x y.
Proof.
  unfold cell_collides, cell_free. intros Hg H.
  apply orb_false_iff in H as [H Hi]. apply orb_false_iff in H as [Hs Ho].
  repeat split.
  - rewrite <- snake_occupies_spec. congruence.
  - unfold on_obstacle. apply truthy_false in Ho. tauto.
  - rewrite <- item_occupies_spec. congruence.
Qed.

(** A first pair of draws that designates a free cell ends the loop. *)
Lemma random_free_cell_first (g : game) (rx ry : nat) (ds : list nat) :
  cell_collides g (Z.rem (Z.of_nat rx) GRID_W) (Z.rem (Z.of_nat ry) GRID_H) = false ->
  random_free_cell g (rx :: ry :: ds)
  = Some ((Z.rem (Z.of_nat rx) GRID_W, Z.rem (Z.of_nat ry) GRID_H), ds).
Proof. intros H. simpl. rewrite H. reflexivity. Qed.

(** ** Frames of the spawn helpers *)

Lemma game_eta (g : game) :
  g = mkGame (snake_x g) (snake_y g) (snake_length g) (snake_dir g) (pending_dir g)
        (food_x g) (food_y g) (item_type g) (item_x g) (item_y g) (phase_timer g)
        (speed_timer g) (particles g) (obstacle g) (obstacle_count g) (score g)
        (highscore g) (state g) (move_counter g) (frame_count g) (prev_start g)
        (prev_select g).
Proof. destruct g; reflexivity. Qed.

Lemma spawn_food_inv (g : game) ds g' ds' :
  spawn_food g ds = Some (g', ds') ->
  exists x y, random_free_cell g ds = Some ((x, y), ds')
              /\ g' = set_food_y y (set_food_x x g).
Proof.
  unfold spawn_food. intros H. rand_inv.
  destruct a as [x y]. exists x, y. split; [assumption | reflexivity].
Qed.

Section Frames.

Variable gate : Z -> bool.

Lemma spawn_item_cases (g : game) ds g' ds' :
  spawn_item gate g ds = Some (g', ds') ->
  g' = g
  \/ (item_type g = ITEM_NONE
      /\ exists t x y dsr, t <> ITEM_NONE
           /\ random_free_cell (set_item_type t g) dsr = Some ((x, y), ds')
           /\ g' = set_item_y y (set_item_x x (set_item_type t g))).
Proof.
  unfold spawn_item. destruct (bool_decide (item_type g = ITEM_NONE)) eqn:Hn; simpl.
  - apply bool_decide_eq_true in Hn. intros H. rand_inv.
    destruct (gate a).
    + rand_inv. left; reflexivity.
    + rand_inv. destruct a1 as [x y]. right. split; [exact Hn|].
      exists (if truthy (Z.rem a0 2) then ITEM_PHASE else ITEM_SPEED), x, y, ds1.
      split; [destruct (truthy _); discriminate|].
      split; [assumption | reflexivity].
  - intros H. rand_inv. left; reflexivity.
Qed.

Lemma spawn_item_inv (g : game) ds g' ds' :
  spawn_item gate g ds = Some (g', ds') ->
  exists t x y, g' = set_item_y y (set_item_x x (set_item_type t g)).
Proof.
  intros H. apply spawn_item_cases in H as [-> | (_ & t & x & y & _ & _ & _ & ->)].
  - exists (item_type g), (item_x g), (item_y g). apply game_eta.
  - exists t, x, y. reflexivity.
Qed.

Lemma spawn_particles_inv (g : game) ds g' ds' :
  spawn_particles g ds = Some (g', ds') -> exists ps, g' = set_particles ps g.
Proof. unfold spawn_particles. intros H. rand_inv. eexists; reflexivity. Qed.

Lemma eat_food_inv (g : game) ds g' ds' :
  eat_food gate g ds = Some (g', ds') ->
  exists ps fx fy t ix iy,
    let g1 := set_particles ps (add_score (grow g)) in
    cell_free g1 fx fy /\ in_grid fx fy
    /\ g' = set_item_y iy (set_item_x ix (set_item_type t
              (set_food_y fy (set_food_x fx g1)))).
Proof.
  unfold eat_food. intros H. rand_inv.
  apply spawn_particles_inv in Hrun as [ps ->].
  apply spawn_food_inv in Hrun0 as (fx & fy & Hc & ->).
  apply spawn_item_inv in Hk0 as (t & ix & iy & ->).
  apply random_free_cell_inv in Hc as (Hc & Hg & _).
  exists ps, fx, fy, t, ix, iy. simpl.
  split; [apply cell_collides_false; assumption|]. split; [assumption | reflexivity].
Qed.

Lemma take_item_inv (g : game) ds g' ds' :
  take_item g ds = Some (g', ds') ->
  exists ps, g' = set_item_type ITEM_NONE (set_particles ps (start_effect g)).
Proof.
  unfold take_item. intros H. rand_inv.
  apply spawn_particles_inv in Hrun as [ps ->]. exists ps. reflexivity.
Qed.

(** ** The two outcomes of a tick *)

Lemma update_snake_fatal (g : game) ds :
  fatalb g = true ->
  update_snake gate g ds = Some (set_state STATE_GAMEOVER (turned g), ds).
Proof.
  unfold fatalb, update_snake, turned. cbv zeta.
  set (g1 := set_snake_dir (pending_dir g) g).
  change (phase_timer g1) with (phase_timer g).
  intros H. apply orb_true_iff in H as [H | H].
  - apply orb_true_iff in H as [H | H].
    + rewrite H. reflexivity.
    + destruct (_ && out_of_grid _ _); [reflexivity|]. rewrite H. reflexivity.
  - destruct (_ && out_of_grid _ _); [reflexivity|].
    destruct (_ && snake_occupies _ _ _); [reflexivity|]. rewrite H. reflexivity.
Qed.

Lemma update_snake_commit (g : game) ds :
  fatalb g = false -> update_snake gate g ds = after_commit gate g ds.
Proof.
  unfold fatalb, update_snake, after_commit, tick_candidate, turned. cbv zeta.
  set (g1 := set_snake_dir (pending_dir g) g).
  change (phase_timer g1) with (phase_timer g).
  intros H. apply orb_false_iff in H as [H H3]. apply orb_false_iff in H as [H1 H2].
  rewrite H1, H2, H3. reflexivity.
Qed.

Lemma fatalb_spec (g : game) : fatalb g = true <-> fatal_collision g.
Proof.
  unfold fatalb, fatal_collision, tick_candidate. cbv zeta.
  rewrite !orb_true_iff, !andb_true_iff, !Z.leb_le.
  rewrite out_of_grid_spec, snake_occupies_spec, check_obstacle_collision_spec.
  assert (Hc : phase_timer g <= 0 -> candidate (turned g) = step_head (turned g)).
  { intros Hp. unfold candidate. change (phase_timer (turned g)) with (phase_timer g).
    destruct (Z.gtb_spec (phase_timer g) 0); [lia | reflexivity]. }
  change (on_snake (turned g)) with (on_snake g).
  change (on_obstacle (turned g)) with (on_obstacle g).
  split.
  - intros [[[Hp H] | H] | H]; [left | right; left | right; right]; try assumption.
    rewrite Hc by assumption. tauto.
  - intros [[Hp H] | [H | H]]; [left; left | left; right | right]; try assumption.
    rewrite <- Hc by assumption. tauto.
Qed.

End Frames.

(** ** Fatal collisions *)

(** C5. A tick whose candidate head cell collides fatally (outside the grid
    or on a body cell while the phase timer is not positive, or on an obstacle
    cell whatever the phase timer) returns with the state set to GameOver and
    the pending direction applied, and with every other global as it was:
    body cells, length, score, high score, food, item and both timers. *)
Theorem fatal_collision_only_ends_game (gate : Z -> bool) (g : game) (ds : list nat) :
  fatal_collision g ->
  exists g',
    update_snake gate g ds = Some (g', ds)
    /\ g' = set_state STATE_GAMEOVER (set_snake_dir (pending_dir g) g)
    /\ state g' = STATE_GAMEOVER
    /\ snake_dir g' = pending_dir g
    /\ snake_x g' = snake_x g /\ snake_y g' = snake_y g
    /\ snake_length g' = snake_length g
    /\ score g' = score g /\ highscore g' = highscore g
    /\ food_x g' = food_x g /\ food_y g' = food_y g
    /\ item_type g' = item_type g /\ item_x g' = item_x g /\ item_y g' = item_y g
    /\ phase_timer g' = phase_timer g /\ speed_timer g' = speed_timer g.
Proof.
  intros Hf. apply fatalb_spec in Hf.
  exists (set_state STATE_GAMEOVER (turned g)).
  split; [apply update_snake_fatal; exact Hf|].
  repeat split.
Qed.

(** ** Free cells *)

(** C6. Whenever random free-cell selection returns, its cell is inside the
    grid and carries no snake segment, no obstacle and not the active item of
    the state it was invoked in; so does the food cell [spawn_food] stores,
    and the item cell [spawn_item] stores when it spawns an item (invoked
    there with the new item variant already set). *)
Theorem random_free_cell_is_free (gate : Z -> bool) (g : game) :
  (forall ds x y ds',
      random_free_cell g ds = Some ((x, y), ds') ->
      in_grid x y /\ cell_free g x y)
  /\ (forall ds g' ds',
      spawn_food g ds = Some (g', ds') ->
      cell_free g (food_x g') (food_y g'))
  /\ (forall ds g' ds',
      spawn_item gate g ds = Some (g', ds') ->
      g' <> g ->
      cell_free (set_item_type (item_type g') g) (item_x g') (item_y g')).
Proof.
  assert (H1 : forall ds x y ds',
             random_free_cell g ds = Some ((x, y), ds') ->
             in_grid x y /\ cell_free g x y).
  { intros ds x y ds' H. apply random_free_cell_inv in H as (Hc & Hg & _).
    split; [exact Hg | apply cell_collides_false; assumption]. }
  split; [exact H1|]. split.
  - intros ds g' ds' H. apply spawn_food_inv in H as (x & y & Hc & ->).
    apply H1 in Hc as [_ Hc]. exact Hc.
  - intros ds g' ds' H Hne.
    apply spawn_item_cases in H as [-> | (_ & t & x & y & dsr & _ & Hc & ->)].
    + congruence.
    + apply random_free_cell_inv in Hc as (Hc & Hg & _). simpl.
      apply cell_collides_false; assumption.
Qed.

(** ** Frames of reset, input handling and the tick *)

Lemma obstacles_only_refl (g : game) : obstacles_only g g.
Proof. exists (obstacle g), (obstacle_count g). apply game_eta. Qed.

Lemma obstacles_only_trans (g1 g2 g3 : game) :
  obstacles_only g1 g2 -> obstacles_only g2 g3 -> obstacles_only g1 g3.
Proof. intros (o & c & ->) (o' & c' & ->). exists o', c'. reflexivity. Qed.

Lemma obstacles_only_set_at (g : game) x y v : obstacles_only g (set_obstacle_at x y v g).
Proof.
  exists (aset (obstacle g) (obstacle_index x y) v), (obstacle_count g).
  unfold set_obstacle_at. rewrite (game_eta g) at 1. reflexivity.
Qed.

Lemma obstacles_only_set_count (g : game) c : obstacles_only g (set_obstacle_count c g).
Proof. exists (obstacle g), c. rewrite (game_eta g) at 1. reflexivity. Qed.

Lemma obstacles_only_fold (f : game -> nat -> game) (l : list nat) (g : game) :
  (forall g n, obstacles_only g (f g n)) -> obstacles_only g (fold_left f l g).
Proof.
  intros Hf. revert g. induction l as [|n l IH]; intros g; simpl.
  - apply obstacles_only_refl.
  - eapply obstacles_only_trans; [apply Hf | apply IH].
Qed.

Lemma place_obstacles_frame (n : nat) (g : game) ds g' ds' :
  place_obstacles n g ds = Some (g', ds') -> obstacles_only g g'.
Proof.
  revert g ds. induction n as [|n IH]; intros g ds H; simpl in H.
  - rand_inv. apply obstacles_only_refl.
  - rand_inv. apply IH in Hk.
    eapply obstacles_only_trans; [|exact Hk].
    eapply obstacles_only_trans;
      [apply obstacles_only_set_at | apply obstacles_only_set_count].
Qed.

Lemma spawn_obstacles_frame (g : game) ds g' ds' :
  spawn_obstacles g ds = Some (g', ds') -> obstacles_only g g'.
Proof.
  unfold spawn_obstacles. intros H. apply place_obstacles_frame in H.
  eapply obstacles_only_trans; [|exact H].
  eapply obstacles_only_trans; [|apply obstacles_only_set_count].
  eapply obstacles_only_trans; apply obstacles_only_fold; intros g0 n.
  - eapply obstacles_only_trans; apply obstacles_only_set_at.
  - eapply obstacles_only_trans; apply obstacles_only_set_at.
Qed.

Lemma game_reset_inv (g : game) ds g' ds' :
  game_reset g ds = Some (g', ds') ->
  exists fx fy o c,
    cell_free (reset_globals g) fx fy
    /\ g' = set_obstacle_count c (set_obstacle o
              (set_food_y fy (set_food_x fx (reset_globals g)))).
Proof.
  unfold game_reset. intros H. rand_inv.
  apply spawn_food_inv in Hrun as (fx & fy & Hc & ->).
  apply spawn_obstacles_frame in Hk as (o & c & ->).
  apply random_free_cell_inv in Hc as (Hc & Hg & _).
  exists fx, fy, o, c. split; [apply cell_collides_false; assumption | reflexivity].
Qed.

Ltac field_simpl :=
  unfold start_effect, add_score, grow, commit_move, turned, press_select in *;
  simpl; repeat (case_match; simpl).

Lemma game_reset_dirs (g : game) ds g' ds' :
  game_reset g ds = Some (g', ds') ->
  snake_dir g' = DIR_RIGHT /\ pending_dir g' = DIR_RIGHT.
Proof.
  intros H. apply game_reset_inv in H as (fx & fy & o & c & _ & ->). simpl. tauto.
Qed.

Lemma turn_spec (i : input) (g : game) :
  snake_dir (turn i g) = snake_dir g
  /\ (pending_dir (turn i g) = pending_dir g
      \/ (requested i (pending_dir (turn i g))
          /\ snake_dir g <> reverse (pending_dir (turn i g))
          /\ pending_dir g <> reverse (pending_dir (turn i g)))).
Proof.
  unfold turn.
  repeat match goal with
    | |- context [if ?b && _ then _ else _] =>
        let E := fresh "E" in
        destruct (_ && _) eqn:E in |- *;
        [ apply andb_true_iff in E as [?%truthy_true E];
          apply andb_true_iff in E as [?%negb_true_iff%bool_decide_eq_false
                                       ?%negb_true_iff%bool_decide_eq_false];
          simpl; split; [reflexivity | right; simpl; repeat split; assumption]
        | clear E ]
    end.
  split; [reflexivity | left; reflexivity].
Qed.

(** The state [handle_input] hands to the turning rule. *)
Lemma handle_input_inv (i : input) (g : game) ds g' ds' :
  handle_input i g ds = Some (g', ds') ->
  exists g1,
    (if truthy (in_start i) && negb (truthy (prev_start g))
     then press_start g ds = Some (g1, ds')
     else g1 = g /\ ds' = ds)
    /\ let g2 := set_prev_start (in_start i) g1 in
       let g3 := if truthy (in_select i) && negb (truthy (prev_select g2))
                 then press_select g2 else g2 in
       let g4 := set_prev_select (in_select i) g3 in
       g' = if bool_decide (state g4 = STATE_PLAY) then turn i g4 else g4.
Proof.
  unfold handle_input. intros H. rand_inv. exists a. split; [|reflexivity].
  destruct (_ && _); [exact Hrun | rand_inv; tauto].
Qed.

Lemma press_start_dirs (g : game) ds g' ds' :
  press_start g ds = Some (g', ds') ->
  let r := bool_decide (state g = STATE_TITLE) || bool_decide (state g = STATE_GAMEOVER) in
  snake_dir g' = (if r then DIR_RIGHT else snake_dir g)
  /\ pending_dir g' = (if r then DIR_RIGHT else pending_dir g).
Proof.
  unfold press_start. intros H.
  destruct (state g) eqn:Hs; simpl; rand_inv; simpl; try tauto;
    apply game_reset_dirs in H; exact H.
Qed.

Lemma handle_input_dirs (i : input) (g : game) ds g' ds' :
  handle_input i g ds = Some (g', ds') ->
  let cur := if restarts i g then DIR_RIGHT else snake_dir g in
  let buf := if restarts i g then DIR_RIGHT else pending_dir g in
  snake_dir g' = cur
  /\ (pending_dir g' = buf
      \/ (requested i (pending_dir g')
          /\ cur <> reverse (pending_dir g') /\ buf <> reverse (pending_dir g'))).
Proof.
  intros H. apply handle_input_inv in H as (g1 & Hstart & Hg'). cbv zeta in Hg'.
  assert (Hd : snake_dir g1 = (if restarts i g then DIR_RIGHT else snake_dir g)
               /\ pending_dir g1 = (if restarts i g then DIR_RIGHT else pending_dir g)).
  { unfold restarts. destruct (_ && negb _).
    - apply press_start_dirs in Hstart. exact Hstart.
    - destruct Hstart as [-> _]. simpl. tauto. }
  destruct Hd as [Hd1 Hd2]. cbv zeta. rewrite <- Hd1, <- Hd2.
  set (g4 := set_prev_select _ _) in Hg'.
  assert (H4 : snake_dir g4 = snake_dir g1 /\ pending_dir g4 = pending_dir g1).
  { unfold g4. field_simpl; tauto. }
  destruct H4 as [<- <-]. subst g'.
  destruct (bool_decide _); [apply turn_spec | tauto].
Qed.

Section Ticks.

Variable gate : Z -> bool.

Lemma after_commit_inv (g : game) ds g' ds' :
  after_commit gate g ds = Some (g', ds') ->
  let c := tick_candidate g in
  let g2 := commit_move (fst c) (snd c) (turned g) in
  exists g3,
    ((c <> (food_x g, food_y g) /\ g3 = g2)
     \/ (c = (food_x g, food_y g)
         /\ exists ps fx fy t ix iy,
              let g1 := set_particles ps (add_score (grow g2)) in
              cell_free g1 fx fy /\ in_grid fx fy
              /\ g3 = set_item_y iy (set_item_x ix (set_item_type t
                        (set_food_y fy (set_food_x fx g1))))))
    /\ (g' = g3
        \/ (on_item g3 (fst c) (snd c)
            /\ exists ps, g' = set_item_type ITEM_NONE (set_particles ps (start_effect g3)))).
Proof.
  unfold after_commit. cbv zeta. intros H. rand_inv. exists a. split.
  - destruct (_ && _) eqn:Hfood in Hrun.
    + right. apply andb_true_iff in Hfood as [Hx Hy].
      apply Z.eqb_eq in Hx. apply Z.eqb_eq in Hy. simpl in Hx, Hy.
      split; [destruct (tick_candidate g); simpl in *; congruence|].
      apply eat_food_inv in Hrun. exact Hrun.
    + rand_inv. left. split; [|reflexivity].
      apply andb_false_iff in Hfood. simpl in Hfood.
      rewrite !Z.eqb_neq in Hfood. intros E. rewrite E in Hfood. simpl in Hfood. tauto.
  - destruct (item_occupies _ _ _) eqn:Hitem in Hk.
    + right. split; [apply item_occupies_spec; exact Hitem|].
      apply take_item_inv in Hk. exact Hk.
    + rand_inv. left; reflexivity.
Qed.

Lemma update_snake_dirs (g : game) ds g' ds' :
  update_snake gate g ds = Some (g', ds') ->
  snake_dir g' = pending_dir g /\ pending_dir g' = pending_dir g.
Proof.
  intros H. destruct (fatalb g) eqn:Hf.
  - rewrite update_snake_fatal in H by assumption. inversion H; subst. simpl. tauto.
  - rewrite update_snake_commit in H by assumption.
    apply after_commit_inv in H. cbv zeta in H.
    destruct H as (g3 & [[_ ->] | (_ & ps & fx & fy & t & ix & iy & _ & _ & ->)] & Hg');
      destruct Hg' as [-> | (_ & ps' & ->)]; field_simpl; tauto.
Qed.

End Ticks.

Lemma handle_input_no_reversal (i : input) (g : game) ds g' ds' :
  handle_input i g ds = Some (g', ds') -> no_reversal g -> no_reversal g'.
Proof.
  intros H Hinv. apply handle_input_dirs in H. cbv zeta in H.
  unfold no_reversal in *. destruct H as [Hc [Hp | (_ & Hr & _)]].
  - rewrite Hc, Hp. destruct (restarts i g); [discriminate | exact Hinv].
  - rewrite Hc. intros E. apply Hr. rewrite E.
    destruct (if restarts i g then DIR_RIGHT else snake_dir g); reflexivity.
Qed.

Section FrameShapes.

Variable gate : Z -> bool.

Lemma play_frame_eq (g : game) :
  play_frame gate g
  = let g1 := frame_prelude g in
    let* g2 := if move_counter g1 <=? 0
               then let* g2 := update_snake gate g1 in
                    ret (set_move_counter (move_interval g1) g2)
               else ret g1 in
    ret (update_particles g2).
Proof. reflexivity. Qed.

Lemma play_frame_inv (g : game) ds g' ds' :
  play_frame gate g ds = Some (g', ds') ->
  let g1 := frame_prelude g in
  (~ tick_due g /\ g' = update_particles g1 /\ ds' = ds)
  \/ (tick_due g
      /\ exists g2, update_snake gate g1 ds = Some (g2, ds')
                    /\ g' = update_particles (set_move_counter (move_interval g1) g2)).
Proof.
  rewrite play_frame_eq. unfold tick_due. cbv zeta. intros H.
  destruct (Z.leb_spec (move_counter (frame_prelude g)) 0) as [Hle | Hgt]; rand_inv.
  - right. split; [exact Hle|]. eexists. split; [eassumption | reflexivity].
  - left. split; [lia | split; reflexivity].
Qed.

Lemma retro_run_inv (i : input) (g : game) ds g' ds' :
  retro_run gate i g ds = Some (g', ds') ->
  exists g1 ds1 g2,
    handle_input i g ds = Some (g1, ds1)
    /\ (if bool_decide (state g1 = STATE_PLAY)
        then play_frame gate g1 ds1 = Some (g2, ds')
        else g2 = g1 /\ ds' = ds1)
    /\ g' = set_frame_count (wrap_ulong (frame_count g2 + 1)) g2.
Proof.
  unfold retro_run. intros H.
  apply bind_Some in H as (g1 & ds1 & Hh & H).
  apply bind_Some in H as (g2 & ds2 & Hp & H).
  apply ret_Some in H. inversion H; subst.
  exists g1, ds1, g2. split; [assumption|]. split; [|reflexivity].
  destruct (bool_decide _); [assumption | rand_inv; tauto].
Qed.

Lemma play_frame_dirs (g : game) ds g' ds' :
  play_frame gate g ds = Some (g', ds') ->
  no_reversal g -> no_reversal g'.
Proof.
  intros H Hinv. apply play_frame_inv in H. cbv zeta in H.
  destruct H as [(_ & -> & _) | (_ & g2 & Hu & ->)].
  - exact Hinv.
  - apply update_snake_dirs in Hu as [H1 H2]. unfold no_reversal. simpl in *.
    rewrite H1, H2. destruct (pending_dir g); discriminate.
Qed.

End FrameShapes.

(** ** The buffered direction *)

(** X25. Apart from the loading of a save state, the pending direction is
    never the reverse of the current one: the property holds at program start,
    after every game reset and after every tick (which makes the two
    directions equal), and input handling and whole frames preserve it.  Input handling changes the buffered direction only to
    a requested direction whose reverse is neither the current nor the
    buffered direction; with the snake facing right, a frame that requests
    left alone leaves the buffered direction unchanged, so it stays right. *)
Theorem pending_never_reverses (gate : Z -> bool) :
  no_reversal init_game
  /\ (forall g ds g' ds', game_reset g ds = Some (g', ds') -> no_reversal g')
  /\ (forall g ds g' ds',
        update_snake gate g ds = Some (g', ds') ->
        snake_dir g' = pending_dir g /\ no_reversal g')
  /\ (forall i g ds g' ds',
        handle_input i g ds = Some (g', ds') ->
        (no_reversal g -> no_reversal g')
        /\ let cur := if restarts i g then DIR_RIGHT else snake_dir g in
           let buf := if restarts i g then DIR_RIGHT else pending_dir g in
           snake_dir g' = cur
           /\ (pending_dir g' = buf
               \/ (requested i (pending_dir g')
                   /\ cur <> reverse (pending_dir g')
                   /\ buf <> reverse (pending_dir g'))))
  /\ (forall i g ds g' ds',
        retro_run gate i g ds = Some (g', ds') -> no_reversal g -> no_reversal g')
  /\ (forall i g ds,
        state g = STATE_PLAY -> snake_dir g = DIR_RIGHT -> only_left i ->
        exists g', handle_input i g ds = Some (g', ds)
                   /\ snake_dir g' = DIR_RIGHT
                   /\ pending_dir g' = pending_dir g).
Proof.
  split; [unfold no_reversal; simpl; discriminate|].
  split.
  { intros g ds g' ds' H. apply game_reset_dirs in H as [H1 H2].
    unfold no_reversal. rewrite H1, H2. discriminate. }
  split.
  { intros g ds g' ds' H. apply update_snake_dirs in H as [H1 H2].
    split; [exact H1|]. unfold no_reversal. rewrite H1, H2.
    destruct (pending_dir g); discriminate. }
  split.
  { intros i g ds g' ds' H. split.
    - eapply handle_input_no_reversal; eassumption.
    - apply handle_input_dirs in H. exact H. }
  split.
  { intros i g ds g' ds' H Hinv.
    apply retro_run_inv in H as (g1 & ds1 & g2 & Hh & Hp & ->).
    apply handle_input_no_reversal in Hh; [|exact Hinv].
    destruct (bool_decide (state g1 = STATE_PLAY)).
    - apply (play_frame_dirs gate) in Hp; [exact Hp | exact Hh].
    - destruct Hp as [-> _]. exact Hh. }
  intros i g ds Hs Hd (Hl & Hu & Hdn & Hr & Hst & Hse).
  unfold handle_input, bind, ret, turn. simpl.
  rewrite Hst, Hse, Hu, Hdn, Hr. simpl. rewrite Hs. simpl. rewrite Hd. simpl.
  rewrite andb_false_r. eexists. split; [reflexivity|]. simpl. tauto.
Qed.

(** ** Byte encodings *)

Lemma length_encode_le (n : nat) (v : Z) : length (encode_le n v) = n.
Proof. revert v. induction n as [|n IH]; intros v; simpl; [|rewrite IH]; reflexivity. Qed.

Lemma decode_encode_le (n : nat) (v : Z) :
  decode_le (encode_le n v) = v mod 256 ^ Z.of_nat n.
Proof.
  revert v. induction n as [|n IH]; intros v.
  - simpl. rewrite Z.mod_1_r. reflexivity.
  - simpl encode_le. unfold decode_le in *. simpl fold_right. rewrite IH.
    rewrite Nat2Z.inj_succ, Z.pow_succ_r by lia.
    rewrite Z.rem_mul_r by lia. lia.
Qed.

Lemma int_of_int_bytes (v : Z) : is_int v -> int_of_bytes (int_bytes v) = v.
Proof.
  intros Hv. unfold int_of_bytes, int_bytes.
  rewrite decode_encode_le. unfold wrap_int, is_int, INT_MIN, INT_MAX, sizeof_int in *.
  change (256 ^ Z.of_nat (Z.to_nat 4)) with (2 ^ 32).
  rewrite Zplus_mod_idemp_l. rewrite Z.mod_small; lia.
Qed.

Lemma ulong_of_ulong_bytes (v : Z) : is_ulong v -> ulong_of_bytes (ulong_bytes v) = v.
Proof.
  intros Hv. unfold ulong_of_bytes, ulong_bytes.
  rewrite decode_encode_le. unfold is_ulong, ULONG_MAX, sizeof_unsigned_long in *.
  change (256 ^ Z.of_nat (Z.to_nat 8)) with (2 ^ 64).
  rewrite Z.mod_small; lia.
Qed.

Lemma direction_of_bytes (d : direction_t) :
  enum_of_bytes direction_of_int (int_bytes (int_of_direction d)) = inr d.
Proof. destruct d; reflexivity. Qed.

Lemma item_type_of_bytes (t : item_type_t) :
  enum_of_bytes item_type_of_int (int_bytes (int_of_item_type t)) = inr t.
Proof. destruct t; reflexivity. Qed.

Lemma game_state_of_bytes (s : game_state_t) :
  enum_of_bytes game_state_of_int (int_bytes (int_of_game_state s)) = inr s.
Proof. destruct s; reflexivity. Qed.

Lemma zlength_int_bytes (v : Z) : zlength (int_bytes v) = sizeof_int.
Proof. unfold zlength, int_bytes. rewrite length_encode_le. reflexivity. Qed.

Lemma zlength_ulong_bytes (v : Z) : zlength (ulong_bytes v) = sizeof_unsigned_long.
Proof. unfold zlength, ulong_bytes. rewrite length_encode_le. reflexivity. Qed.

Lemma length_flat_map_int_bytes (l : list Z) :
  length (flat_map int_bytes l) = (4 * length l)%nat.
Proof.
  induction l as [|v l IH]; [reflexivity|].
  change (flat_map int_bytes (v :: l)) with (int_bytes v ++ flat_map int_bytes l).
  rewrite length_app, IH. unfold int_bytes. rewrite length_encode_le.
  change (Z.to_nat sizeof_int) with 4%nat. simpl length. lia.
Qed.

Lemma length_array_cells (a : list Z) : length (array_cells a) = Z.to_nat MAX_SNAKE_LENGTH.
Proof. unfold array_cells. rewrite length_map, length_seq. reflexivity. Qed.

Lemma zlength_array_bytes (a : list Z) :
  zlength (array_bytes a) = sizeof_int * MAX_SNAKE_LENGTH.
Proof.
  unfold zlength, array_bytes. rewrite length_flat_map_int_bytes, length_array_cells.
  reflexivity.
Qed.

Lemma array_cells_id (a : list Z) :
  length a = Z.to_nat MAX_SNAKE_LENGTH -> array_cells a = a.
Proof.
  intros Hlen. unfold array_cells. rewrite <- Hlen. clear Hlen.
  apply list_eq. intros i. rewrite list_lookup_fmap.
  destruct (decide (i < length a)%nat) as [Hi | Hi].
  - rewrite lookup_seq_lt by exact Hi. simpl. unfold aget.
    destruct (Z.ltb_spec (Z.of_nat i) 0); [lia|]. rewrite Nat2Z.id.
    destruct (lookup_lt_is_Some_2 a i Hi) as [v Hv]. rewrite Hv. reflexivity.
  - rewrite lookup_seq_ge by lia. rewrite lookup_ge_None_2 by lia. reflexivity.
Qed.

Lemma ints_of_flat_map (l : list Z) (rest : list Z) :
  Forall is_int l -> ints_of_bytes (length l) (flat_map int_bytes l ++ rest) = l.
Proof.
  induction 1 as [|v l Hv Hl IH]; [reflexivity|].
  change (flat_map int_bytes (v :: l)) with (int_bytes v ++ flat_map int_bytes l).
  change (ints_of_bytes (length (v :: l)) ?bs)
    with (int_of_bytes (take (Z.to_nat sizeof_int) bs)
          :: ints_of_bytes (length l) (drop (Z.to_nat sizeof_int) bs)).
  rewrite <- app_assoc.
  assert (Hlen : length (int_bytes v) = Z.to_nat sizeof_int).
  { unfold int_bytes. apply length_encode_le. }
  rewrite <- Hlen. rewrite take_app_length, drop_app_length.
  rewrite int_of_int_bytes by exact Hv. rewrite IH. reflexivity.
Qed.

Lemma ints_of_array_bytes (a : list Z) :
  length a = Z.to_nat MAX_SNAKE_LENGTH -> Forall is_int a ->
  ints_of_bytes (Z.to_nat MAX_SNAKE_LENGTH) (array_bytes a) = a.
Proof.
  intros Hlen Hint. unfold array_bytes. rewrite array_cells_id by exact Hlen.
  rewrite <- Hlen. rewrite <- (app_nil_r (flat_map int_bytes a)).
  apply ints_of_flat_map. exact Hint.
Qed.

(** ** The serializer as one copy of the stream *)

Lemma zlength_app (l1 l2 : list Z) : zlength (l1 ++ l2) = zlength l1 + zlength l2.
Proof. unfold zlength. rewrite length_app. lia. Qed.

Lemma zlength_nonneg (l : list Z) : 0 <= zlength l.
Proof. unfold zlength. lia. Qed.

Lemma write_all_spec (chunks : list (list Z)) (c : cursor) :
  write_all chunks c
  = if zlength (concat chunks) <=? zlength (snd c)
    then inr (fst c ++ concat chunks, drop (length (concat chunks)) (snd c))
    else inl OutOfBounds.
Proof.
  revert c. induction chunks as [|src chunks IH]; intros [pre suf]; simpl.
  - rewrite app_nil_r, drop_0.
    pose proof (zlength_nonneg suf).
    destruct (Z.leb_spec (zlength []) (zlength suf)); [reflexivity|].
    unfold zlength in *. simpl in *. lia.
  - unfold memcpy_out. simpl. rewrite zlength_app.
    pose proof (zlength_nonneg (concat chunks)).
    destruct (Z.leb_spec (zlength src) (zlength suf)) as [Hs | Hs].
    + rewrite IH. simpl.
      assert (Hd : zlength (drop (length src) suf) = zlength suf - zlength src).
      { unfold zlength in *. rewrite length_drop. lia. }
      rewrite Hd.
      destruct (Z.leb_spec (zlength (concat chunks)) (zlength suf - zlength src));
        destruct (Z.leb_spec (zlength src + zlength (concat chunks)) (zlength suf));
        try lia; [|reflexivity].
      rewrite <- app_assoc, drop_drop, length_app. reflexivity.
    + destruct (Z.leb_spec (zlength src + zlength (concat chunks)) (zlength suf));
        [lia | reflexivity].
Qed.

Lemma retro_serialize_eq (g : game) (data : list Z) (size : Z) :
  retro_serialize g data size
  = if size <? retro_serialize_size then inr (false, data)
    else try c := write_all (serialize_chunks g) ([], data) in
         inr (true, fst c ++ snd c).
Proof.
  unfold retro_serialize, serialize_chunks. cbv zeta. cbn [write_all].
  destruct (size <? retro_serialize_size); [reflexivity|].
  repeat match goal with
    | |- context [memcpy_out ?s ?c] => destruct (memcpy_out s c); [reflexivity|]
    end.
  reflexivity.
Qed.

Lemma zlength_serialize_stream (g : game) : zlength (serialize_stream g) = serialized_length.
Proof.
  unfold serialize_stream, serialize_chunks. cbn [concat].
  rewrite !zlength_app, !zlength_array_bytes, !zlength_int_bytes, zlength_ulong_bytes.
  reflexivity.
Qed.

Lemma retro_serialize_spec (g : game) (data : list Z) (size : Z) :
  retro_serialize_size <= size ->
  retro_serialize g data size
  = if serialized_length <=? zlength data
    then inr (true, serialize_stream g ++ drop (Z.to_nat serialized_length) data)
    else inl OutOfBounds.
Proof.
  intros Hsize. rewrite retro_serialize_eq.
  destruct (Z.ltb_spec size retro_serialize_size); [lia|].
  rewrite write_all_spec. fold (serialize_stream g). cbn [fst snd].
  rewrite zlength_serialize_stream.
  destruct (serialized_length <=? zlength data); [|reflexivity].
  cbn [fst snd app].
  rewrite <- (zlength_serialize_stream g). unfold zlength. rewrite Nat2Z.id. reflexivity.
Qed.

(** ** Save states: size, guard and round trip *)

Lemma memcpy_in_app (bs pre suf : list Z) (n : Z) :
  n = zlength bs -> memcpy_in n (pre, bs ++ suf) = inr (bs, (pre ++ bs, suf)).
Proof.
  intros ->. unfold memcpy_in. cbn [fst snd]. rewrite zlength_app.
  pose proof (zlength_nonneg suf).
  destruct (Z.leb_spec (zlength bs) (zlength bs + zlength suf)); [|lia].
  unfold zlength. rewrite Nat2Z.id, take_app_length, drop_app_length. reflexivity.
Qed.

Ltac globals_simpl :=
  cbv beta iota delta [snake_x snake_y snake_length snake_dir pending_dir food_x food_y item_type
       item_x item_y phase_timer speed_timer particles obstacle obstacle_count score
       highscore state move_counter frame_count prev_start prev_select
       set_snake_x set_snake_y set_snake_length set_snake_dir set_pending_dir
       set_food_x set_food_y set_item_type set_item_x set_item_y set_phase_timer
       set_speed_timer set_particles set_obstacle set_obstacle_count set_score
       set_highscore set_state set_move_counter set_frame_count set_prev_start
       set_prev_select].

(** What [retro_unserialize] reads back from the stream of [g]. *)
Lemma retro_unserialize_stream (g g0 : game) (rest : list Z) (size : Z) :
  retro_serialize_size <= size ->
  exists g',
    retro_unserialize g0 (serialize_stream g ++ rest) size = inr (true, g')
    /\ snake_x g' = ints_of_bytes (Z.to_nat MAX_SNAKE_LENGTH) (array_bytes (snake_x g))
    /\ snake_y g' = ints_of_bytes (Z.to_nat MAX_SNAKE_LENGTH) (array_bytes (snake_y g))
    /\ snake_length g' = int_of_bytes (int_bytes (snake_length g))
    /\ snake_dir g' = snake_dir g
    /\ food_x g' = int_of_bytes (int_bytes (food_x g))
    /\ food_y g' = int_of_bytes (int_bytes (food_y g))
    /\ item_type g' = item_type g
    /\ item_x g' = int_of_bytes (int_bytes (item_x g))
    /\ item_y g' = int_of_bytes (int_bytes (item_y g))
    /\ phase_timer g' = int_of_bytes (int_bytes (phase_timer g))
    /\ speed_timer g' = int_of_bytes (int_bytes (speed_timer g))
    /\ score g' = int_of_bytes (int_bytes (score g))
    /\ highscore g' = int_of_bytes (int_bytes (highscore g))
    /\ state g' = state g
    /\ move_counter g' = int_of_bytes (int_bytes (move_counter g))
    /\ frame_count g' = ulong_of_bytes (ulong_bytes (frame_count g))
    /\ pending_dir g' = pending_dir g0
    /\ particles g' = particles g0
    /\ obstacle g' = obstacle g0.
Proof.
  intros Hsize. unfold retro_unserialize. cbv zeta.
  destruct (Z.ltb_spec size retro_serialize_size); [lia|].
  unfold serialize_stream, serialize_chunks. cbn [concat]. rewrite <- !app_assoc.
  repeat match goal with
    | |- context [memcpy_in _ (_, array_bytes _ ++ _)] =>
        rewrite memcpy_in_app by (symmetry; apply zlength_array_bytes); cbn [fst snd]
    | |- context [memcpy_in _ (_, int_bytes _ ++ _)] =>
        rewrite memcpy_in_app by (symmetry; apply zlength_int_bytes); cbn [fst snd]
    | |- context [memcpy_in _ (_, ulong_bytes _ ++ _)] =>
        rewrite memcpy_in_app by (symmetry; apply zlength_ulong_bytes); cbn [fst snd]
    | |- context [enum_of_bytes direction_of_int (int_bytes _)] =>
        rewrite direction_of_bytes
    | |- context [enum_of_bytes item_type_of_int (int_bytes _)] =>
        rewrite item_type_of_bytes
    | |- context [enum_of_bytes game_state_of_int (int_bytes _)] =>
        rewrite game_state_of_bytes
    end.
  eexists. split; [reflexivity|]. globals_simpl. repeat split.
Qed.

Lemma retro_serialize_true (g : game) (data data' : list Z) (size : Z) :
  retro_serialize g data size = inr (true, data') ->
  retro_serialize_size <= size
  /\ data' = serialize_stream g ++ drop (Z.to_nat serialized_length) data.
Proof.
  intros Hs.
  assert (Hsize : retro_serialize_size <= size).
  { rewrite retro_serialize_eq in Hs.
    destruct (Z.ltb_spec size retro_serialize_size); [discriminate | lia]. }
  split; [exact Hsize|].
  rewrite retro_serialize_spec in Hs by exact Hsize.
  set (s := serialize_stream g ++ _) in *. clearbody s.
  destruct (serialized_length <=? zlength data); [|discriminate].
  congruence.
Qed.

(** C3. Round trip: whenever [retro_serialize] produces a blob from
    well-formed globals, [retro_unserialize] accepts that blob with the same
    size argument, whatever the globals it overwrites, and restores the snake
    coordinate arrays, length, direction, food cell, item variant and cell,
    both timers, score, high score, top-level state, move counter and frame
    counter of the serialized state. *)
Theorem save_state_round_trip (g g0 : game) (data data' : list Z) (size : Z) :
  wf_game g ->
  retro_serialize g data size = inr (true, data') ->
  exists g',
    retro_unserialize g0 data' size = inr (true, g')
    /\ snake_x g' = snake_x g /\ snake_y g' = snake_y g
    /\ snake_length g' = snake_length g
    /\ snake_dir g' = snake_dir g
    /\ food_x g' = food_x g /\ food_y g' = food_y g
    /\ item_type g' = item_type g /\ item_x g' = item_x g /\ item_y g' = item_y g
    /\ phase_timer g' = phase_timer g /\ speed_timer g' = speed_timer g
    /\ score g' = score g /\ highscore g' = highscore g
    /\ state g' = state g
    /\ move_counter g' = move_counter g
    /\ frame_count g' = frame_count g.
Proof.
  intros Hwf Hs.
  apply retro_serialize_true in Hs as [Hsize ->].
  destruct (retro_unserialize_stream g g0 (drop (Z.to_nat serialized_length) data)
              size Hsize) as (g' & Hu & H).
  exists g'. split; [exact Hu|].
  destruct Hwf as (Lx & Ly & Ix & Iy & I1 & I2 & I3 & I4 & I5 & I6 & I7 & I8 & I9 & I10 & I11).
  destruct H as (-> & -> & -> & -> & -> & -> & -> & -> & -> & -> & -> & -> & -> & ->
                 & -> & -> & _).
  rewrite !ints_of_array_bytes, !int_of_int_bytes, ulong_of_ulong_bytes by assumption.
  repeat split.
Qed.

(** C4. With a size argument below [retro_serialize_size ()] both routines
    return false at once: [retro_serialize] leaves every byte of the buffer
    as it was and [retro_unserialize] leaves every global as it was. *)
Theorem short_buffer_is_refused (g : game) (data : list Z) (size : Z) :
  size < retro_serialize_size ->
  retro_serialize g data size = inr (false, data)
  /\ retro_unserialize g data size = inr (false, g).
Proof.
  intros Hsize. unfold retro_serialize, retro_unserialize. cbv zeta.
  destruct (Z.ltb_spec size retro_serialize_size); [|lia].
  split; reflexivity.
Qed.

(** C1 (the source departs from it). [retro_serialize] copies
    [serialized_length] bytes, which is 28 more than [retro_serialize_size ()]
    reports: ten [int] globals and three enumerations follow the two arrays,
    where the size formula counts five and one.  On a buffer of exactly the
    reported size the copy of [speed_timer] already lies past the end. *)
Theorem serialize_overruns_reported_size (g : game) (data : list Z) :
  zlength data = retro_serialize_size ->
  retro_serialize g data retro_serialize_size = inl OutOfBounds
  /\ zlength (serialize_stream g) = retro_serialize_size + 28
  /\ zlength (concat (take 10 (serialize_chunks g))) = retro_serialize_size.
Proof.
  intros Hlen. split; [|split].
  - rewrite retro_serialize_spec by lia. rewrite Hlen. reflexivity.
  - rewrite zlength_serialize_stream. reflexivity.
  - unfold serialize_chunks. cbn [take concat].
    rewrite !zlength_app, !zlength_array_bytes, !zlength_int_bytes. reflexivity.
Qed.

(** Reading from a buffer of exactly the reported size. *)

Lemma memcpy_in_drop (data pre : list Z) (k n : Z) :
  0 <= k -> 0 <= n -> k + n <= zlength data ->
  memcpy_in n (pre, drop (Z.to_nat k) data)
  = inr (take (Z.to_nat n) (drop (Z.to_nat k) data),
         (pre ++ take (Z.to_nat n) (drop (Z.to_nat k) data),
          drop (Z.to_nat (k + n)) data)).
Proof.
  intros Hk Hn Hlen. unfold memcpy_in, zlength in *. cbn [fst snd].
  rewrite length_drop.
  destruct (Z.leb_spec n (Z.of_nat (length data - Z.to_nat k))); [|lia].
  rewrite drop_drop, Z2Nat.inj_add by lia. reflexivity.
Qed.

Lemma memcpy_in_drop_fault (data pre : list Z) (k n : Z) :
  0 <= k -> 0 < n -> zlength data < k + n ->
  memcpy_in n (pre, drop (Z.to_nat k) data) = inl OutOfBounds.
Proof.
  intros Hk Hn Hlen. unfold memcpy_in, zlength in *. cbn [fst snd].
  rewrite length_drop.
  destruct (Z.leb_spec n (Z.of_nat (length data - Z.to_nat k))); [lia | reflexivity].
Qed.

Ltac sizes :=
  unfold retro_serialize_size, sizeof_int, sizeof_direction_t, sizeof_item_type_t,
    sizeof_game_state_t, sizeof_unsigned_long, MAX_SNAKE_LENGTH, GRID_W, GRID_H in *;
  lia.

(** On a buffer of exactly [retro_serialize_size ()] bytes
    [retro_unserialize] cannot complete either: the read of [speed_timer]
    starts at the end of the buffer. *)
Lemma unserialize_overruns_reported_size (g : game) (data : list Z) :
  zlength data = retro_serialize_size ->
  exists e, retro_unserialize g data retro_serialize_size = inl e.
Proof.
  intros Hlen. unfold retro_unserialize. cbv zeta.
  destruct (Z.ltb_spec retro_serialize_size retro_serialize_size); [lia|].
  change (@nil Z, data) with (@nil Z, drop (Z.to_nat 0) data).
  repeat match goal with
    | |- context [memcpy_in ?n (?pre, drop (Z.to_nat ?k) data)] =>
        first [ rewrite (memcpy_in_drop data pre k n) by sizes
              | rewrite (memcpy_in_drop_fault data pre k n) by sizes ];
        cbn [fst snd]
    | |- context [enum_of_bytes ?f ?bs] =>
        destruct (enum_of_bytes f bs); [eexists; reflexivity|]
    end.
  eexists. reflexivity.
Qed.

(** ** Array accesses *)

Lemma length_aset (a : list Z) (i v : Z) : length (aset a i v) = length a.
Proof. unfold aset. destruct (i <? 0); [reflexivity | apply length_insert]. Qed.

Lemma aget_aset_eq (a : list Z) (i v : Z) :
  0 <= i < Z.of_nat (length a) -> aget (aset a i v) i = v.
Proof.
  intros Hi. unfold aget, aset. destruct (Z.ltb_spec i 0); [lia|].
  rewrite list_lookup_insert_eq by lia. reflexivity.
Qed.

Lemma aget_aset_ne (a : list Z) (i j v : Z) : i <> j -> aget (aset a i v) j = aget a j.
Proof.
  intros Hne. unfold aget, aset.
  destruct (Z.ltb_spec j 0); [reflexivity|].
  destruct (Z.ltb_spec i 0); [reflexivity|].
  rewrite list_lookup_insert_ne by lia. reflexivity.
Qed.

Lemma aget_aset_nonzero (a : list Z) (i j : Z) :
  aget a j <> 0 -> aget (aset a i 1) j <> 0.
Proof.
  intros H. destruct (decide (i = j)) as [-> | Hne].
  - destruct (decide (0 <= j < Z.of_nat (length a))) as [Hin | Hout].
    + rewrite aget_aset_eq by exact Hin. discriminate.
    + unfold aget, aset in *. destruct (Z.ltb_spec j 0); [exact H|].
      rewrite list_insert_ge by lia. exact H.
  - rewrite aget_aset_ne by exact Hne. exact H.
Qed.

Lemma length_shift_body (n : nat) (a : list Z) : length (shift_body n a) = length a.
Proof.
  revert a. induction n as [|n IH]; intros a; simpl; [reflexivity|].
  rewrite IH. apply length_aset.
Qed.

(** ** Eating *)

Section Eating.

Variable gate : Z -> bool.

Lemma commit_move_head (g : game) (x y : Z) :
  (0 < length (snake_x g))%nat -> (0 < length (snake_y g))%nat ->
  head_cell (commit_move x y g) = (x, y).
Proof.
  intros Hx Hy. unfold head_cell, snake_cell, commit_move. simpl.
  rewrite !aget_aset_eq by (rewrite length_shift_body; lia). reflexivity.
Qed.

Lemma grow_head (g : game) : 1 <= snake_length g -> head_cell (grow g) = head_cell g.
Proof.
  intros Hl. unfold grow, head_cell, snake_cell.
  destruct (snake_length g <? MAX_SNAKE_LENGTH); [|reflexivity].
  simpl. rewrite !aget_aset_ne by lia. reflexivity.
Qed.

Lemma grow_length (g : game) :
  snake_length (grow g)
  = if snake_length g <? MAX_SNAKE_LENGTH then snake_length g + 1 else snake_length g.
Proof. unfold grow. destruct (snake_length g <? MAX_SNAKE_LENGTH); reflexivity. Qed.

Lemma add_score_spec (g : game) :
  score (add_score g) = wrap_int (score g + 10)
  /\ highscore (add_score g) = Z.max (highscore g) (wrap_int (score g + 10)).
Proof.
  unfold add_score. simpl.
  destruct (Z.gtb_spec (wrap_int (score g + 10)) (highscore g)); simpl; lia.
Qed.

(** C7. A tick that commits its move onto the food cell, in a state whose
    snake has at least one segment and whose score can take the increment:
    the length grows by one unless it is already [MAX_SNAKE_LENGTH], where it
    stays; the score grows by 10; the high score becomes the larger of its old
    value and the new score; the head is on the old food cell and the
    relocated food cell differs from it. *)
Theorem food_contact (g : game) (ds : list nat) (g' : game) (ds' : list nat) :
  arrays_sized g ->
  1 <= snake_length g ->
  is_int (score g + 10) ->
  ~ fatal_collision g ->
  tick_candidate g = (food_x g, food_y g) ->
  update_snake gate g ds = Some (g', ds') ->
  snake_length g'
  = (if snake_length g <? MAX_SNAKE_LENGTH then snake_length g + 1 else snake_length g)
  /\ score g' = score g + 10
  /\ highscore g' = Z.max (highscore g) (score g + 10)
  /\ head_cell g' = (food_x g, food_y g)
  /\ (food_x g', food_y g') <> (food_x g, food_y g).
Proof.
  intros (Lx & Ly & _) Hlen Hscore Hnf Hfood H.
  assert (Hf : fatalb g = false).
  { destruct (fatalb g) eqn:E; [|reflexivity]. apply fatalb_spec in E. tauto. }
  rewrite update_snake_commit in H by exact Hf.
  apply after_commit_inv in H. cbv zeta in H.
  destruct H as (g3 & [[Hne _] | (_ & ps & fx & fy & t & ix & iy & Hfree & _ & ->)] & Hg');
    [congruence|].
  set (g2 := commit_move (tick_candidate g).1 (tick_candidate g).2 (turned g)) in *.
  assert (Hhead2 : head_cell (grow g2) = (food_x g, food_y g)).
  { rewrite grow_head by exact Hlen. unfold g2. rewrite commit_move_head.
    - rewrite Hfood. reflexivity.
    - simpl. rewrite Lx. unfold MAX_SNAKE_LENGTH, GRID_W, GRID_H. lia.
    - simpl. rewrite Ly. unfold MAX_SNAKE_LENGTH, GRID_W, GRID_H. lia. }
  assert (Hlen2 : snake_length (grow g2)
                  = if snake_length g <? MAX_SNAKE_LENGTH
                    then snake_length g + 1 else snake_length g).
  { rewrite grow_length. reflexivity. }
  destruct (add_score_spec (grow g2)) as [Hs Hh].
  assert (Hsc : score (grow g2) = score g).
  { unfold grow. destruct (snake_length g2 <? MAX_SNAKE_LENGTH); reflexivity. }
  assert (Hhs : highscore (grow g2) = highscore g).
  { unfold grow. destruct (snake_length g2 <? MAX_SNAKE_LENGTH); reflexivity. }
  rewrite Hsc, wrap_int_id in Hs by exact Hscore.
  rewrite Hsc, Hhs, wrap_int_id in Hh by exact Hscore.
  assert (Hfresh : (fx, fy) <> (food_x g, food_y g)).
  { intros E. destruct Hfree as [Hsnake _]. apply Hsnake.
    exists 0. split.
    - change (snake_length (set_particles ps (add_score (grow g2))))
        with (snake_length (add_score (grow g2))).
      assert (Hl : snake_length (add_score (grow g2)) = snake_length (grow g2)).
      { unfold add_score. simpl. destruct (_ >? _); reflexivity. }
      rewrite Hl, Hlen2. destruct (snake_length g <? MAX_SNAKE_LENGTH); lia.
    - rewrite E, <- Hhead2. unfold head_cell, snake_cell, add_score. simpl.
      destruct (_ >? _); reflexivity. }
  assert (Hsame : forall g4 : game,
             snake_length g4 = snake_length (add_score (grow g2)) ->
             score g4 = score (add_score (grow g2)) ->
             highscore g4 = highscore (add_score (grow g2)) ->
             head_cell g4 = head_cell (add_score (grow g2)) ->
             food_x g4 = fx -> food_y g4 = fy ->
             snake_length g4
             = (if snake_length g <? MAX_SNAKE_LENGTH
                then snake_length g + 1 else snake_length g)
             /\ score g4 = score g + 10
             /\ highscore g4 = Z.max (highscore g) (score g + 10)
             /\ head_cell g4 = (food_x g, food_y g)
             /\ (food_x g4, food_y g4) <> (food_x g, food_y g)).
  { intros g4 E1 E2 E3 E4 E5 E6. rewrite E1, E2, E3, E4, E5, E6, Hs, Hh.
    assert (Hl : snake_length (add_score (grow g2)) = snake_length (grow g2)).
    { unfold add_score. simpl. destruct (_ >? _); reflexivity. }
    assert (Hc : head_cell (add_score (grow g2)) = head_cell (grow g2)).
    { unfold head_cell, snake_cell, add_score. simpl. destruct (_ >? _); reflexivity. }
    rewrite Hl, Hc, Hlen2, Hhead2. repeat split; try reflexivity. exact Hfresh. }
  destruct Hg' as [-> | (_ & ps' & ->)]; apply Hsame;
    unfold start_effect; simpl; try reflexivity;
    destruct t; reflexivity.
Qed.

End Eating.

(** ** The border ring *)

Lemma keeps_blocked_refl (g : game) : keeps_blocked g g.
Proof. split; [reflexivity | tauto]. Qed.

Lemma keeps_blocked_trans (g1 g2 g3 : game) :
  keeps_blocked g1 g2 -> keeps_blocked g2 g3 -> keeps_blocked g1 g3.
Proof. intros [L1 K1] [L2 K2]. split; [congruence | auto]. Qed.

Lemma keeps_blocked_set_at (g : game) (x y : Z) :
  keeps_blocked g (set_obstacle_at x y 1 g).
Proof.
  split.
  - simpl. apply length_aset.
  - intros x' y'. unfold obstacle_at. simpl. apply aget_aset_nonzero.
Qed.

Lemma blocked_set_at (g : game) (x y : Z) :
  0 <= obstacle_index x y < Z.of_nat (length (obstacle g)) ->
  obstacle_at (set_obstacle_at x y 1 g) x y <> 0.
Proof.
  intros H. unfold obstacle_at. simpl. rewrite aget_aset_eq by exact H. discriminate.
Qed.

Lemma keeps_blocked_fold (f : game -> nat -> game) (l : list nat) (g : game) :
  (forall g n, keeps_blocked g (f g n)) -> keeps_blocked g (fold_left f l g).
Proof.
  intros Hf. revert g. induction l as [|n l IH]; intros g; simpl.
  - apply keeps_blocked_refl.
  - eapply keeps_blocked_trans; [apply Hf | apply IH].
Qed.

Lemma keeps_blocked_border_column (g : game) (n : nat) : keeps_blocked g (border_column g n).
Proof. eapply keeps_blocked_trans; apply keeps_blocked_set_at. Qed.

Lemma keeps_blocked_border_row (g : game) (n : nat) : keeps_blocked g (border_row g n).
Proof. eapply keeps_blocked_trans; apply keeps_blocked_set_at. Qed.

Lemma index_in_range (g : game) (x y : Z) :
  length (obstacle g) = Z.to_nat (GRID_W * GRID_H) -> in_grid x y ->
  0 <= obstacle_index x y < Z.of_nat (length (obstacle g)).
Proof.
  intros -> [Hx Hy]. unfold obstacle_index, GRID_W, GRID_H in *. lia.
Qed.

Lemma fold_border_column_sets (l : list nat) (g : game) (n : nat) :
  length (obstacle g) = Z.to_nat (GRID_W * GRID_H) ->
  n ∈ l -> 0 <= Z.of_nat n < GRID_W ->
  let g' := fold_left border_column l g in
  obstacle_at g' (Z.of_nat n) 0 <> 0 /\ obstacle_at g' (Z.of_nat n) (GRID_H - 1) <> 0.
Proof.
  revert g. induction l as [|m l IH]; intros g Hlen Hin Hn; [inversion Hin|].
  simpl. apply elem_of_cons in Hin as [<- | Hin].
  - destruct (keeps_blocked_fold border_column l (border_column g n)
                keeps_blocked_border_column) as [_ Hk].
    split; apply Hk; unfold border_column.
    + apply keeps_blocked_set_at. apply blocked_set_at.
      apply index_in_range; [exact Hlen|]. unfold in_grid, GRID_H. lia.
    + apply blocked_set_at.
      destruct (keeps_blocked_set_at g (Z.of_nat n) 0) as [-> _].
      apply index_in_range; [exact Hlen|]. unfold in_grid, GRID_H. lia.
  - apply IH; [|exact Hin|exact Hn].
    destruct (keeps_blocked_border_column g m) as [-> _]. exact Hlen.
Qed.

Lemma fold_border_row_sets (l : list nat) (g : game) (n : nat) :
  length (obstacle g) = Z.to_nat (GRID_W * GRID_H) ->
  n ∈ l -> 0 <= Z.of_nat n < GRID_H ->
  let g' := fold_left border_row l g in
  obstacle_at g' 0 (Z.of_nat n) <> 0 /\ obstacle_at g' (GRID_W - 1) (Z.of_nat n) <> 0.
Proof.
  revert g. induction l as [|m l IH]; intros g Hlen Hin Hn; [inversion Hin|].
  simpl. apply elem_of_cons in Hin as [<- | Hin].
  - destruct (keeps_blocked_fold border_row l (border_row g n)
                keeps_blocked_border_row) as [_ Hk].
    split; apply Hk; unfold border_row.
    + apply keeps_blocked_set_at. apply blocked_set_at.
      apply index_in_range; [exact Hlen|]. unfold in_grid, GRID_W. lia.
    + apply blocked_set_at.
      destruct (keeps_blocked_set_at g 0 (Z.of_nat n)) as [-> _].
      apply index_in_range; [exact Hlen|]. unfold in_grid, GRID_W. lia.
  - apply IH; [|exact Hin|exact Hn].
    destruct (keeps_blocked_border_row g m) as [-> _]. exact Hlen.
Qed.

Lemma place_obstacles_keeps (n : nat) (g : game) ds g' ds' :
  place_obstacles n g ds = Some (g', ds') -> keeps_blocked g g'.
Proof.
  revert g ds. induction n as [|n IH]; intros g ds H; simpl in H.
  - rand_inv. apply keeps_blocked_refl.
  - rand_inv. apply IH in Hk.
    eapply keeps_blocked_trans; [|exact Hk].
    eapply keeps_blocked_trans; [apply keeps_blocked_set_at|].
    split; [reflexivity | tauto].
Qed.

Lemma spawn_obstacles_border (g : game) ds g' ds' :
  spawn_obstacles g ds = Some (g', ds') ->
  length (obstacle g) = Z.to_nat (GRID_W * GRID_H) ->
  border_blocked g' /\ length (obstacle g') = Z.to_nat (GRID_W * GRID_H).
Proof.
  unfold spawn_obstacles. intros H Hlen.
  set (g1 := fold_left border_column (seq 0 (Z.to_nat GRID_W)) g) in *.
  set (g2 := fold_left border_row (seq 0 (Z.to_nat GRID_H)) g1) in *.
  apply place_obstacles_keeps in H.
  pose proof (keeps_blocked_fold border_column (seq 0 (Z.to_nat GRID_W)) g
                keeps_blocked_border_column) as K1. fold g1 in K1.
  pose proof (keeps_blocked_fold border_row (seq 0 (Z.to_nat GRID_H)) g1
                keeps_blocked_border_row) as K2. fold g2 in K2.
  assert (K3 : keeps_blocked g2 g').
  { eapply keeps_blocked_trans; [|exact H]. split; [reflexivity | tauto]. }
  assert (Hlen1 : length (obstacle g1) = Z.to_nat (GRID_W * GRID_H)).
  { destruct K1 as [-> _]. exact Hlen. }
  split.
  - intros x y [Hx Hy] Hb.
    apply K3.
    assert (Hcol : (y = 0 \/ y = GRID_H - 1) -> obstacle_at g1 x y <> 0).
    { intros Hy'.
      destruct (fold_border_column_sets (seq 0 (Z.to_nat GRID_W)) g (Z.to_nat x))
        as [H0 H1]; [exact Hlen | apply elem_of_seq; lia | lia |].
      rewrite Z2Nat.id in H0, H1 by lia. fold g1 in H0, H1.
      destruct Hy' as [-> | ->]; assumption. }
    assert (Hrow : (x = 0 \/ x = GRID_W - 1) -> obstacle_at g2 x y <> 0).
    { intros Hx'.
      destruct (fold_border_row_sets (seq 0 (Z.to_nat GRID_H)) g1 (Z.to_nat y))
        as [H0 H1]; [exact Hlen1 | apply elem_of_seq; lia | lia |].
      rewrite Z2Nat.id in H0, H1 by lia. fold g2 in H0, H1.
      destruct Hx' as [-> | ->]; assumption. }
    destruct Hb as [Hb | [Hb | [Hb | Hb]]].
    + apply Hrow. tauto.
    + apply Hrow. tauto.
    + apply K2, Hcol. tauto.
    + apply K2, Hcol. tauto.
  - destruct K3 as [-> _]. destruct K2 as [-> _]. exact Hlen1.
Qed.

(** ** The invariant of play *)

Lemma playable_same_field (g g' : game) : same_field g g' -> playable g -> playable g'.
Proof.
  intros (Ex & Ey & El & Eo) ((Lx & Ly & Lo) & Hl & Hb & Hh).
  unfold playable, arrays_sized, border_blocked, head_interior, head_cell, snake_cell,
    obstacle_at in *.
  rewrite Ex, Ey, El, Eo. tauto.
Qed.

Ltac same_field_tac :=
  unfold same_field, start_effect, add_score, turned, press_select, turn,
    update_particles;
  repeat case_match; simpl; repeat split; reflexivity.

Lemma reset_globals_ready (g : game) :
  arrays_sized g ->
  arrays_sized (reset_globals g)
  /\ snake_length (reset_globals g) = 3
  /\ head_cell (reset_globals g) = (GRID_W / 2, GRID_H / 2).
Proof.
  intros (Lx & Ly & Lo).
  assert (Hx : (3 <= length (snake_x g))%nat) by (rewrite Lx; vm_compute; lia).
  assert (Hy : (3 <= length (snake_y g))%nat) by (rewrite Ly; vm_compute; lia).
  unfold reset_globals, arrays_sized, head_cell, snake_cell. simpl.
  rewrite !length_aset, length_map.
  repeat split; try assumption.
  rewrite !(aget_aset_ne _ 2 0), !(aget_aset_ne _ 1 0) by lia.
  rewrite !aget_aset_eq by lia. reflexivity.
Qed.

Lemma spawns_after_reset_playable (r : game) ds g' ds' :
  arrays_sized r -> snake_length r = 3 ->
  head_cell r = (GRID_W / 2, GRID_H / 2) ->
  bind (spawn_food r) spawn_obstacles ds = Some (g', ds') ->
  playable g'.
Proof.
  intros (Lx & Ly & Lo) Hl Hh H.
  apply bind_Some in H as (g1 & ds1 & Hfood & Hobst).
  apply spawn_food_inv in Hfood as (fx & fy & _ & ->).
  pose proof (spawn_obstacles_border _ _ _ _ Hobst Lo) as [Hb Lo'].
  apply spawn_obstacles_frame in Hobst as (o & c & ->).
  split; [|split; [|split]].
  - split; [exact Lx | split; [exact Ly | exact Lo']].
  - change (1 <= snake_length r). lia.
  - exact Hb.
  - unfold head_interior. change (head_cell _) with (head_cell r). rewrite Hh.
    vm_compute. repeat split; reflexivity.
Qed.

Lemma game_reset_playable (g : game) ds g' ds' :
  arrays_sized g -> game_reset g ds = Some (g', ds') -> playable g'.
Proof.
  intros Hs H.
  destruct (reset_globals_ready g Hs) as (Ha & Hl & Hh).
  exact (spawns_after_reset_playable (reset_globals g) ds g' ds' Ha Hl Hh H).
Qed.

Lemma wrap_cell_in_grid (c : Z * Z) : in_grid (fst (wrap_cell c)) (snd (wrap_cell c)).
Proof.
  unfold wrap_cell, in_grid, GRID_W, GRID_H. simpl.
  repeat match goal with
    | |- context [if ?b then _ else _] => destruct b eqn:?
    end;
  rewrite ?Z.ltb_lt, ?Z.ltb_ge, ?Z.geb_le, ?Z.geb_leb, ?Z.leb_le, ?Z.leb_gt in *; lia.
Qed.

Lemma candidate_in_grid (g : game) : fatalb g = false -> in_grid (fst (tick_candidate g)) (snd (tick_candidate g)).
Proof.
  unfold fatalb, tick_candidate, candidate. cbv zeta.
  change (phase_timer (turned g)) with (phase_timer g).
  intros H. apply orb_false_iff in H as [H _]. apply orb_false_iff in H as [H _].
  destruct (Z.gtb_spec (phase_timer g) 0) as [Hp | Hp].
  - apply wrap_cell_in_grid.
  - destruct (Z.leb_spec (phase_timer g) 0); [|lia]. simpl in H.
    destruct (out_of_grid _ _) eqn:E; [discriminate|].
    destruct (decide (in_grid (step_head (turned g)).1 (step_head (turned g)).2));
      [assumption|].
    apply out_of_grid_spec in n. congruence.
Qed.

Lemma interior_of_free (g : game) (x y : Z) :
  border_blocked g -> in_grid x y -> ~ on_obstacle g x y ->
  0 < x < GRID_W - 1 /\ 0 < y < GRID_H - 1.
Proof.
  intros Hb Hg Hno.
  destruct (decide (x = 0 \/ x = GRID_W - 1 \/ y = 0 \/ y = GRID_H - 1)) as [Hbd | Hin].
  - exfalso. apply Hno. split; [exact Hg | apply Hb; assumption].
  - unfold in_grid in Hg. lia.
Qed.

Lemma commit_move_playable (g : game) :
  playable g -> fatalb g = false ->
  playable (commit_move (fst (tick_candidate g)) (snd (tick_candidate g)) (turned g)).
Proof.
  intros ((Lx & Ly & Lo) & Hl & Hb & Hh) Hf.
  pose proof (candidate_in_grid g Hf) as Hg.
  assert (Hno : ~ on_obstacle g (tick_candidate g).1 (tick_candidate g).2).
  { intros Ho. assert (fatal_collision g) by (right; right; exact Ho).
    apply fatalb_spec in H. congruence. }
  pose proof (interior_of_free g _ _ Hb Hg Hno) as Hint.
  split; [|split; [|split]].
  - unfold arrays_sized, commit_move. simpl.
    rewrite !length_aset, !length_shift_body. tauto.
  - exact Hl.
  - exact Hb.
  - unfold head_interior. rewrite commit_move_head.
    + exact Hint.
    + simpl. rewrite Lx. vm_compute. lia.
    + simpl. rewrite Ly. vm_compute. lia.
Qed.

Lemma grow_playable (g : game) : playable g -> playable (grow g).
Proof.
  intros ((Lx & Ly & Lo) & Hl & Hb & Hh).
  split; [|split; [|split]].
  - unfold arrays_sized, grow. destruct (_ <? _); simpl; rewrite ?length_aset; tauto.
  - rewrite grow_length. destruct (_ <? _); lia.
  - unfold border_blocked, obstacle_at, grow in *. destruct (_ <? _); exact Hb.
  - unfold head_interior. rewrite grow_head by exact Hl. exact Hh.
Qed.

Section Invariant.

Variable gate : Z -> bool.

Lemma update_snake_playable (g : game) ds g' ds' :
  playable g -> update_snake gate g ds = Some (g', ds') -> playable g'.
Proof.
  intros Hp H. destruct (fatalb g) eqn:Hf.
  - rewrite update_snake_fatal in H by exact Hf. inversion H; subst.
    eapply playable_same_field; [|exact Hp]. same_field_tac.
  - rewrite update_snake_commit in H by exact Hf.
    apply after_commit_inv in H. cbv zeta in H.
    pose proof (commit_move_playable g Hp Hf) as Hp2.
    set (g2 := commit_move _ _ _) in *.
    destruct H as (g3 & Hg3 & Hg').
    assert (Hp3 : playable g3).
    { destruct Hg3 as [[_ ->] | (_ & ps & fx & fy & t & ix & iy & _ & _ & ->)];
        [exact Hp2|].
      eapply playable_same_field; [|apply grow_playable; exact Hp2]. same_field_tac. }
    destruct Hg' as [-> | (_ & ps & ->)]; [exact Hp3|].
    eapply playable_same_field; [|exact Hp3]. same_field_tac.
Qed.

Lemma play_frame_playable (g : game) ds g' ds' :
  playable g -> play_frame gate g ds = Some (g', ds') -> playable g'.
Proof.
  intros Hp H. apply play_frame_inv in H. cbv zeta in H.
  assert (Hp1 : playable (frame_prelude g)).
  { eapply playable_same_field; [|exact Hp]. same_field_tac. }
  destruct H as [(_ & -> & _) | (_ & g2 & Hu & ->)].
  - eapply playable_same_field; [|exact Hp1]. same_field_tac.
  - apply update_snake_playable in Hu; [|exact Hp1].
    eapply playable_same_field; [|exact Hu]. same_field_tac.
Qed.

End Invariant.

Lemma handle_input_playable (i : input) (g : game) ds g' ds' :
  playable g -> handle_input i g ds = Some (g', ds') -> playable g'.
Proof.
  intros Hp H. apply handle_input_inv in H as (g1 & Hstart & ->).
  assert (Hp1 : playable g1).
  { destruct (_ && negb _); [|destruct Hstart as [-> _]; exact Hp].
    unfold press_start in Hstart.
    destruct (state g); rand_inv;
      try (eapply playable_same_field; [|exact Hp]; same_field_tac);
      (eapply game_reset_playable; [|eassumption]; destruct Hp as [Hs _]; exact Hs). }
  eapply playable_same_field; [|exact Hp1]. same_field_tac.
Qed.

Lemma retro_run_playable (gate : Z -> bool) (i : input) (g : game) ds g' ds' :
  playable g -> retro_run gate i g ds = Some (g', ds') -> playable g'.
Proof.
  intros Hp H. apply retro_run_inv in H as (g1 & ds1 & g2 & Hh & Hf & ->).
  apply handle_input_playable in Hh; [|exact Hp].
  assert (Hp2 : playable g2).
  { destruct (bool_decide _); [|destruct Hf as [-> _]; exact Hh].
    eapply play_frame_playable; eassumption. }
  eapply playable_same_field; [|exact Hp2]. same_field_tac.
Qed.

Lemma reachable_playable (gate : Z -> bool) (g : game) : reachable gate g -> playable g.
Proof.
  induction 1.
  - eapply game_reset_playable; eassumption.
  - eapply update_snake_playable; eassumption.
  - eapply handle_input_playable; eassumption.
  - eapply retro_run_playable; eassumption.
Qed.

(** C10. In every state reached from a game reset by ticks, input handling
    and frames, the border ring is obstacle-occupied and the head lies
    strictly inside it, so it is on no border cell.  Hence the cell one step
    ahead of the head is inside the grid whatever the pending direction: the
    wall-death test of the next tick is false and the phasing branch assigns
    nothing, the candidate is the plain step; and a candidate on the border
    ring ends the game, phasing or not. *)
Theorem head_never_on_border (gate : Z -> bool) (g : game) :
  reachable gate g ->
  border_blocked g
  /\ ~ on_border (fst (head_cell g)) (snd (head_cell g))
  /\ (let s := step_head (turned g) in
      out_of_grid (fst s) (snd s) = false
      /\ wrap_cell s = s
      /\ tick_candidate g = s)
  /\ (forall ds,
        on_border (fst (tick_candidate g)) (snd (tick_candidate g)) ->
        update_snake gate g ds = Some (set_state STATE_GAMEOVER (turned g), ds)).
Proof.
  intros Hr. apply reachable_playable in Hr.
  destruct Hr as (_ & _ & Hb & Hx & Hy).
  assert (Hstep : in_grid (step_head (turned g)).1 (step_head (turned g)).2).
  { unfold head_cell, snake_cell in Hx, Hy. simpl in Hx, Hy.
    unfold step_head, in_grid, GRID_W, GRID_H in *. simpl.
    destruct (pending_dir g); simpl;
      rewrite wrap_int_id by (unfold is_int, INT_MIN, INT_MAX; lia); lia. }
  assert (Hwrap : wrap_cell (step_head (turned g)) = step_head (turned g)).
  { destruct (step_head (turned g)) as [x y]. unfold in_grid in Hstep. simpl in Hstep.
    unfold wrap_cell. simpl.
    destruct (Z.ltb_spec x 0); [lia|]. destruct (Z.geb_spec x GRID_W); [lia|].
    destruct (Z.ltb_spec y 0); [lia|]. destruct (Z.geb_spec y GRID_H); [lia|].
    reflexivity. }
  assert (Hcand : tick_candidate g = step_head (turned g)).
  { unfold tick_candidate, candidate. destruct (_ >? _); [exact Hwrap | reflexivity]. }
  split; [exact Hb|]. split.
  { unfold on_border, GRID_W, GRID_H in *. lia. }
  split.
  { cbv zeta. split; [|split; assumption].
    destruct (out_of_grid _ _) eqn:E; [|reflexivity].
    apply out_of_grid_spec in E. tauto. }
  intros ds Hbd. apply update_snake_fatal. apply fatalb_spec.
  right; right. rewrite Hcand in *. split; [exact Hstep | apply Hb; assumption].
Qed.

(** ** Timers *)

Section Timers.

Variable gate : Z -> bool.


End Timers.


(** ** Score and high score *)

Lemma game_reset_score (g : game) ds g' ds' :
  game_reset g ds = Some (g', ds') ->
  score g' = 0 /\ highscore g' = highscore g /\ state g' = state g
  /\ prev_select g' = prev_select g.
Proof.
  intros H. apply game_reset_inv in H as (fx & fy & o & c & _ & ->).
  simpl. repeat split; reflexivity.
Qed.

Lemma press_start_score (g : game) ds g' ds' :
  press_start g ds = Some (g', ds') ->
  highscore g' = highscore g /\ prev_select g' = prev_select g
  /\ (score g' = score g \/ score g' = 0)
  /\ state g' <> STATE_TITLE.
Proof.
  unfold press_start. intros H.
  destruct (state g) eqn:Hs.
  - apply game_reset_score in H as (H1 & H2 & H3 & H4). simpl in *.
    rewrite H1, H2, H3, H4. repeat split; [tauto | discriminate].
  - rand_inv. simpl. repeat split; [tauto | discriminate].
  - rand_inv. simpl. repeat split; [tauto | discriminate].
  - apply game_reset_score in H as (H1 & H2 & H3 & H4). simpl in *.
    rewrite H1, H2, H3, H4. repeat split; [tauto | discriminate].
Qed.

Lemma handle_input_score (i : input) (g : game) ds g' ds' :
  handle_input i g ds = Some (g', ds') ->
  highscore g' = (if explicit_clear (OpFrame i) g then 0 else highscore g)
  /\ (score g' = score g \/ score g' = 0)
  /\ (state g' = STATE_TITLE -> state g = STATE_TITLE /\ score g' = score g)
  /\ (explicit_clear (OpFrame i) g = true -> state g' = STATE_TITLE).
Proof.
  intros H. apply handle_input_inv in H as (g1 & Hstart & ->). cbv zeta.
  unfold explicit_clear.
  set (edge := truthy (in_start i) && negb (truthy (prev_start g))) in *.
  assert (H1 : highscore g1 = highscore g /\ prev_select g1 = prev_select g
               /\ (score g1 = score g \/ score g1 = 0)
               /\ (if edge then state g1 <> STATE_TITLE
                   else state g1 = state g /\ score g1 = score g)).
  { destruct edge.
    - apply press_start_score in Hstart. tauto.
    - destruct Hstart as [-> _]. tauto. }
  destruct H1 as (Hh & Hp & Hs & He).
  change (prev_select (set_prev_start (in_start i) g1)) with (prev_select g1).
  rewrite Hp.
  set (sel := truthy (in_select i) && negb (truthy (prev_select g))).
  assert (T : forall b : bool,
             let g3 := if b then press_select (set_prev_start (in_start i) g1)
                       else set_prev_start (in_start i) g1 in
             let g4 := set_prev_select (in_select i) g3 in
             let g' := if bool_decide (state g4 = STATE_PLAY) then turn i g4 else g4 in
             score g' = score g1 /\ state g' = state g1
             /\ highscore g'
                = if b && bool_decide (state g1 = STATE_TITLE) then 0 else highscore g1).
  { intros b. unfold press_select, turn. destruct b; simpl;
      repeat case_match; simpl; repeat split; reflexivity. }
  destruct (T sel) as (Ts & Tst & Th). cbv zeta in Ts, Tst, Th.
  rewrite Ts, Tst, Th. clear T Ts Tst Th.
  assert (Hc : sel && bool_decide (state g1 = STATE_TITLE)
               = sel && bool_decide (state g = STATE_TITLE) && negb edge).
  { destruct edge.
    - rewrite (bool_decide_eq_false_2 _ He). rewrite !andb_false_r. reflexivity.
    - destruct He as [-> _]. rewrite andb_true_r. reflexivity. }
  rewrite Hc, Hh. split; [reflexivity|]. split; [exact Hs|]. split.
  - intros Ht. destruct edge; [tauto|]. destruct He as [He1 He2].
    split; congruence.
  - intros Hclear. apply andb_true_iff in Hclear as [Hclear He'].
    apply andb_true_iff in Hclear as [_ Hclear].
    apply bool_decide_eq_true in Hclear.
    destruct edge; [discriminate|]. destruct He as [He1 _]. congruence.
Qed.

Section Scores.

Variable gate : Z -> bool.

Lemma update_snake_score (g : game) ds g' ds' :
  update_snake gate g ds = Some (g', ds') ->
  ((score g' = score g /\ highscore g' = highscore g)
   \/ (score g' = wrap_int (score g + 10)
       /\ highscore g' = Z.max (highscore g) (score g')))
  /\ (state g' = state g \/ state g' = STATE_GAMEOVER).
Proof.
  intros H. destruct (fatalb g) eqn:Hf.
  - rewrite update_snake_fatal in H by assumption. inversion H; subst. simpl. tauto.
  - rewrite update_snake_commit in H by assumption.
    apply after_commit_inv in H. cbv zeta in H.
    set (g2 := commit_move _ _ _) in *.
    assert (E2 : score g2 = score g /\ highscore g2 = highscore g /\ state g2 = state g)
      by (repeat split; reflexivity).
    destruct E2 as (E1 & E2 & E3).
    assert (Eg : score (grow g2) = score g /\ highscore (grow g2) = highscore g
                 /\ state (grow g2) = state g).
    { unfold grow. destruct (_ <? _); simpl; tauto. }
    destruct Eg as (G1 & G2 & G3).
    destruct (add_score_spec (grow g2)) as [A1 A2].
    rewrite G1 in A1. rewrite G1, G2 in A2.
    assert (A3 : state (add_score (grow g2)) = state g).
    { unfold add_score. simpl. destruct (_ >? _); simpl; exact G3. }
    destruct H as (g3 & Hg3 & Hg').
    assert (H3 : ((score g3 = score g /\ highscore g3 = highscore g)
                  \/ (score g3 = wrap_int (score g + 10)
                      /\ highscore g3 = Z.max (highscore g) (score g3)))
                 /\ state g3 = state g).
    { destruct Hg3 as [[_ ->] | (_ & ps & fx & fy & t & ix & iy & _ & _ & ->)].
      - tauto.
      - simpl. rewrite A1, A2, A3. tauto. }
    destruct Hg' as [-> | (_ & ps & ->)]; [tauto|].
    unfold start_effect. destruct (item_type g3); simpl; tauto.
Qed.

Lemma play_frame_score (g : game) ds g' ds' :
  play_frame gate g ds = Some (g', ds') ->
  ((score g' = score g /\ highscore g' = highscore g)
   \/ (score g' = wrap_int (score g + 10)
       /\ highscore g' = Z.max (highscore g) (score g')))
  /\ (state g' = state g \/ state g' = STATE_GAMEOVER).
Proof.
  intros H. apply play_frame_inv in H. cbv zeta in H.
  destruct H as [(_ & -> & _) | (_ & g2 & Hu & ->)].
  - simpl. tauto.
  - apply update_snake_score in Hu. simpl in *. exact Hu.
Qed.

Lemma retro_run_score (i : input) (g : game) ds g' ds' :
  retro_run gate i g ds = Some (g', ds') ->
  exists g1,
    (highscore g1 = (if explicit_clear (OpFrame i) g then 0 else highscore g)
     /\ (score g1 = score g \/ score g1 = 0)
     /\ (state g1 = STATE_TITLE -> state g = STATE_TITLE /\ score g1 = score g)
     /\ (explicit_clear (OpFrame i) g = true -> state g1 = STATE_TITLE))
    /\ ((score g' = score g1 /\ highscore g' = highscore g1 /\ state g' = state g1)
        \/ (state g1 = STATE_PLAY /\ state g' <> STATE_TITLE
            /\ ((score g' = score g1 /\ highscore g' = highscore g1)
                \/ (score g' = wrap_int (score g1 + 10)
                    /\ highscore g' = Z.max (highscore g1) (score g'))))).
Proof.
  intros H. apply retro_run_inv in H as (g1 & ds1 & g2 & Hh & Hf & ->).
  exists g1. split; [eapply handle_input_score; exact Hh|].
  destruct (bool_decide_reflect (state g1 = STATE_PLAY)) as [Hp | Hp].
  - right. apply play_frame_score in Hf. simpl. split; [exact Hp|].
    split; [|tauto]. destruct Hf as [_ [E | E]]; rewrite E; [rewrite Hp|]; discriminate.
  - left. destruct Hf as [-> _]. simpl. tauto.
Qed.

Lemma exec_highscore (o : core_op) (g : game) ds g' ds' :
  is_load o = false ->
  exec gate o g ds = Some (g', ds') ->
  explicit_clear o g = false ->
  highscore g <= highscore g'.
Proof.
  intros Hl H Hc. destruct o as [| |i|data size]; simpl in *; try discriminate.
  - unfold retro_init in H. apply game_reset_score in H as (_ & -> & _). simpl. lia.
  - unfold retro_reset in H. apply game_reset_score in H as (_ & -> & _). lia.
  - apply retro_run_score in H as (g1 & (Hh1 & _) & H).
    unfold explicit_clear in Hh1. rewrite Hc in Hh1.
    destruct H as [(_ & -> & _) | (_ & _ & [[_ ->] | [_ ->]])]; lia.
Qed.

Lemma exec_tracks (o : core_op) (g : game) (m : Z) ds g' ds' :
  is_load o = false ->
  exec gate o g ds = Some (g', ds') ->
  tracks_maximum g m ->
  tracks_maximum g' (if explicit_clear o g then score g' else Z.max m (score g')).
Proof.
  intros Hl H (Jh & Js & Jm & Jt). unfold tracks_maximum.
  destruct o as [| |i|data size]; simpl in *; try discriminate.
  - unfold retro_init in H. apply game_reset_score in H as (S1 & S2 & S3 & _).
    simpl in *. rewrite S1, S2. repeat split; intros; lia.
  - unfold retro_reset in H. apply game_reset_score in H as (S1 & S2 & S3 & _).
    rewrite S1, S2, S3. repeat split; intros; lia.
  - apply retro_run_score in H as (g1 & (Hh1 & Hs1 & Ht1 & Hc1) & H).
    unfold explicit_clear in Hh1, Hc1.
    destruct (_ && negb (truthy (in_start i) && _)) eqn:Hclear.
    + specialize (Hc1 eq_refl). destruct (Ht1 Hc1) as [Tg Sg]. specialize (Jt Tg).
      destruct H as [(E1 & E2 & E3) | (Hp & _)]; [|congruence].
      rewrite E1, E2, E3, Hh1, Sg, Jt. repeat split; intros; lia.
    + assert (Hs1' : score g1 <= m) by (destruct Hs1 as [-> | ->]; lia).
      assert (Ht1' : state g1 = STATE_TITLE -> score g1 = 0).
      { intros T. destruct (Ht1 T) as [Tg ->]. tauto. }
      destruct H as [(E1 & E2 & E3) | (Hp & Hnt & [[E1 E2] | [E1 E2]])].
      * rewrite E1, E2, E3, Hh1. repeat split; try lia. exact Ht1'.
      * rewrite E1, E2, Hh1. repeat split; try lia. tauto.
      * rewrite E2, Hh1, Jh. repeat split; try lia. tauto.
Qed.

End Scores.

(** C9 (as amended). Apart from the explicit clear and from loading a save
    state, which stores whatever high score the blob holds, no operation of
    the core lowers the high score: initialisation and game resets leave it
    as it is, and a frame leaves it or raises it to the new score.  In every
    run of such operations from program start the high score equals the
    largest score observed since the last explicit clear. *)
Theorem highscore_is_running_maximum (gate : Z -> bool) :
  (forall o g ds g' ds',
      is_load o = false ->
      exec gate o g ds = Some (g', ds') ->
      explicit_clear o g = false ->
      highscore g <= highscore g')
  /\ (forall g ds g' ds',
        game_reset g ds = Some (g', ds') -> highscore g' = highscore g)
  /\ (forall ops ds g m ds',
        forallb (fun o => negb (is_load o)) ops = true ->
        observe gate ops init_game 0 ds = Some ((g, m), ds') ->
        highscore g = m).
Proof.
  split; [apply exec_highscore|].
  split; [intros g ds g' ds' H; apply game_reset_score in H; tauto|].
  assert (Hrun : forall ops g0 m0 ds g m ds',
             forallb (fun o => negb (is_load o)) ops = true ->
             tracks_maximum g0 m0 ->
             observe gate ops g0 m0 ds = Some ((g, m), ds') ->
             tracks_maximum g m).
  { induction ops as [|o ops IH]; intros g0 m0 ds g m ds' Hops J H; simpl in H.
    - apply ret_Some in H. inversion H; subst. exact J.
    - apply andb_true_iff in Hops as [Ho Hops]. apply negb_true_iff in Ho.
      apply bind_Some in H as (g1 & ds1 & He & H).
      eapply IH; [exact Hops | | exact H].
      eapply exec_tracks; eassumption. }
  intros ops ds g m ds' Hops H.
  destruct (Hrun ops init_game 0 ds g m ds' Hops) as [Hh _]; [|exact H|exact Hh].
  unfold tracks_maximum. simpl. repeat split; lia.
Qed.

(** ** The size formulas on any ABI *)

Lemma copied_exceeds_reported (si sd st sg su : Z) :
  0 < si -> 0 <= sd -> 0 <= st ->
  copied_size si sd st sg su = reported_size si sg su + (5 * si + sd + st)
  /\ reported_size si sg su < copied_size si sd st sg su.
Proof. unfold copied_size, reported_size, MAX_SNAKE_LENGTH, GRID_W, GRID_H. lia. Qed.

Lemma sizes_on_lp64 :
  reported_size sizeof_int sizeof_game_state_t sizeof_unsigned_long = retro_serialize_size
  /\ copied_size sizeof_int sizeof_direction_t sizeof_item_type_t sizeof_game_state_t
       sizeof_unsigned_long = serialized_length.
Proof. split; reflexivity. Qed.

(** ** Enough draws make a tick return *)

Lemma length_alternate (x y n : nat) : length (alternate x y n) = (2 * n)%nat.
Proof. induction n as [|n IH]; simpl; [reflexivity | rewrite IH; lia]. Qed.

Lemma drop_alternate (x y n k : nat) :
  (k <= n)%nat -> drop (2 * k) (alternate x y n) = alternate x y (n - k).
Proof.
  revert n. induction k as [|k IH]; intros n Hk.
  - rewrite Nat.sub_0_r. reflexivity.
  - destruct n as [|n]; [lia|].
    replace (2 * S k)%nat with (S (S (2 * k))) by lia. simpl. apply IH. lia.
Qed.

Lemma rand_cons (d : nat) (ds : list nat) : rand (d :: ds) = Some (Z.of_nat d, ds).
Proof. reflexivity. Qed.

(** [spawn_particles_loop] consumes four draws per activated slot. *)
Lemma spawn_particles_loop_returns (ps : list particle_t) (ds : list nat) :
  (4 * length ps <= length ds)%nat ->
  exists ps' k,
    spawn_particles_loop ps ds = Some (ps', drop (4 * k) ds)
    /\ (k <= length ps)%nat /\ length ps' = length ps.
Proof.
  revert ds. induction ps as [|p ps IH]; intros ds Hlen.
  - exists [], 0%nat. split; [reflexivity|]. split; [lia | reflexivity].
  - simpl in Hlen. simpl spawn_particles_loop. destruct (active p).
    + destruct (IH ds) as (ps' & k & E & Hk & Hl); [lia|].
      exists (p :: ps'), k. unfold bind. rewrite E.
      split; [reflexivity|]. simpl. split; [lia | congruence].
    + destruct ds as [|d1 [|d2 [|d3 [|d4 ds]]]]; simpl in Hlen; try lia.
      unfold bind. rewrite !rand_cons.
      destruct (Z.rem (Z.of_nat d4) 2 =? 0).
      * eexists _, 1%nat. split; [reflexivity|]. simpl. split; [lia | reflexivity].
      * destruct (IH ds) as (ps' & k & E & Hk & Hl); [lia|].
        rewrite E. eexists _, (S k).
        replace (4 * S k)%nat with (S (S (S (S (4 * k))))) by lia.
        split; [reflexivity|]. simpl. split; [lia | congruence].
Qed.

Lemma spawn_particles_returns (g : game) (ds : list nat) :
  (4 * length (particles g) <= length ds)%nat ->
  exists ps k,
    spawn_particles g ds = Some (set_particles ps g, drop (4 * k) ds)
    /\ (k <= length (particles g))%nat /\ length ps = length (particles g).
Proof.
  intros Hlen.
  destruct (spawn_particles_loop_returns (particles g) ds Hlen) as (ps & k & E & Hk & Hl).
  exists ps, k. unfold spawn_particles, bind. rewrite E. repeat split; assumption.
Qed.

Lemma cell_collides_transfer (g g' : game) (x y : Z) :
  same_field g g' -> item_x g' = item_x g -> item_y g' = item_y g ->
  snake_occupies g x y = false -> obstacle_at g x y = 0 ->
  (x, y) <> (item_x g, item_y g) ->
  cell_collides g' x y = false.
Proof.
  intros (Ex & Ey & El & Eo) Eix Eiy Hs Ho Hi.
  unfold cell_collides, snake_occupies, obstacle_at, item_occupies in *.
  rewrite Ex, Ey, El, Eo, Eix, Eiy, Hs, Ho. simpl.
  destruct (Z.eqb_spec (item_x g) x) as [E1|];
    [|rewrite andb_false_r; reflexivity].
  destruct (Z.eqb_spec (item_y g) y) as [E2|]; [|apply andb_false_r].
  congruence.
Qed.

Section Progress.

Variable gate : Z -> bool.
Variables x y : nat.

Let cx : Z := Z.rem (Z.of_nat x) GRID_W.
Let cy : Z := Z.rem (Z.of_nat y) GRID_H.

Lemma spawn_item_returns (g : game) (n : nat) :
  (2 <= n)%nat ->
  (forall t, cell_collides (set_item_type t g) cx cy = false) ->
  exists g' ds',
    spawn_item gate g (alternate x y n) = Some (g', ds')
    /\ (2 * n <= length ds' + 4)%nat
    /\ particles g' = particles g.
Proof.
  intros Hn Hfree. destruct n as [|[|n]]; try lia.
  unfold spawn_item. destruct (bool_decide (item_type g = ITEM_NONE)); simpl.
  - unfold bind. rewrite rand_cons. destruct (gate (Z.of_nat x)).
    + eexists _, _. split; [reflexivity|]. simpl. rewrite length_alternate.
      split; [lia | reflexivity].
    + rewrite rand_cons. change (alternate x y (S n)) with (x :: y :: alternate x y n).
      rewrite random_free_cell_first by apply Hfree.
      eexists _, _. split; [reflexivity|]. rewrite length_alternate.
      split; [lia | reflexivity].
  - eexists _, _. split; [reflexivity|]. simpl. rewrite length_alternate.
    split; [lia | reflexivity].
Qed.

Lemma eat_food_returns (g : game) (n : nat) :
  (2 * length (particles g) + 3 <= n)%nat ->
  snake_occupies (grow g) cx cy = false ->
  obstacle_at (grow g) cx cy = 0 ->
  (cx, cy) <> (item_x (grow g), item_y (grow g)) ->
  exists g' ds',
    eat_food gate g (alternate x y n) = Some (g', ds')
    /\ (2 * n <= length ds' + 4 * length (particles g) + 6)%nat
    /\ length (particles g') = length (particles g).
Proof.
  intros Hn Hs Ho Hi. unfold eat_food.
  assert (Hp : particles (add_score (grow g)) = particles g).
  { unfold add_score, grow. repeat case_match; reflexivity. }
  destruct (spawn_particles_returns (add_score (grow g)) (alternate x y n))
    as (ps & k & E & Hk & Hl).
  { rewrite Hp, length_alternate. lia. }
  rewrite Hp in Hk, Hl.
  replace (4 * k)%nat with (2 * (2 * k))%nat in E by lia.
  rewrite drop_alternate in E by lia.
  destruct (n - 2 * k)%nat as [|m] eqn:Hm; [lia|].
  set (ga := set_particles ps (add_score (grow g))) in *.
  assert (Ha : cell_collides ga cx cy = false).
  { apply (cell_collides_transfer (grow g)); try assumption;
      unfold ga; [same_field_tac | |]; unfold add_score; case_match; reflexivity. }
  set (gb := set_food_y cy (set_food_x cx ga)).
  assert (Hb : forall t, cell_collides (set_item_type t gb) cx cy = false).
  { intros t. apply (cell_collides_transfer (grow g)); try assumption;
      unfold gb, ga; [same_field_tac | |]; unfold add_score; case_match; reflexivity. }
  destruct (spawn_item_returns gb m) as (g' & ds' & Ei & Hlen & Hpi); [lia | exact Hb|].
  exists g', ds'. split; [|split].
  - unfold bind. rewrite E.
    unfold spawn_food, bind. change (alternate x y (S m)) with (x :: y :: alternate x y m).
    rewrite (random_free_cell_first ga x y) by exact Ha. exact Ei.
  - lia.
  - rewrite Hpi. unfold gb, ga. simpl. exact Hl.
Qed.

Lemma take_item_returns (g : game) (ds : list nat) :
  (4 * length (particles g) <= length ds)%nat ->
  exists g' ds', take_item g ds = Some (g', ds').
Proof.
  intros Hlen. unfold take_item.
  assert (Hp : particles (start_effect g) = particles g).
  { unfold start_effect. case_match; reflexivity. }
  destruct (spawn_particles_returns (start_effect g) ds) as (ps & k & E & _);
    [rewrite Hp; exact Hlen|].
  eexists _, _. unfold bind. rewrite E. reflexivity.
Qed.

(** With draws that keep naming a cell free of the moved snake, of
    obstacles and different from the item coordinates, every tick returns:
    neither resampling loop runs out of draws. *)
Lemma update_snake_returns (g : game) :
  let c := tick_candidate g in
  let g2 := commit_move (fst c) (snd c) (turned g) in
  snake_occupies (grow g2) cx cy = false ->
  obstacle_at g cx cy = 0 ->
  (cx, cy) <> (item_x g, item_y g) ->
  exists g' ds',
    update_snake gate g (alternate x y (4 * length (particles g) + 3)) = Some (g', ds').
Proof.
  cbv zeta. intros Hs Ho Hi. destruct (fatalb g) eqn:Hf.
  - eexists _, _. apply update_snake_fatal. exact Hf.
  - rewrite update_snake_commit by exact Hf. unfold after_commit. cbv zeta.
    set (g2 := commit_move _ _ _) in *.
    set (n := (4 * length (particles g) + 3)%nat).
    assert (Hfirst : exists g3 ds3,
               (if ((tick_candidate g).1 =? food_x g2) && ((tick_candidate g).2 =? food_y g2)
                then eat_food gate g2 else ret g2) (alternate x y n) = Some (g3, ds3)
               /\ (4 * length (particles g3) <= length ds3)%nat).
    { destruct (_ && _).
      - destruct (eat_food_returns g2 n) as (g3 & ds3 & E & Hlen & Hp).
        + unfold n. change (particles g2) with (particles g). lia.
        + exact Hs.
        + unfold grow. case_match; exact Ho.
        + unfold grow. case_match; exact Hi.
        + exists g3, ds3. split; [exact E|]. rewrite Hp.
          change (particles g2) with (particles g) in *. unfold n in Hlen. lia.
      - exists g2, (alternate x y n). split; [reflexivity|].
        rewrite length_alternate. change (particles g2) with (particles g).
        unfold n. lia. }
    destruct Hfirst as (g3 & ds3 & E & Hlen). unfold bind. rewrite E.
    destruct (item_occupies g3 _ _).
    + apply take_item_returns. exact Hlen.
    + eexists _, _. reflexivity.
Qed.

End Progress.

(** * Concrete runs *)

Lemma started_game_run :
  game_reset (set_state STATE_PLAY init_game) sample_draws = Some (started_game, []).
Proof. vm_compute. reflexivity. Qed.

Lemma started_game_sized : arrays_sized (set_state STATE_PLAY init_game).
Proof. repeat split. Qed.

Lemma started_game_reachable : reachable sample_gate started_game.
Proof. eapply reach_reset; [exact started_game_sized | exact started_game_run]. Qed.

Lemma fed_game_run :
  update_snake sample_gate hungry_game eat_draws = Some (fed_game, []).
Proof. vm_compute. reflexivity. Qed.


Example started_game_facts :
  head_cell started_game = (20, 15)
  /\ snake_cell started_game 1 = (19, 15) /\ snake_cell started_game 2 = (18, 15)
  /\ snake_length started_game = 3
  /\ (food_x started_game, food_y started_game) = (25, 15)
  /\ obstacle_count started_game = 148
  /\ state started_game = STATE_PLAY.
Proof. vm_compute. repeat split; reflexivity. Qed.

Example fed_game_facts :
  head_cell fed_game = (21, 15) /\ snake_length fed_game = 4
  /\ score fed_game = 10 /\ highscore fed_game = 10
  /\ (food_x fed_game, food_y fed_game) = (30, 20)
  /\ item_type fed_game = ITEM_PHASE
  /\ (item_x fed_game, item_y fed_game) = (10, 20).
Proof. vm_compute. repeat split; reflexivity. Qed.

Example next_frame_facts :
  phase_timer next_frame = 4 /\ speed_timer next_frame = 6
  /\ move_counter next_frame = 7
  /\ head_cell next_frame = head_cell powered_game.
Proof. vm_compute. repeat split; reflexivity. Qed.

Lemma session_run :
  observe sample_gate sample_session init_game 0 session_draws
  = Some ((session_game, session_max), []).
Proof. vm_compute. reflexivity. Qed.

Example session_facts :
  head_cell session_game = (25, 15) /\ snake_length session_game = 4
  /\ score session_game = 10 /\ highscore session_game = 10 /\ session_max = 10
  /\ frame_count session_game = 41.
Proof. vm_compute. repeat split; reflexivity. Qed.

Lemma saved_blob_run :
  retro_serialize started_game roomy_buffer retro_serialize_size = inr (true, saved_blob).
Proof. vm_compute. reflexivity. Qed.

Lemma loaded_game_run :
  exec sample_gate (OpLoad saved_blob retro_serialize_size) rich_game []
  = Some (loaded_game, []).
Proof. vm_compute. reflexivity. Qed.

Lemma started_game_wf : wf_game started_game.
Proof.
  repeat split;
    try (apply (bool_decide_unpack _); vm_compute; exact I);
    vm_compute; congruence.
Qed.

(** ** Instances of the theorems *)

Lemma fatal_collision_witness :
  fatal_collision reversing_game
  /\ exists g', update_snake sample_gate reversing_game [] = Some (g', [])
                /\ state g' = STATE_GAMEOVER
                /\ score g' = score reversing_game
                /\ snake_x g' = snake_x reversing_game.
Proof.
  assert (Hf : fatal_collision reversing_game).
  { apply fatalb_spec. vm_compute. reflexivity. }
  split; [exact Hf|].
  destruct (fatal_collision_only_ends_game sample_gate reversing_game [] Hf)
    as (g' & H & _ & Hs & _ & Hx & _ & _ & Hsc & _).
  exists g'. repeat split; assumption.
Defined.

Lemma random_free_cell_witness :
  random_free_cell started_game [20; 15; 30; 20]%nat = Some ((30, 20), [])
  /\ in_grid 30 20 /\ cell_free started_game 30 20.
Proof.
  assert (E : random_free_cell started_game [20; 15; 30; 20]%nat = Some ((30, 20), [])).
  { vm_compute. reflexivity. }
  split; [exact E|].
  exact (proj1 (random_free_cell_is_free sample_gate started_game) _ _ _ _ E).
Defined.

Lemma pending_witness :
  exists g', handle_input press_left started_game [] = Some (g', [])
             /\ snake_dir g' = DIR_RIGHT
             /\ pending_dir g' = pending_dir started_game.
Proof.
  destruct (pending_never_reverses sample_gate) as (_ & _ & _ & _ & _ & H).
  apply H.
  - vm_compute. reflexivity.
  - vm_compute. reflexivity.
  - unfold only_left, press_left. simpl. repeat split; try reflexivity. discriminate.
Defined.

Lemma round_trip_witness :
  exists g', retro_unserialize rich_game saved_blob retro_serialize_size = inr (true, g')
             /\ snake_x g' = snake_x started_game /\ score g' = score started_game
             /\ highscore g' = highscore started_game
             /\ frame_count g' = frame_count started_game.
Proof.
  destruct (save_state_round_trip started_game rich_game roomy_buffer saved_blob
              retro_serialize_size started_game_wf saved_blob_run)
    as (g' & H & Hx & _ & _ & _ & _ & _ & _ & _ & _ & _ & _ & Hs & Hh & _ & _ & Hf).
  exists g'. repeat split; assumption.
Defined.

Lemma short_buffer_witness :
  retro_serialize started_game [] 100 = inr (false, [])
  /\ retro_unserialize started_game [] 100 = inr (false, started_game).
Proof. apply short_buffer_is_refused. vm_compute. reflexivity. Defined.

Lemma overrun_witness :
  retro_serialize started_game exact_buffer retro_serialize_size = inl OutOfBounds
  /\ zlength (serialize_stream started_game) = retro_serialize_size + 28
  /\ zlength (concat (take 10 (serialize_chunks started_game))) = retro_serialize_size.
Proof. apply serialize_overruns_reported_size. vm_compute. reflexivity. Defined.

Lemma food_contact_witness :
  snake_length fed_game
  = (if snake_length hungry_game <? MAX_SNAKE_LENGTH
     then snake_length hungry_game + 1 else snake_length hungry_game)
  /\ score fed_game = score hungry_game + 10
  /\ highscore fed_game = Z.max (highscore hungry_game) (score hungry_game + 10)
  /\ head_cell fed_game = (food_x hungry_game, food_y hungry_game)
  /\ (food_x fed_game, food_y fed_game) <> (food_x hungry_game, food_y hungry_game).
Proof.
  apply (food_contact sample_gate hungry_game eat_draws fed_game []).
  - repeat split; vm_compute; reflexivity.
  - apply Z.leb_le. vm_compute. reflexivity.
  - split; apply Z.leb_le; vm_compute; reflexivity.
  - intros Hf. apply fatalb_spec in Hf. vm_compute in Hf. discriminate.
  - vm_compute. reflexivity.
  - exact fed_game_run.
Defined.

Lemma head_witness :
  reachable sample_gate started_game
  /\ ~ on_border (fst (head_cell started_game)) (snd (head_cell started_game)).
Proof.
  assert (R : reachable sample_gate started_game).
  { eapply reach_reset; [exact started_game_sized | exact started_game_run]. }
  split; [exact R|].
  exact (proj1 (proj2 (head_never_on_border sample_gate started_game R))).
Defined.


Lemma running_maximum_witness : highscore session_game = session_max.
Proof.
  apply (proj2 (proj2 (highscore_is_running_maximum sample_gate))
           sample_session session_draws session_game session_max []).
  - vm_compute. reflexivity.
  - exact session_run.
Defined.

(** ** Counterexamples to the readings the source does not follow *)


(** C9 as first worded fails: loading the blob saved right after the first
    Start press into a later state of the same process takes the high score
    from 50 back to 0, and a load is not the explicit clear. *)
Lemma load_lowers_highscore : ~ highscore_never_decreases sample_gate.
Proof.
  intros H.
  pose proof (H (OpLoad saved_blob retro_serialize_size) rich_game [] loaded_game []
                loaded_game_run eq_refl) as Hle.
  vm_compute in Hle. apply Hle. reflexivity.
Qed.

(** ** The buffered direction across a load *)

Lemma retro_unserialize_frame (g : game) (data : list Z) (size : Z) (g' : game) :
  retro_unserialize g data size = inr (true, g') ->
  pending_dir g' = pending_dir g /\ particles g' = particles g
  /\ obstacle g' = obstacle g /\ obstacle_count g' = obstacle_count g
  /\ prev_start g' = prev_start g /\ prev_select g' = prev_select g.
Proof.
  unfold retro_unserialize. cbv zeta.
  destruct (size <? retro_serialize_size); [discriminate|].
  repeat match goal with
    | |- context [memcpy_in ?n ?c] =>
        destruct (memcpy_in n c) as [?|[? ?]]; [discriminate|]; cbn [fst snd]
    | |- context [enum_of_bytes ?f ?b] =>
        destruct (enum_of_bytes f b) as [?|?]; [discriminate|]
    end.
  match goal with
  | |- inr (true, ?t) = _ -> _ =>
      assert (F : pending_dir t = pending_dir g /\ particles t = particles g
                  /\ obstacle t = obstacle g /\ obstacle_count t = obstacle_count g
                  /\ prev_start t = prev_start g /\ prev_select t = prev_select g)
        by (repeat split; reflexivity);
      set (r := t) in *; clearbody r
  end.
  intros H. assert (E : r = g') by congruence. rewrite <- E. exact F.
Qed.

Lemma leftward_game_run :
  (let* g := handle_input press_up started_game in
   let* g := update_snake sample_gate g in
   let* g := handle_input press_left g in
   update_snake sample_gate g) [] = Some (leftward_game, []).
Proof. vm_compute. reflexivity. Qed.

Lemma leftward_game_reached : reachable sample_gate leftward_game.
Proof.
  pose proof leftward_game_run as H.
  apply bind_Some in H as (g1 & ds1 & H1 & H).
  apply bind_Some in H as (g2 & ds2 & H2 & H).
  apply bind_Some in H as (g3 & ds3 & H3 & H4).
  eapply reach_tick; [|exact H4].
  eapply reach_input; [|exact H3].
  eapply reach_tick; [|exact H2].
  eapply reach_input; [|exact H1].
  exact started_game_reachable.
Qed.

Lemma leftward_blob_run :
  retro_serialize leftward_game roomy_buffer retro_serialize_size
  = inr (true, leftward_blob).
Proof. vm_compute. reflexivity. Qed.

Lemma crossed_game_run :
  retro_unserialize started_game leftward_blob retro_serialize_size
  = inr (true, crossed_game).
Proof. vm_compute. reflexivity. Qed.

(** C8 (the source departs from it). The loading of a save state breaks the
    invariant.  [retro_unserialize] overwrites the current direction with the
    one in the blob and never touches the pending direction, which
    [retro_serialize] does not store.  A game played to the point where the
    snake heads left (head on (19, 14), neck on (20, 14)) satisfies the
    invariant and is saved; the blob is loaded while the freshly started
    game is running, which satisfies the invariant too and buffers Right.
    After the load the state is Playing, the current direction is Left and
    the pending direction is Right, its reverse; the next tick adopts Right,
    steps onto the neck and ends the game. *)
Theorem load_reverses_pending_direction :
  (forall g data size g1,
     retro_unserialize g data size = inr (true, g1) -> pending_dir g1 = pending_dir g)
  /\ reachable sample_gate leftward_game /\ no_reversal leftward_game
  /\ retro_serialize leftward_game roomy_buffer retro_serialize_size
     = inr (true, leftward_blob)
  /\ reachable sample_gate started_game /\ no_reversal started_game
  /\ retro_unserialize started_game leftward_blob retro_serialize_size
     = inr (true, crossed_game)
  /\ state crossed_game = STATE_PLAY
  /\ snake_dir crossed_game = DIR_LEFT /\ pending_dir crossed_game = DIR_RIGHT
  /\ ~ no_reversal crossed_game
  /\ head_cell crossed_game = (19, 14) /\ snake_cell crossed_game 1 = (20, 14)
  /\ tick_candidate crossed_game = (20, 14)
  /\ exists g', update_snake sample_gate crossed_game [] = Some (g', [])
                /\ state g' = STATE_GAMEOVER.
Proof.
  split.
  { intros g data size g1 H. exact (proj1 (retro_unserialize_frame g data size g1 H)). }
  split; [exact leftward_game_reached|].
  split; [vm_compute; discriminate|].
  split; [exact leftward_blob_run|].
  split; [exact started_game_reachable|].
  split; [vm_compute; discriminate|].
  split; [exact crossed_game_run|].
  split; [vm_compute; reflexivity|].
  split; [vm_compute; reflexivity|].
  split; [vm_compute; reflexivity|].
  split; [intros H; apply H; vm_compute; reflexivity|].
  split; [vm_compute; reflexivity|].
  split; [vm_compute; reflexivity|].
  split; [vm_compute; reflexivity|].
  eexists. split; vm_compute; reflexivity.
Qed.

(** * Further properties of the simulation *)

(** ** The body after a committed tick *)

Lemma aget_shift_body (n : nat) (a : list Z) (i : Z) :
  (n < length a)%nat ->
  aget (shift_body n a) i
  = if (1 <=? i) && (i <=? Z.of_nat n) then aget a (i - 1) else aget a i.
Proof.
  revert a. induction n as [|n IH]; intros a Hlen.
  - simpl shift_body.
    destruct (Z.leb_spec 1 i); destruct (Z.leb_spec i (Z.of_nat 0)); simpl;
      try reflexivity; lia.
  - simpl shift_body. rewrite IH by (rewrite length_aset; lia).
    destruct (Z.leb_spec 1 i); destruct (Z.leb_spec i (Z.of_nat n));
      destruct (Z.leb_spec i (Z.of_nat (S n))); simpl; try lia.
    + apply aget_aset_ne. lia.
    + assert (i = Z.of_nat (S n)) as -> by lia.
      rewrite aget_aset_eq by lia. f_equal. lia.
    + apply aget_aset_ne. lia.
    + apply aget_aset_ne. lia.
Qed.

Lemma after_commit_field (gate : Z -> bool) (g : game) ds g' ds' :
  after_commit gate g ds = Some (g', ds') ->
  let c := tick_candidate g in
  let g2 := commit_move (fst c) (snd c) (turned g) in
  (c <> (food_x g, food_y g) /\ same_field g2 g')
  \/ (c = (food_x g, food_y g) /\ same_field (grow g2) g').
Proof.
  intros H. apply after_commit_inv in H. cbv zeta in *.
  set (g2 := commit_move _ _ _) in *.
  destruct H as (g3 & [[Hne ->] | (Heq & ps & fx & fy & t & ix & iy & _ & _ & ->)] & Hg').
  - left. split; [exact Hne|].
    destruct Hg' as [-> | (_ & ps & ->)]; same_field_tac.
  - right. split; [exact Heq|].
    destruct Hg' as [-> | (_ & ps' & ->)]; same_field_tac.
Qed.

Lemma commit_move_cells (g : game) (x y : Z) :
  arrays_sized g -> 1 <= snake_length g <= MAX_SNAKE_LENGTH ->
  let g2 := commit_move x y g in
  head_cell g2 = (x, y)
  /\ (forall i, 1 <= i < snake_length g -> snake_cell g2 i = snake_cell g (i - 1))
  /\ (forall i, snake_length g <= i -> snake_cell g2 i = snake_cell g i).
Proof.
  intros (Lx & Ly & _) Hlen. cbv zeta.
  assert (Hn : (Z.to_nat (snake_length g - 1) < Z.to_nat MAX_SNAKE_LENGTH)%nat).
  { unfold MAX_SNAKE_LENGTH, GRID_W, GRID_H in *. lia. }
  split; [|split].
  - apply commit_move_head; [rewrite Lx | rewrite Ly];
      unfold MAX_SNAKE_LENGTH, GRID_W, GRID_H; lia.
  - intros i Hi. unfold snake_cell, commit_move. simpl.
    rewrite !aget_aset_ne by lia.
    rewrite !aget_shift_body by (rewrite ?Lx, ?Ly; exact Hn).
    destruct (Z.leb_spec 1 i); [|lia].
    destruct (Z.leb_spec i (Z.of_nat (Z.to_nat (snake_length g - 1)))); [|lia].
    reflexivity.
  - intros i Hi. unfold snake_cell, commit_move. simpl.
    rewrite !aget_aset_ne by lia.
    rewrite !aget_shift_body by (rewrite ?Lx, ?Ly; exact Hn).
    destruct (Z.leb_spec 1 i); [|lia].
    destruct (Z.leb_spec i (Z.of_nat (Z.to_nat (snake_length g - 1)))); [lia|].
    reflexivity.
Qed.

Lemma grow_cells (g : game) :
  length (snake_x g) = Z.to_nat MAX_SNAKE_LENGTH ->
  length (snake_y g) = Z.to_nat MAX_SNAKE_LENGTH ->
  1 <= snake_length g < MAX_SNAKE_LENGTH ->
  snake_length (grow g) = snake_length g + 1
  /\ (forall i, i <> snake_length g -> snake_cell (grow g) i = snake_cell g i)
  /\ snake_cell (grow g) (snake_length g) = snake_cell g (snake_length g - 1).
Proof.
  intros Lx Ly Hlen. unfold grow, snake_cell.
  destruct (Z.ltb_spec (snake_length g) MAX_SNAKE_LENGTH); [|lia]. simpl.
  split; [reflexivity|]. split.
  - intros i Hi. rewrite !aget_aset_ne by lia. reflexivity.
  - replace (snake_length g + 1 - 1) with (snake_length g) by lia.
    replace (snake_length g + 1 - 2) with (snake_length g - 1) by lia.
    rewrite !aget_aset_eq by (rewrite ?Lx, ?Ly; lia). reflexivity.
Qed.

Lemma snake_cell_same_field (g g' : game) (i : Z) :
  same_field g g' -> snake_cell g' i = snake_cell g i.
Proof. intros (Ex & Ey & _). unfold snake_cell. rewrite Ex, Ey. reflexivity. Qed.

(** X1. A tick that commits its move puts the candidate cell at the head and
    shifts every body cell one index towards the tail; cells past the old
    length are left alone, except that a tick onto the food cell below the
    maximum length appends a copy of the new tail cell. *)
Theorem committed_tick_moves_body (gate : Z -> bool) (g : game) ds g' ds' :
  arrays_sized g ->
  1 <= snake_length g <= MAX_SNAKE_LENGTH ->
  ~ fatal_collision g ->
  update_snake gate g ds = Some (g', ds') ->
  let n := snake_length g in
  head_cell g' = tick_candidate g
  /\ (forall i, 1 <= i < n -> snake_cell g' i = snake_cell g (i - 1))
  /\ (forall i, n < i -> snake_cell g' i = snake_cell g i)
  /\ ((snake_length g' = n /\ snake_cell g' n = snake_cell g n)
      \/ (snake_length g' = n + 1
          /\ tick_candidate g = (food_x g, food_y g)
          /\ snake_cell g' n = snake_cell g' (n - 1))).
Proof.
  intros Hs Hlen Hnf H. cbv zeta.
  assert (Hf : fatalb g = false).
  { destruct (fatalb g) eqn:E; [|reflexivity]. apply fatalb_spec in E. tauto. }
  rewrite update_snake_commit in H by exact Hf.
  apply after_commit_field in H. cbv zeta in H.
  assert (Hs2 : arrays_sized (turned g)) by exact Hs.
  destruct (commit_move_cells (turned g) (tick_candidate g).1 (tick_candidate g).2
              Hs2 Hlen) as (Hh & Hb & Ho).
  set (g2 := commit_move _ _ _) in *.
  change (snake_length (turned g)) with (snake_length g) in *.
  change (snake_cell (turned g)) with (snake_cell g) in *.
  assert (Hc : ((tick_candidate g).1, (tick_candidate g).2) = tick_candidate g)
    by (destruct (tick_candidate g); reflexivity).
  rewrite Hc in Hh.
  assert (L2 : length (snake_x g2) = Z.to_nat MAX_SNAKE_LENGTH
               /\ length (snake_y g2) = Z.to_nat MAX_SNAKE_LENGTH).
  { destruct Hs as (Lx & Ly & _). unfold g2, commit_move. simpl.
    rewrite !length_aset, !length_shift_body. tauto. }
  destruct H as [[Hne Hsame] | [Heq Hsame]].
  - pose proof (fun i => snake_cell_same_field g2 g' i Hsame) as Hcell.
    destruct Hsame as (_ & _ & El & _).
    unfold head_cell in *. rewrite !Hcell.
    split; [exact Hh|]. split; [intros i Hi; rewrite Hcell; apply Hb; exact Hi|].
    split; [intros i Hi; rewrite Hcell; apply Ho; lia|].
    left. split; [exact El | apply Ho; lia].
  - pose proof (fun i => snake_cell_same_field (grow g2) g' i Hsame) as Hcell.
    destruct Hsame as (_ & _ & El & _).
    destruct (Z.ltb_spec (snake_length g) MAX_SNAKE_LENGTH) as [Hlt | Hge].
    + destruct (grow_cells g2 (proj1 L2) (proj2 L2)) as (Gl & Go & Gn);
        [change (snake_length g2) with (snake_length g); lia|].
      change (snake_length g2) with (snake_length g) in *.
      unfold head_cell in *. rewrite !Hcell.
      split; [rewrite Go by lia; exact Hh|].
      split; [intros i Hi; rewrite Hcell, Go by lia; apply Hb; exact Hi|].
      split; [intros i Hi; rewrite Hcell, Go by lia; apply Ho; lia|].
      right. split; [lia|]. split; [exact Heq|].
      rewrite Gn. symmetry. apply Go. lia.
    + assert (Eg : grow g2 = g2).
      { unfold grow. change (snake_length g2) with (snake_length g).
        destruct (Z.ltb_spec (snake_length g) MAX_SNAKE_LENGTH); [lia | reflexivity]. }
      rewrite Eg in *.
      unfold head_cell in *. rewrite !Hcell.
      split; [exact Hh|]. split; [intros i Hi; rewrite Hcell; apply Hb; exact Hi|].
      split; [intros i Hi; rewrite Hcell; apply Ho; lia|].
      left. split; [exact El | apply Ho; lia].
Qed.

(** ** What a tick runs, step by step *)

Lemma eat_food_steps (gate : Z -> bool) (g : game) ds g' ds' :
  eat_food gate g ds = Some (g', ds') ->
  exists ps ds1 fx fy ds2,
    spawn_particles_loop (particles (add_score (grow g))) ds = Some (ps, ds1)
    /\ let g1 := set_particles ps (add_score (grow g)) in
       in_grid fx fy /\ cell_free g1 fx fy
       /\ spawn_item gate (set_food_y fy (set_food_x fx g1)) ds2 = Some (g', ds').
Proof.
  unfold eat_food. intros H.
  apply bind_Some in H as (ga & ds1 & Hp & H).
  apply bind_Some in H as (gb & ds2 & Hf & Hi).
  unfold spawn_particles in Hp. apply bind_Some in Hp as (ps & ds1' & Hl & Hr).
  apply ret_Some in Hr. inversion Hr; subst ga ds1'. clear Hr.
  apply spawn_food_inv in Hf as (fx & fy & Hc & ->).
  apply random_free_cell_inv in Hc as (Hc & Hg & _).
  exists ps, ds1, fx, fy, ds2. split; [exact Hl|]. cbv zeta.
  split; [exact Hg|]. split; [apply cell_collides_false; assumption | exact Hi].
Qed.

Lemma take_item_steps (g : game) ds g' ds' :
  take_item g ds = Some (g', ds') ->
  exists ps,
    spawn_particles_loop (particles (start_effect g)) ds = Some (ps, ds')
    /\ g' = set_item_type ITEM_NONE (set_particles ps (start_effect g)).
Proof.
  unfold take_item, spawn_particles. intros H.
  apply bind_Some in H as (ga & ds1 & Hp & H).
  apply bind_Some in Hp as (ps & ds1' & Hl & Hr).
  apply ret_Some in Hr. inversion Hr; subst ga ds1'. clear Hr.
  apply ret_Some in H. inversion H; subst g' ds'. clear H.
  exists ps. split; [exact Hl | reflexivity].
Qed.

Lemma after_commit_steps (gate : Z -> bool) (g : game) ds g' ds' :
  after_commit gate g ds = Some (g', ds') ->
  let c := tick_candidate g in
  let g2 := commit_move (fst c) (snd c) (turned g) in
  exists g3 ds3,
    ((c <> (food_x g, food_y g) /\ g3 = g2 /\ ds3 = ds)
     \/ (c = (food_x g, food_y g) /\ eat_food gate g2 ds = Some (g3, ds3)))
    /\ ((~ on_item g3 (fst c) (snd c) /\ g' = g3 /\ ds' = ds3)
        \/ (on_item g3 (fst c) (snd c) /\ take_item g3 ds3 = Some (g', ds'))).
Proof.
  unfold after_commit. cbv zeta. intros H.
  apply bind_Some in H as (g3 & ds3 & Hfirst & Hsecond).
  exists g3, ds3. split.
  - destruct (_ && _) eqn:Hfood in Hfirst.
    + right. apply andb_true_iff in Hfood as [Hx Hy].
      apply Z.eqb_eq in Hx. apply Z.eqb_eq in Hy. simpl in Hx, Hy.
      split; [destruct (tick_candidate g); simpl in *; congruence | exact Hfirst].
    + left. apply ret_Some in Hfirst. inversion Hfirst; subst g3 ds3.
      split; [|split; reflexivity].
      apply andb_false_iff in Hfood. simpl in Hfood.
      rewrite !Z.eqb_neq in Hfood. intros E. rewrite E in Hfood. simpl in Hfood. tauto.
  - destruct (item_occupies _ _ _) eqn:Hitem in Hsecond.
    + right. split; [apply item_occupies_spec; exact Hitem | exact Hsecond].
    + left. apply ret_Some in Hsecond. inversion Hsecond; subst g' ds'.
      split; [|split; reflexivity].
      rewrite <- item_occupies_spec. congruence.
Qed.

(** ** Particles *)

Lemma spawn_particles_loop_spec (ps : list particle_t) ds ps' ds' :
  spawn_particles_loop ps ds = Some (ps', ds') ->
  length ps' = length ps
  /\ (forall i p, ps !! i = Some p -> active p = true -> ps' !! i = Some p)
  /\ (forall i p', ps' !! i = Some p' ->
        ps !! i = Some p'
        \/ (exists p, ps !! i = Some p /\ active p = false)
           /\ active p' = true /\ 30 <= lifetime p' <= 59).
Proof.
  revert ds ps' ds'. induction ps as [|p ps IH]; intros ds ps' ds' H; simpl in H.
  - apply ret_Some in H. inversion H; subst. repeat split; intros; discriminate.
  - destruct (active p) eqn:Ha.
    + apply bind_Some in H as (rest' & ds1 & Hr & H).
      apply ret_Some in H. inversion H; subst ps' ds'. clear H.
      destruct (IH _ _ _ Hr) as (Hl & Hk & Hn).
      split; [simpl; congruence|]. split.
      * intros [|i] q Hq Hact; simpl in *; [exact Hq | eapply Hk; eassumption].
      * intros [|i] q Hq; simpl in *; [left; exact Hq | apply Hn; exact Hq].
    + apply bind_Some in H as (r1 & ds1 & _ & H).
      apply bind_Some in H as (r2 & ds2 & _ & H).
      apply bind_Some in H as (l & ds3 & Hrl & H).
      apply bind_Some in H as (coin & ds4 & _ & H).
      assert (Hlife : 30 <= 30 + Z.rem l 30 <= 59).
      { unfold rand in Hrl. destruct ds2 as [|d ds2']; [discriminate|].
        inversion Hrl; subst. pose proof (rem_range d 30). lia. }
      destruct (Z.rem coin 2 =? 0).
      * apply ret_Some in H. inversion H; subst ps' ds'. clear H.
        split; [reflexivity|]. split.
        -- intros [|i] q Hq Hact; simpl in *; [congruence | exact Hq].
        -- intros [|i] q Hq; simpl in *; [|left; exact Hq].
           inversion Hq; subst q. right. split; [exists p; tauto|]. simpl. tauto.
      * apply bind_Some in H as (rest' & ds5 & Hr & H).
        apply ret_Some in H. inversion H; subst ps' ds'. clear H.
        destruct (IH _ _ _ Hr) as (Hl & Hk & Hn).
        split; [simpl; congruence|]. split.
        -- intros [|i] q Hq Hact; simpl in *; [congruence | eapply Hk; eassumption].
        -- intros [|i] q Hq; simpl in *; [|apply Hn; exact Hq].
           inversion Hq; subst q. right. split; [exists p; tauto|]. simpl. tauto.
Qed.

Lemma spawn_particles_loop_fresh (ps : list particle_t) ds ps' ds' :
  spawn_particles_loop ps ds = Some (ps', ds') ->
  Forall particle_fresh ps -> Forall particle_fresh ps'.
Proof.
  intros H Hf. apply spawn_particles_loop_spec in H as (_ & _ & Hn).
  apply Forall_lookup. intros i p' Hp'.
  destruct (Hn i p' Hp') as [Hold | (_ & _ & Hl)].
  - eapply Forall_lookup_1; eassumption.
  - intros _. lia.
Qed.

Lemma update_particle_fresh (p : particle_t) :
  particle_fresh p -> particle_fresh (update_particle p).
Proof.
  unfold particle_fresh, update_particle. intros Hp.
  destruct (active p) eqn:Ha; [|rewrite Ha; discriminate].
  specialize (Hp eq_refl). simpl.
  rewrite wrap_int_id by (unfold is_int, INT_MIN, INT_MAX; lia).
  destruct (Z.leb_spec (lifetime p - 1) 0); simpl; [discriminate | lia].
Qed.

(** ** The invariant of the simulation state *)

Lemma on_snake_same_field (g g' : game) (x y : Z) :
  same_field g g' -> on_snake g' x y -> on_snake g x y.
Proof.
  intros Hs (i & Hi & Hc). destruct Hs as (Ex & Ey & El & _).
  exists i. unfold snake_cell in *. rewrite <- Ex, <- Ey, <- El. tauto.
Qed.

Lemma same_field_sym (g g' : game) : same_field g g' -> same_field g' g.
Proof. unfold same_field. intuition congruence. Qed.

Lemma cells_interior_same_field (g g' : game) :
  same_field g g' -> cells_interior g -> cells_interior g'.
Proof.
  intros Hs Hc i Hi. rewrite (snake_cell_same_field g g' i Hs). apply Hc.
  destruct Hs as (_ & _ & <- & _). exact Hi.
Qed.

Lemma on_snake_commit_move (g : game) (x y a b : Z) :
  arrays_sized g -> 1 <= snake_length g <= MAX_SNAKE_LENGTH ->
  on_snake (commit_move x y g) a b -> (a, b) = (x, y) \/ on_snake g a b.
Proof.
  intros Hs Hl (i & Hi & Hc).
  destruct (commit_move_cells g x y Hs Hl) as (Hh & Hb & _).
  change (snake_length (commit_move x y g)) with (snake_length g) in Hi.
  destruct (decide (i = 0)) as [-> | Hne].
  - left. unfold head_cell in Hh. congruence.
  - right. exists (i - 1). split; [lia|]. rewrite <- Hb by lia. exact Hc.
Qed.

Lemma on_snake_grow (g : game) (a b : Z) :
  length (snake_x g) = Z.to_nat MAX_SNAKE_LENGTH ->
  length (snake_y g) = Z.to_nat MAX_SNAKE_LENGTH ->
  1 <= snake_length g ->
  on_snake (grow g) a b -> on_snake g a b.
Proof.
  intros Lx Ly Hl (i & Hi & Hc).
  destruct (Z.ltb_spec (snake_length g) MAX_SNAKE_LENGTH) as [Hlt | Hge].
  - destruct (grow_cells g Lx Ly) as (Gl & Go & Gn); [lia|].
    rewrite Gl in Hi. destruct (decide (i = snake_length g)) as [-> | Hne].
    + exists (snake_length g - 1). split; [lia | congruence].
    + exists i. split; [lia|]. rewrite <- Go by exact Hne. exact Hc.
  - assert (Eg : grow g = g).
    { unfold grow. destruct (Z.ltb_spec (snake_length g) MAX_SNAKE_LENGTH);
        [lia | reflexivity]. }
    rewrite Eg in *. exists i. tauto.
Qed.

Lemma cells_interior_commit_move (g : game) (x y : Z) :
  arrays_sized g -> 1 <= snake_length g <= MAX_SNAKE_LENGTH ->
  cells_interior g -> strictly_inside (x, y) ->
  cells_interior (commit_move x y g).
Proof.
  intros Hs Hl Hc Hxy i Hi.
  destruct (commit_move_cells g x y Hs Hl) as (Hh & Hb & _).
  change (snake_length (commit_move x y g)) with (snake_length g) in Hi.
  destruct (decide (i = 0)) as [-> | Hne].
  - unfold head_cell in Hh. rewrite Hh. exact Hxy.
  - rewrite Hb by lia. apply Hc. lia.
Qed.

Lemma cells_interior_grow (g : game) :
  length (snake_x g) = Z.to_nat MAX_SNAKE_LENGTH ->
  length (snake_y g) = Z.to_nat MAX_SNAKE_LENGTH ->
  1 <= snake_length g ->
  cells_interior g -> cells_interior (grow g).
Proof.
  intros Lx Ly Hl Hc i Hi.
  destruct (Z.ltb_spec (snake_length g) MAX_SNAKE_LENGTH) as [Hlt | Hge].
  - destruct (grow_cells g Lx Ly) as (Gl & Go & Gn); [lia|].
    rewrite Gl in Hi. destruct (decide (i = snake_length g)) as [-> | Hne].
    + rewrite Gn. apply Hc. lia.
    + rewrite Go by exact Hne. apply Hc. lia.
  - assert (Eg : grow g = g).
    { unfold grow. destruct (Z.ltb_spec (snake_length g) MAX_SNAKE_LENGTH);
        [lia | reflexivity]. }
    rewrite Eg in *. apply Hc. exact Hi.
Qed.

Lemma settled_same_sim (g g' : game) : same_sim g g' -> settled g -> settled g'.
Proof.
  intros (Hf & Efx & Efy & Eit & Eix & Eiy & Ep & Es & _ & Epa)
         (Hp & (Hl & Hpt & Hst) & Hc & (Hfg & Hfs) & Hi & Hpf).
  pose proof Hf as (Ex & Ey & El & Eo).
  split; [eapply playable_same_field; eassumption|].
  split; [unfold counters_bounded; rewrite El, Ep, Es; tauto|].
  split; [eapply cells_interior_same_field; eassumption|].
  split; [unfold food_placed; rewrite Efx, Efy; split; [exact Hfg|];
          intros Ho; apply Hfs; eapply on_snake_same_field; eassumption|].
  split; [|rewrite Epa; exact Hpf].
  unfold item_placed, obstacle_at. rewrite Eit, Eix, Eiy, Eo. intros Hn.
  destruct (Hi Hn) as (H1 & H2 & H3). split; [exact H1|]. split; [|exact H3].
  intros Ho; apply H2; eapply on_snake_same_field; eassumption.
Qed.

Ltac same_sim_tac :=
  unfold same_sim, same_field, start_effect, add_score, turned, press_select, turn,
    update_particles, frame_prelude;
  repeat case_match; simpl; repeat split; reflexivity.

Lemma obstacle_free_0 (g : game) (x y : Z) :
  in_grid x y -> ~ on_obstacle g x y -> obstacle_at g x y = 0.
Proof.
  intros Hg Hn. destruct (decide (obstacle_at g x y = 0)) as [E | E]; [exact E|].
  exfalso. apply Hn. split; assumption.
Qed.

Lemma set_particles_same_field (g : game) (ps : list particle_t) :
  same_field (set_particles ps g) g.
Proof. repeat split. Qed.

(** The globals that growing and scoring leave alone. *)
Lemma grown_scored_fields (g : game) :
  let a := add_score (grow g) in
  same_field (grow g) a
  /\ phase_timer a = phase_timer g /\ speed_timer a = speed_timer g
  /\ item_type a = item_type g /\ item_x a = item_x g /\ item_y a = item_y g
  /\ obstacle a = obstacle g /\ particles a = particles g
  /\ food_x a = food_x g /\ food_y a = food_y g.
Proof.
  cbv zeta. unfold same_field, add_score, grow.
  repeat case_match; simpl; repeat split; reflexivity.
Qed.

Section TickInvariant.

Variable gate : Z -> bool.

Lemma commit_mid_tick (g : game) :
  settled g -> fatalb g = false ->
  let c := tick_candidate g in
  let g2 := commit_move (fst c) (snd c) (turned g) in
  strictly_inside c
  /\ (forall a b, on_snake g2 a b -> (a, b) = c \/ on_snake g a b)
  /\ (c <> (food_x g, food_y g) -> mid_tick g2 c).
Proof.
  intros (Hp & (Hl & Hpt & Hst) & Hc & (Hfg & Hfs) & Hi & Hpf) Hf. cbv zeta.
  pose proof (commit_move_playable g Hp Hf) as Hp2.
  set (c := tick_candidate g) in *.
  set (g2 := commit_move (fst c) (snd c) (turned g)) in *.
  assert (Hpair : (c.1, c.2) = c) by (destruct c; reflexivity).
  assert (Hs2 : arrays_sized (turned g)) by exact (proj1 Hp).
  assert (Hl2 : 1 <= snake_length (turned g) <= MAX_SNAKE_LENGTH)
    by (change (snake_length (turned g)) with (snake_length g); lia).
  assert (Hin : strictly_inside c).
  { destruct Hp2 as (_ & _ & _ & Hh). unfold head_interior in Hh.
    destruct (commit_move_cells (turned g) c.1 c.2 Hs2 Hl2) as (Hh2 & _).
    fold g2 in Hh2. rewrite Hh2 in Hh. rewrite <- Hpair. exact Hh. }
  assert (Hon : forall a b, on_snake g2 a b -> (a, b) = c \/ on_snake g a b).
  { intros a b Ho. rewrite <- Hpair.
    apply (on_snake_commit_move (turned g) c.1 c.2 a b Hs2 Hl2 Ho). }
  split; [exact Hin|]. split; [exact Hon|]. intros Hne.
  split; [exact Hp2|].
  split; [exact (conj Hl (conj Hpt Hst))|].
  split.
  { apply (cells_interior_commit_move (turned g)); assumption. }
  split.
  { split; [exact Hfg|]. intros Ho.
    destruct (Hon _ _ Ho) as [E | Ho']; [apply Hne; symmetry; exact E | exact (Hfs Ho')]. }
  split; [|exact Hpf].
  intros Hn. destruct (Hi Hn) as (H1 & H2 & H3).
  split; [exact H1|]. split; [exact H3|]. intros Ho.
  destruct (Hon _ _ Ho) as [E | Ho']; [exact E | contradiction].
Qed.

Lemma eat_mid_core (g a : game) (c : Z * Z) ps fx fy ds2 g3 ds3 :
  item_placed g ->
  playable a -> cells_interior a ->
  3 <= snake_length a <= MAX_SNAKE_LENGTH ->
  0 <= phase_timer a <= PHASE_DURATION ->
  0 <= speed_timer a <= SPEED_DURATION ->
  (forall x y, on_snake a x y -> (x, y) = c \/ on_snake g x y) ->
  item_type a = item_type g -> item_x a = item_x g -> item_y a = item_y g ->
  obstacle a = obstacle g ->
  Forall particle_fresh ps ->
  in_grid fx fy -> ~ on_snake a fx fy ->
  spawn_item gate (set_food_y fy (set_food_x fx (set_particles ps a))) ds2
  = Some (g3, ds3) ->
  mid_tick g3 c.
Proof.
  intros Hi HpA HcA HlA Hpt Hst HonA Ait Aix Aiy Ao Hps Hgrid Hfree Hitem.
  assert (Hmid : forall g4 : game,
             same_field a g4 ->
             phase_timer g4 = phase_timer a -> speed_timer g4 = speed_timer a ->
             food_x g4 = fx -> food_y g4 = fy -> particles g4 = ps ->
             item_ahead g4 c -> mid_tick g4 c).
  { intros g4 Hs4 E1 E2 E3 E4 E5 Hia.
    split; [eapply playable_same_field; eassumption|].
    split.
    { unfold counters_bounded. destruct Hs4 as (_ & _ & -> & _). rewrite E1, E2. tauto. }
    split; [eapply cells_interior_same_field; eassumption|].
    split.
    { unfold food_placed. rewrite E3, E4. split; [exact Hgrid|].
      intros Ho. apply Hfree. exact (on_snake_same_field a g4 fx fy Hs4 Ho). }
    split; [exact Hia | rewrite E5; exact Hps]. }
  set (gb := set_food_y fy (set_food_x fx (set_particles ps a))) in *.
  assert (Hsb : same_field a gb) by (unfold gb; repeat split).
  apply spawn_item_cases in Hitem
    as [-> | (_ & t & x & y & dsr & Ht & Hcell & ->)].
  - apply Hmid; try assumption; try reflexivity.
    unfold item_ahead, obstacle_at.
    change (item_type gb) with (item_type a). change (item_x gb) with (item_x a).
    change (item_y gb) with (item_y a). change (obstacle gb) with (obstacle a).
    rewrite Ait, Aix, Aiy, Ao. intros Hn.
    destruct (Hi Hn) as (H1 & H2 & H3). split; [exact H1|]. split; [exact H3|].
    intros Ho. apply (on_snake_same_field gb a) in Ho; [|apply same_field_sym, Hsb].
    destruct (HonA _ _ Ho) as [E | Ho']; [exact E | contradiction].
  - apply random_free_cell_inv in Hcell as (Hcol & Hg & _).
    pose proof (cell_collides_false _ _ _ Hg Hcol) as (Hns & Hno & _).
    pose proof (obstacle_free_0 _ _ _ Hg Hno) as Hob.
    apply Hmid; try assumption; try reflexivity.
    intros _. split; [exact Hg|]. split; [exact Hob|].
    intros Ho. exfalso. apply Hns. exact Ho.
Qed.

Lemma eat_mid_tick (g : game) ds g3 ds3 :
  settled g -> fatalb g = false ->
  let c := tick_candidate g in
  let g2 := commit_move (fst c) (snd c) (turned g) in
  eat_food gate g2 ds = Some (g3, ds3) ->
  mid_tick g3 c.
Proof.
  intros Hset Hf. cbv zeta. intros He.
  destruct (commit_mid_tick g Hset Hf) as (Hin & Hon & _).
  destruct Hset as (Hp & (Hl & Hpt & Hst) & Hc & (Hfg & Hfs) & Hi & Hpf).
  pose proof (commit_move_playable g Hp Hf) as Hp2.
  assert (Hpair : ((tick_candidate g).1, (tick_candidate g).2) = tick_candidate g)
    by (destruct (tick_candidate g); reflexivity).
  assert (Hs2 : arrays_sized (turned g)) by exact (proj1 Hp).
  assert (Hl2 : 1 <= snake_length (turned g) <= MAX_SNAKE_LENGTH).
  { replace (snake_length (turned g)) with (snake_length g) by reflexivity. lia. }
  pose proof (cells_interior_commit_move (turned g) _ _ Hs2 Hl2 Hc Hin) as Hc2.
  pose proof Hp2 as ((Lx2 & Ly2 & _) & Hl2' & _).
  pose proof (grow_playable _ Hp2) as HpG.
  pose proof (cells_interior_grow _ Lx2 Ly2 Hl2' Hc2) as HcG.
  pose proof (grow_length (commit_move (tick_candidate g).1 (tick_candidate g).2 (turned g)))
    as HlG.
  replace (snake_length (commit_move (tick_candidate g).1 (tick_candidate g).2 (turned g)))
    with (snake_length g) in HlG by reflexivity.
  destruct (grown_scored_fields
              (commit_move (tick_candidate g).1 (tick_candidate g).2 (turned g)))
    as (HsA & Ap & As & Ait & Aix & Aiy & Ao & Apa & _).
  apply eat_food_steps in He as (ps & ds1 & fx & fy & ds2 & Hloop & Hgrid & Hfree & Hitem).
  rewrite Apa in Hloop.
  eapply (eat_mid_core g _ (tick_candidate g) ps fx fy ds2 g3 ds3 Hi);
    [ | | | | | | | | | | | | | exact Hitem].
  - eapply playable_same_field; [exact HsA | exact HpG].
  - eapply cells_interior_same_field; [exact HsA | exact HcG].
  - destruct HsA as (_ & _ & -> & _). rewrite HlG.
    destruct (Z.ltb_spec (snake_length g) MAX_SNAKE_LENGTH); lia.
  - rewrite Ap. exact Hpt.
  - rewrite As. exact Hst.
  - intros x y Ho. apply Hon.
    apply on_snake_grow; try assumption.
    eapply on_snake_same_field; [exact HsA | exact Ho].
  - rewrite Ait. reflexivity.
  - rewrite Aix. reflexivity.
  - rewrite Aiy. reflexivity.
  - rewrite Ao. reflexivity.
  - exact (spawn_particles_loop_fresh _ _ _ _ Hloop Hpf).
  - exact Hgrid.
  - intros Ho. destruct Hfree as [Hfree _]. apply Hfree.
    eapply on_snake_same_field; [apply set_particles_same_field | exact Ho].
Qed.

Lemma finish_settled (g3 : game) (c : Z * Z) ds3 g' ds' :
  mid_tick g3 c ->
  (~ on_item g3 (fst c) (snd c) /\ g' = g3 /\ ds' = ds3)
  \/ (on_item g3 (fst c) (snd c) /\ take_item g3 ds3 = Some (g', ds')) ->
  settled g'.
Proof.
  intros (Hp & (Hl & Hpt & Hst) & Hc & (Hfg & Hfs) & Hia & Hpf) [(Hn & -> & _) | (Ho & Ht)].
  - split; [exact Hp|]. split; [exact (conj Hl (conj Hpt Hst))|].
    split; [exact Hc|]. split; [exact (conj Hfg Hfs)|]. split; [|exact Hpf].
    intros Hne. destruct (Hia Hne) as (H1 & H2 & H3).
    split; [exact H1|]. split; [|exact H2].
    intros Hs. apply Hn. specialize (H3 Hs). unfold on_item.
    destruct c as [cx cy]. simpl. inversion H3. tauto.
  - apply take_item_steps in Ht as (ps & Hloop & ->).
    assert (Hpart : particles (start_effect g3) = particles g3).
    { unfold start_effect. case_match; reflexivity. }
    rewrite Hpart in Hloop.
    pose proof (spawn_particles_loop_fresh _ _ _ _ Hloop Hpf) as Hps.
    assert (Hsame : same_field g3 (set_item_type ITEM_NONE
                                     (set_particles ps (start_effect g3))))
      by same_field_tac.
    split; [eapply playable_same_field; eassumption|].
    split.
    { unfold counters_bounded, start_effect, PHASE_DURATION, SPEED_DURATION in *.
      case_match; simpl; lia. }
    split; [eapply cells_interior_same_field; eassumption|].
    split.
    { assert (Ef : food_x (set_item_type ITEM_NONE (set_particles ps (start_effect g3)))
                   = food_x g3
                   /\ food_y (set_item_type ITEM_NONE (set_particles ps (start_effect g3)))
                      = food_y g3).
      { unfold start_effect. case_match; simpl; split; reflexivity. }
      destruct Ef as [Efx Efy]. unfold food_placed. rewrite Efx, Efy.
      split; [exact Hfg|]. intros Hs. apply Hfs.
      eapply on_snake_same_field; eassumption. }
    split; [|exact Hps].
    intros Hne. exfalso. apply Hne. reflexivity.
Qed.

Lemma update_snake_move_counter (g : game) ds g' ds' :
  update_snake gate g ds = Some (g', ds') -> move_counter g' = move_counter g.
Proof.
  intros H. destruct (fatalb g) eqn:Hf.
  - rewrite update_snake_fatal in H by assumption. inversion H; subst. reflexivity.
  - rewrite update_snake_commit in H by assumption.
    apply after_commit_inv in H. cbv zeta in H.
    destruct H as (g3 & [[_ ->] | (_ & ps & fx & fy & t & ix & iy & _ & _ & ->)] & Hg');
      destruct Hg' as [-> | (_ & ps' & ->)]; field_simpl; reflexivity.
Qed.

Lemma update_snake_settled (g : game) ds g' ds' :
  settled g -> update_snake gate g ds = Some (g', ds') ->
  settled g' /\ move_counter g' = move_counter g.
Proof.
  intros Hset H. split; [|eapply update_snake_move_counter; exact H].
  destruct (fatalb g) eqn:Hf.
  - rewrite update_snake_fatal in H by exact Hf. inversion H; subst g' ds'.
    eapply settled_same_sim; [|exact Hset]. same_sim_tac.
  - rewrite update_snake_commit in H by exact Hf.
    apply after_commit_steps in H. cbv zeta in H.
    destruct H as (g3 & ds3 & Hfirst & Hsecond).
    assert (Hmid : mid_tick g3 (tick_candidate g)).
    { destruct Hfirst as [(Hne & -> & _) | (_ & He)].
      - apply (commit_mid_tick g Hset Hf). exact Hne.
      - eapply eat_mid_tick; eassumption. }
    eapply finish_settled; eassumption.
Qed.

End TickInvariant.

Lemma settled_transfer (g g' : game) :
  same_field g g' ->
  food_x g' = food_x g -> food_y g' = food_y g ->
  item_type g' = item_type g -> item_x g' = item_x g -> item_y g' = item_y g ->
  0 <= phase_timer g' <= PHASE_DURATION ->
  0 <= speed_timer g' <= SPEED_DURATION ->
  Forall particle_fresh (particles g') ->
  settled g -> settled g'.
Proof.
  intros Hf Efx Efy Eit Eix Eiy Hpt' Hst' Hpf'
         (Hp & (Hl & Hpt & Hst) & Hc & (Hfg & Hfs) & Hi & Hpf).
  pose proof Hf as (Ex & Ey & El & Eo).
  split; [eapply playable_same_field; eassumption|].
  split; [unfold counters_bounded; rewrite El; tauto|].
  split; [eapply cells_interior_same_field; eassumption|].
  split; [unfold food_placed; rewrite Efx, Efy; split; [exact Hfg|];
          intros Ho; apply Hfs; eapply on_snake_same_field; eassumption|].
  split; [|exact Hpf'].
  unfold item_placed, obstacle_at. rewrite Eit, Eix, Eiy, Eo. intros Hn.
  destruct (Hi Hn) as (H1 & H2 & H3). split; [exact H1|]. split; [|exact H3].
  intros Ho; apply H2; eapply on_snake_same_field; eassumption.
Qed.

Lemma steady_same_sim (g g' : game) : same_sim g g' -> steady g -> steady g'.
Proof.
  intros Hs [Hset Hc]. split; [eapply settled_same_sim; eassumption|].
  destruct Hs as (_ & _ & _ & _ & _ & _ & _ & _ & Em & _).
  unfold cadence. rewrite Em. exact Hc.
Qed.

Lemma count_down_range (t n : Z) : 0 <= t <= n -> 0 <= count_down t <= n.
Proof. unfold count_down. intros H. destruct (Z.gtb_spec t 0); lia. Qed.

Lemma update_particles_fresh (ps : list particle_t) :
  Forall particle_fresh ps -> Forall particle_fresh (map update_particle ps).
Proof.
  intros H. apply Forall_map. eapply Forall_impl; [exact H|].
  intros p Hp. apply update_particle_fresh. exact Hp.
Qed.

Lemma reset_globals_layout (g : game) :
  arrays_sized g ->
  let r := reset_globals g in
  snake_cell r 0 = (GRID_W / 2, GRID_H / 2)
  /\ snake_cell r 1 = (GRID_W / 2 - 1, GRID_H / 2)
  /\ snake_cell r 2 = (GRID_W / 2 - 2, GRID_H / 2)
  /\ phase_timer r = 0 /\ speed_timer r = 0 /\ item_type r = ITEM_NONE
  /\ move_counter r = BASE_MOVE_INTERVAL
  /\ Forall (fun p => active p = false) (particles r)
  /\ Forall (fun v => v = 0) (obstacle r).
Proof.
  intros (Lx & Ly & Lo).
  assert (Hx : (3 <= length (snake_x g))%nat) by (rewrite Lx; vm_compute; lia).
  assert (Hy : (3 <= length (snake_y g))%nat) by (rewrite Ly; vm_compute; lia).
  unfold reset_globals, snake_cell. simpl.
  repeat split.
  - repeat first [rewrite aget_aset_eq by (rewrite ?length_aset; lia)
                  | rewrite aget_aset_ne by lia].
    reflexivity.
  - repeat first [rewrite aget_aset_eq by (rewrite ?length_aset; lia)
                  | rewrite aget_aset_ne by lia].
    reflexivity.
  - repeat first [rewrite aget_aset_eq by (rewrite ?length_aset; lia)
                  | rewrite aget_aset_ne by lia].
    reflexivity.
  - apply Forall_map. apply Forall_true. intros p. reflexivity.
  - apply Forall_map. apply Forall_true. intros v. reflexivity.
Qed.

Lemma spawns_after_reset_steady (r : game) ds g' ds' :
  arrays_sized r -> snake_length r = 3 ->
  snake_cell r 0 = (GRID_W / 2, GRID_H / 2) ->
  snake_cell r 1 = (GRID_W / 2 - 1, GRID_H / 2) ->
  snake_cell r 2 = (GRID_W / 2 - 2, GRID_H / 2) ->
  phase_timer r = 0 -> speed_timer r = 0 -> item_type r = ITEM_NONE ->
  move_counter r = BASE_MOVE_INTERVAL ->
  Forall (fun p => active p = false) (particles r) ->
  bind (spawn_food r) spawn_obstacles ds = Some (g', ds') ->
  steady g'.
Proof.
  intros Hs Hl H0 H1 H2 Hpt Hst Hit Hmc Hpa H.
  pose proof (spawns_after_reset_playable r ds g' ds' Hs Hl H0 H) as Hp.
  apply bind_Some in H as (g1 & ds1 & Hfood & Hobst).
  apply spawn_food_inv in Hfood as (fx & fy & Hcell & ->).
  apply spawn_obstacles_frame in Hobst as (o & c & ->).
  apply random_free_cell_inv in Hcell as (Hcol & Hg & _).
  pose proof (cell_collides_false _ _ _ Hg Hcol) as (Hns & _ & _).
  split; [|unfold cadence; change (move_counter _) with (move_counter r);
           rewrite Hmc; vm_compute; split; discriminate].
  split; [exact Hp|].
  split.
  { unfold counters_bounded. simpl. rewrite Hl, Hpt, Hst.
    vm_compute. repeat split; discriminate. }
  split.
  { intros i Hi. change (snake_length _) with (snake_length r) in Hi.
    change (snake_cell _ i) with (snake_cell r i).
    assert (Hcases : i = 0 \/ i = 1 \/ i = 2) by lia.
    destruct Hcases as [-> | [-> | ->]]; rewrite ?H0, ?H1, ?H2;
      vm_compute; repeat split; reflexivity. }
  split; [split; [exact Hg | exact Hns]|].
  split.
  { intros Hn. exfalso. apply Hn. exact Hit. }
  simpl. eapply Forall_impl; [exact Hpa|].
  intros p Hp' Ha. congruence.
Qed.

Lemma game_reset_steady (g : game) ds g' ds' :
  arrays_sized g -> game_reset g ds = Some (g', ds') -> steady g'.
Proof.
  intros Hs H.
  destruct (reset_globals_ready g Hs) as (Ha & Hl & _).
  destruct (reset_globals_layout g Hs) as (H0 & H1 & H2 & Hpt & Hst & Hit & Hmc & Hpa & _).
  exact (spawns_after_reset_steady (reset_globals g) ds g' ds'
           Ha Hl H0 H1 H2 Hpt Hst Hit Hmc Hpa H).
Qed.

Lemma press_start_steady (g : game) ds g' ds' :
  steady g -> press_start g ds = Some (g', ds') -> steady g'.
Proof.
  intros Hst H. unfold press_start in H.
  assert (Hs : arrays_sized (set_state STATE_PLAY g)) by exact (proj1 (proj1 (proj1 Hst))).
  destruct (state g).
  - eapply game_reset_steady; eassumption.
  - inversion H; subst. eapply steady_same_sim; [|exact Hst]. same_sim_tac.
  - inversion H; subst. eapply steady_same_sim; [|exact Hst]. same_sim_tac.
  - eapply game_reset_steady; eassumption.
Qed.

Lemma handle_input_steady (i : input) (g : game) ds g' ds' :
  steady g -> handle_input i g ds = Some (g', ds') -> steady g'.
Proof.
  intros Hst H. apply handle_input_inv in H as (g1 & Hstart & Hg'). cbv zeta in Hg'.
  assert (H1 : steady g1).
  { destruct (_ && _) in Hstart.
    - eapply press_start_steady; eassumption.
    - destruct Hstart as [-> _]. exact Hst. }
  rewrite Hg'. eapply steady_same_sim; [|exact H1]. same_sim_tac.
Qed.

Section FrameInvariant.

Variable gate : Z -> bool.

Lemma settled_frame_prelude (g : game) : settled g -> settled (frame_prelude g).
Proof.
  intros Hset. pose proof Hset as (_ & (_ & Hpt & Hst) & _ & _ & _ & Hpf).
  eapply settled_transfer; try exact Hset; try reflexivity.
  - unfold frame_prelude. same_field_tac.
  - apply count_down_range. exact Hpt.
  - apply count_down_range. exact Hst.
  - exact Hpf.
Qed.

Lemma settled_update_particles (g : game) : settled g -> settled (update_particles g).
Proof.
  intros Hset. pose proof Hset as (_ & (_ & Hpt & Hst) & _ & _ & _ & Hpf).
  eapply settled_transfer; try exact Hset; try reflexivity.
  - unfold update_particles. same_field_tac.
  - exact Hpt.
  - exact Hst.
  - apply update_particles_fresh. exact Hpf.
Qed.

Lemma settled_set_move_counter (g : game) (v : Z) :
  settled g -> settled (set_move_counter v g).
Proof.
  intros Hset. pose proof Hset as (_ & (_ & Hpt & Hst) & _ & _ & _ & Hpf).
  eapply settled_transfer; try exact Hset; try reflexivity; try assumption.
  same_field_tac.
Qed.

Lemma play_frame_steady (g : game) ds g' ds' :
  steady g -> play_frame gate g ds = Some (g', ds') -> steady g'.
Proof.
  intros [Hset Hcad] H. apply play_frame_inv in H. cbv zeta in H.
  unfold cadence, BASE_MOVE_INTERVAL in Hcad.
  assert (Hmc : move_counter (frame_prelude g) = move_counter g - 1).
  { unfold frame_prelude. simpl. apply wrap_int_id.
    unfold is_int, INT_MIN, INT_MAX. lia. }
  destruct H as [(Hnt & -> & _) | (Ht & g2 & Hup & ->)].
  - split; [apply settled_update_particles, settled_frame_prelude, Hset|].
    unfold tick_due in Hnt. unfold cadence, BASE_MOVE_INTERVAL.
    change (move_counter (update_particles (frame_prelude g)))
      with (move_counter (frame_prelude g)). lia.
  - apply update_snake_settled in Hup as [Hset2 _]; [|apply settled_frame_prelude, Hset].
    split; [apply settled_update_particles, settled_set_move_counter, Hset2|].
    unfold cadence, move_interval, BASE_MOVE_INTERVAL. simpl.
    destruct (_ >? 0); vm_compute; split; discriminate.
Qed.

Lemma retro_run_steady (i : input) (g : game) ds g' ds' :
  steady g -> retro_run gate i g ds = Some (g', ds') -> steady g'.
Proof.
  intros Hst H. apply retro_run_inv in H as (g1 & ds1 & g2 & Hin & Hfr & ->).
  apply (handle_input_steady _ _ _ _ _ Hst) in Hin.
  assert (H2 : steady g2).
  { destruct (bool_decide _) in Hfr.
    - eapply play_frame_steady; eassumption.
    - destruct Hfr as [-> _]. exact Hin. }
  eapply steady_same_sim; [|exact H2]. same_sim_tac.
Qed.

Lemma update_snake_steady (g : game) ds g' ds' :
  steady g -> update_snake gate g ds = Some (g', ds') -> steady g'.
Proof.
  intros [Hset Hcad] H. apply update_snake_settled in H as [Hset' Hmc]; [|exact Hset].
  split; [exact Hset'|]. unfold cadence. rewrite Hmc. exact Hcad.
Qed.

Lemma reachable_steady (g : game) : reachable gate g -> steady g.
Proof.
  induction 1.
  - eapply game_reset_steady; eassumption.
  - eapply update_snake_steady; eassumption.
  - eapply handle_input_steady; eassumption.
  - eapply retro_run_steady; eassumption.
Qed.

End FrameInvariant.

(** ** Sample runs for the invariants *)

Lemma stepped_game_run :
  update_snake sample_gate started_game [] = Some (stepped_game, []).
Proof. vm_compute. reflexivity. Qed.

Lemma stepped_game_reachable : reachable sample_gate stepped_game.
Proof. eapply reach_tick; [exact started_game_reachable | exact stepped_game_run]. Qed.






Lemma started_game_not_fatal : ~ fatal_collision started_game.
Proof.
  intros H. apply fatalb_spec in H. vm_compute in H. discriminate.
Qed.

Example stepped_game_facts :
  head_cell stepped_game = (21, 15)
  /\ snake_cell stepped_game 1 = (20, 15) /\ snake_cell stepped_game 2 = (19, 15)
  /\ snake_length stepped_game = 3 /\ state stepped_game = STATE_PLAY.
Proof. vm_compute. repeat split; reflexivity. Qed.

(** ** Invariants of the running game *)

(** X2. In every state the core reaches from a reset the snake has between
    3 and [MAX_SNAKE_LENGTH] cells, both effect timers lie between 0 and
    their full duration of 300 frames, and the move countdown lies between 1
    and [BASE_MOVE_INTERVAL]. *)
Theorem counters_stay_in_range (gate : Z -> bool) (g : game) :
  reachable gate g ->
  3 <= snake_length g <= MAX_SNAKE_LENGTH
  /\ 0 <= phase_timer g <= PHASE_DURATION
  /\ 0 <= speed_timer g <= SPEED_DURATION
  /\ 1 <= move_counter g <= BASE_MOVE_INTERVAL.
Proof.
  intros R. apply reachable_steady in R as ((_ & (Hl & Hp & Hs) & _) & Hc).
  exact (conj Hl (conj Hp (conj Hs Hc))).
Qed.

Lemma counters_witness :
  3 <= snake_length stepped_game <= MAX_SNAKE_LENGTH
  /\ 0 <= phase_timer stepped_game <= PHASE_DURATION
  /\ 0 <= speed_timer stepped_game <= SPEED_DURATION
  /\ 1 <= move_counter stepped_game <= BASE_MOVE_INTERVAL.
Proof.
  exact (counters_stay_in_range sample_gate stepped_game stepped_game_reachable).
Defined.

(** X3. In every reachable state every cell of the snake, not only the
    head, lies strictly inside the ring of border cells: its column is
    between 1 and [GRID_W - 2] and its row between 1 and [GRID_H - 2]. *)
Theorem body_stays_inside_border (gate : Z -> bool) (g : game) (i : Z) :
  reachable gate g -> 0 <= i < snake_length g ->
  0 < fst (snake_cell g i) < GRID_W - 1 /\ 0 < snd (snake_cell g i) < GRID_H - 1.
Proof.
  intros R Hi. apply reachable_steady in R as ((_ & _ & Hc & _) & _).
  exact (Hc i Hi).
Qed.

Lemma body_inside_witness :
  0 < fst (snake_cell stepped_game 2) < GRID_W - 1
  /\ 0 < snd (snake_cell stepped_game 2) < GRID_H - 1.
Proof.
  apply (body_stays_inside_border sample_gate stepped_game 2 stepped_game_reachable).
  vm_compute. split; [discriminate | reflexivity].
Defined.

(** X4. In every reachable state the food lies on a grid cell that no cell
    of the snake covers, and an active item lies on a grid cell that no cell
    of the snake covers and that holds no obstacle. *)
Theorem food_and_item_stay_clear (gate : Z -> bool) (g : game) :
  reachable gate g ->
  (in_grid (food_x g) (food_y g) /\ ~ on_snake g (food_x g) (food_y g))
  /\ (item_type g <> ITEM_NONE ->
      in_grid (item_x g) (item_y g)
      /\ ~ on_snake g (item_x g) (item_y g)
      /\ obstacle_at g (item_x g) (item_y g) = 0).
Proof.
  intros R. apply reachable_steady in R as ((_ & _ & _ & Hf & Hi & _) & _).
  exact (conj Hf Hi).
Qed.

Lemma food_and_item_witness :
  in_grid (food_x stepped_game) (food_y stepped_game)
  /\ ~ on_snake stepped_game (food_x stepped_game) (food_y stepped_game).
Proof.
  exact (proj1 (food_and_item_stay_clear sample_gate stepped_game stepped_game_reachable)).
Defined.



Lemma hungry_game_sized : arrays_sized hungry_game.
Proof. repeat split. Qed.

Lemma hungry_game_not_fatal : ~ fatal_collision hungry_game.
Proof.
  intros H. apply fatalb_spec in H. vm_compute in H. discriminate.
Qed.

Lemma committed_tick_witness :
  let n := snake_length hungry_game in
  head_cell fed_game = tick_candidate hungry_game
  /\ (forall i, 1 <= i < n -> snake_cell fed_game i = snake_cell hungry_game (i - 1))
  /\ (forall i, n < i -> snake_cell fed_game i = snake_cell hungry_game i)
  /\ ((snake_length fed_game = n /\ snake_cell fed_game n = snake_cell hungry_game n)
      \/ (snake_length fed_game = n + 1
          /\ tick_candidate hungry_game = (food_x hungry_game, food_y hungry_game)
          /\ snake_cell fed_game n = snake_cell fed_game (n - 1))).
Proof.
  apply (committed_tick_moves_body sample_gate hungry_game eat_draws fed_game []).
  - exact hungry_game_sized.
  - vm_compute. split; discriminate.
  - exact hungry_game_not_fatal.
  - exact fed_game_run.
Defined.

(** ** Items *)

Section Items.

Variable gate : Z -> bool.

(** The state of a committed tick after the food branch: the timers are
    untouched, an item that was active is untouched, and an item spawned in
    this tick does not lie under the head. *)
Lemma food_branch_item (g : game) ds g3 ds3 :
  playable g -> fatalb g = false ->
  let c := tick_candidate g in
  let g2 := commit_move (fst c) (snd c) (turned g) in
  (c <> (food_x g, food_y g) /\ g3 = g2 /\ ds3 = ds)
  \/ (c = (food_x g, food_y g) /\ eat_food gate g2 ds = Some (g3, ds3)) ->
  phase_timer g3 = phase_timer g /\ speed_timer g3 = speed_timer g
  /\ (item_type g <> ITEM_NONE ->
      item_type g3 = item_type g /\ item_x g3 = item_x g /\ item_y g3 = item_y g)
  /\ (item_type g = ITEM_NONE -> ~ on_item g3 (fst c) (snd c)).
Proof.
  intros Hp Hf. cbv zeta. intros [(_ & -> & _) | (_ & He)].
  - repeat split; try reflexivity. intros Hn (Hn' & _). apply Hn'. exact Hn.
  - pose proof (commit_move_playable g Hp Hf) as Hp2.
    set (c := tick_candidate g) in *.
    set (g2 := commit_move (fst c) (snd c) (turned g)) in *.
    assert (Hh2 : head_cell g2 = (fst c, snd c)).
    { destruct Hp as ((Lx & Ly & _) & _). apply commit_move_head.
      - change (snake_x (turned g)) with (snake_x g). rewrite Lx. vm_compute. lia.
      - change (snake_y (turned g)) with (snake_y g). rewrite Ly. vm_compute. lia. }
    pose proof Hp2 as (_ & Hl2 & _).
    pose proof (grow_head g2 Hl2) as HhG. rewrite Hh2 in HhG.
    pose proof (grow_playable g2 Hp2) as (_ & HlG & _).
    apply eat_food_steps in He as (ps & ds1 & fx & fy & ds2 & _ & _ & _ & Hitem).
    cbv zeta in *.
    destruct (grown_scored_fields g2) as (HsA & Ap & As & Ait & Aix & Aiy & _).
    cbv zeta in *.
    set (a := add_score (grow g2)) in *.
    change (phase_timer g2) with (phase_timer g) in Ap.
    change (speed_timer g2) with (speed_timer g) in As.
    change (item_type g2) with (item_type g) in Ait.
    change (item_x g2) with (item_x g) in Aix.
    change (item_y g2) with (item_y g) in Aiy.
    assert (HhA : snake_cell a 0 = (fst c, snd c)).
    { rewrite (snake_cell_same_field _ _ 0 HsA). exact HhG. }
    assert (HlA : 1 <= snake_length a).
    { destruct HsA as (_ & _ & -> & _). exact HlG. }
    clearbody a. clear HsA HhG HlG.
    apply spawn_item_cases in Hitem
      as [-> | (Hnone & t & x & y & dsr & Ht & Hcell & ->)].
    + simpl. repeat split; try assumption.
      intros Hn (Hn' & _). apply Hn'. simpl. rewrite Ait. exact Hn.
    + simpl in Hnone. simpl. split; [exact Ap|]. split; [exact As|]. split.
      * intros Hn. rewrite Ait in Hnone. contradiction.
      * intros _ (_ & Ex & Ey). simpl in Ex, Ey.
        apply random_free_cell_inv in Hcell as (Hcol & Hg & _).
        pose proof (cell_collides_false _ _ _ Hg Hcol) as (Hns & _).
        apply Hns. exists 0. split; [change (0 <= 0 < snake_length a); lia|].
        change (snake_cell a 0 = (x, y)). rewrite HhA, Ex, Ey. reflexivity.
Qed.

(** X6. A tick that moves the head onto the cell of the active item picks
    the item up: the item is cleared and the timer of its kind, and only
    that one, is set to its full duration, also when the food lies on the
    same cell and is eaten in the same tick.  A tick that moves elsewhere
    leaves both timers and an active item as they were. *)
Theorem item_pickup_sets_one_timer (g : game) ds g' ds' :
  playable g -> ~ fatal_collision g ->
  update_snake gate g ds = Some (g', ds') ->
  let c := tick_candidate g in
  (on_item g (fst c) (snd c) ->
     item_type g' = ITEM_NONE
     /\ phase_timer g'
        = (if bool_decide (item_type g = ITEM_PHASE) then PHASE_DURATION else phase_timer g)
     /\ speed_timer g'
        = (if bool_decide (item_type g = ITEM_SPEED) then SPEED_DURATION else speed_timer g))
  /\ (~ on_item g (fst c) (snd c) ->
     phase_timer g' = phase_timer g /\ speed_timer g' = speed_timer g
     /\ (item_type g <> ITEM_NONE ->
         item_type g' = item_type g /\ item_x g' = item_x g /\ item_y g' = item_y g)).
Proof.
  intros Hp Hnf H. cbv zeta.
  assert (Hf : fatalb g = false).
  { destruct (fatalb g) eqn:E; [|reflexivity]. exfalso. apply Hnf, fatalb_spec, E. }
  rewrite update_snake_commit in H by exact Hf.
  apply after_commit_steps in H. cbv zeta in H.
  destruct H as (g3 & ds3 & Hfirst & Hsecond).
  destruct (food_branch_item g ds g3 ds3 Hp Hf Hfirst) as (Fp & Fs & Fkeep & Fnew).
  set (c := tick_candidate g) in *.
  assert (Hiff : on_item g3 (fst c) (snd c) <-> on_item g (fst c) (snd c)).
  { destruct (decide (item_type g = ITEM_NONE)) as [E | E].
    - split; [intros Ho; exfalso; exact (Fnew E Ho)|].
      intros (Hn & _). contradiction.
    - destruct (Fkeep E) as (E1 & E2 & E3). unfold on_item. rewrite E1, E2, E3. tauto. }
  destruct Hsecond as [(Hno & -> & _) | (Ho & Ht)].
  - split; [intros Ho; exfalso; apply Hno, Hiff, Ho|].
    intros _. split; [exact Fp|]. split; [exact Fs | exact Fkeep].
  - split; [|intros Hno; exfalso; apply Hno, Hiff, Ho].
    intros (Hn & _). destruct (Fkeep Hn) as (E1 & _).
    apply take_item_steps in Ht as (ps & _ & ->).
    unfold start_effect. rewrite E1.
    destruct (item_type g); simpl; repeat split; congruence.
Qed.

End Items.

Lemma same_field_set_item (g : game) (t : item_type_t) (x y : Z) :
  same_field g (set_item_y y (set_item_x x (set_item_type t g))).
Proof. repeat split. Qed.

Lemma tempting_game_playable : playable tempting_game.
Proof.
  apply (playable_same_field started_game); [apply same_field_set_item|].
  exact (reachable_playable sample_gate started_game started_game_reachable).
Qed.

Lemma tempting_game_not_fatal : ~ fatal_collision tempting_game.
Proof.
  intros H. apply fatalb_spec in H. vm_compute in H. discriminate.
Qed.

Lemma boosted_game_run :
  update_snake sample_gate tempting_game pickup_draws = Some (boosted_game, []).
Proof. vm_compute. reflexivity. Qed.

Lemma item_pickup_witness :
  item_type boosted_game = ITEM_NONE
  /\ phase_timer boosted_game
     = (if bool_decide (item_type tempting_game = ITEM_PHASE)
        then PHASE_DURATION else phase_timer tempting_game)
  /\ speed_timer boosted_game
     = (if bool_decide (item_type tempting_game = ITEM_SPEED)
        then SPEED_DURATION else speed_timer tempting_game).
Proof.
  apply (proj1 (item_pickup_sets_one_timer sample_gate tempting_game pickup_draws
                  boosted_game [] tempting_game_playable tempting_game_not_fatal
                  boosted_game_run)).
  vm_compute. split; [discriminate | split; reflexivity].
Defined.

Example boosted_game_facts :
  head_cell boosted_game = (21, 15) /\ speed_timer boosted_game = 300
  /\ phase_timer boosted_game = 0 /\ item_type boosted_game = ITEM_NONE.
Proof. vm_compute. repeat split; reflexivity. Qed.

(** ** Frames outside play, and the Start button *)

Lemma handle_input_idle (i : input) (g : game) ds :
  state g <> STATE_PLAY -> start_edge i g = false ->
  handle_input i g ds
  = Some (set_prev_select (in_select i)
            (if select_edge i g
             then press_select (set_prev_start (in_start i) g)
             else set_prev_start (in_start i) g), ds).
Proof.
  intros Hs He. unfold start_edge in He. unfold select_edge.
  unfold handle_input, bind, ret. rewrite He.
  change (prev_select (set_prev_start (in_start i) g)) with (prev_select g).
  destruct (truthy (in_select i) && negb (truthy (prev_select g))).
  - unfold press_select.
    change (state (set_prev_start (in_start i) g)) with (state g).
    destruct (bool_decide (state g = STATE_TITLE)); simpl;
      rewrite (bool_decide_eq_false_2 _ Hs); reflexivity.
  - simpl. rewrite (bool_decide_eq_false_2 _ Hs). reflexivity.
Qed.

(** X7. A frame that begins outside the Playing state without a newly
    pressed Start always completes, draws no random number and leaves the
    whole simulation as it was: snake, directions (direction buttons are
    ignored), food, item, timers, particles, obstacles, score, state and move
    countdown.  It advances the frame counter, records the two buttons, and
    clears the high score exactly on a newly pressed Select on the title
    screen. *)
Theorem idle_frame_freezes_game (gate : Z -> bool) (i : input) (g : game) ds :
  state g <> STATE_PLAY -> start_edge i g = false ->
  exists g',
    retro_run gate i g ds = Some (g', ds)
    /\ frozen g g'
    /\ frame_count g' = wrap_ulong (frame_count g + 1)
    /\ prev_start g' = in_start i /\ prev_select g' = in_select i
    /\ highscore g'
       = (if select_edge i g && bool_decide (state g = STATE_TITLE)
          then 0 else highscore g).
Proof.
  intros Hs He. unfold retro_run, bind.
  rewrite (handle_input_idle i g ds Hs He). unfold press_select.
  change (state (set_prev_start (in_start i) g)) with (state g).
  destruct (select_edge i g); destruct (bool_decide (state g = STATE_TITLE)); simpl;
    rewrite (bool_decide_eq_false_2 _ Hs); unfold ret;
    (eexists; split; [reflexivity|]; unfold frozen; simpl; repeat split; reflexivity).
Qed.

Lemma idle_frame_witness :
  exists g',
    retro_run sample_gate press_left paused_game [] = Some (g', [])
    /\ frozen paused_game g'
    /\ frame_count g' = wrap_ulong (frame_count paused_game + 1)
    /\ prev_start g' = in_start press_left /\ prev_select g' = in_select press_left
    /\ highscore g'
       = (if select_edge press_left paused_game
             && bool_decide (state paused_game = STATE_TITLE)
          then 0 else highscore paused_game).
Proof.
  apply (idle_frame_freezes_game sample_gate press_left paused_game []).
  - vm_compute. discriminate.
  - vm_compute. reflexivity.
Defined.

(** X8. Input handling changes the state only on a newly pressed Start
    (pressed now, not pressed on the previous call): Title and Game Over lead
    to Playing, Playing to Pause and Pause to Playing.  The call records the
    Start button, so a second call with the same buttons still held never
    changes the state again and draws no random number. *)
Theorem start_acts_on_press_only (i : input) (g : game) ds g1 ds1 :
  handle_input i g ds = Some (g1, ds1) ->
  state g1 = (if start_edge i g then after_start (state g) else state g)
  /\ prev_start g1 = in_start i
  /\ start_edge i g1 = false
  /\ exists g2, handle_input i g1 ds1 = Some (g2, ds1) /\ state g2 = state g1.
Proof.
  intros H.
  assert (Hfirst : state g1 = (if start_edge i g then after_start (state g) else state g)
                   /\ prev_start g1 = in_start i).
  { apply handle_input_inv in H as (ga & Hstart & ->). cbv zeta.
    assert (Hga : state ga = (if start_edge i g then after_start (state g) else state g)).
    { unfold start_edge. destruct (_ && _) in Hstart |- *.
      - unfold press_start in Hstart. destruct (state g) eqn:Es.
        + apply game_reset_score in Hstart as (_ & _ & -> & _). reflexivity.
        + inversion Hstart. reflexivity.
        + inversion Hstart. reflexivity.
        + apply game_reset_score in Hstart as (_ & _ & -> & _). reflexivity.
      - destruct Hstart as [-> _]. reflexivity. }
    rewrite <- Hga. unfold press_select, turn.
    repeat case_match; simpl; split; reflexivity. }
  destruct Hfirst as [Hs Hp]. split; [exact Hs|]. split; [exact Hp|].
  assert (He : start_edge i g1 = false).
  { unfold start_edge. rewrite Hp. destruct (truthy (in_start i)); reflexivity. }
  split; [exact He|].
  unfold start_edge in He. unfold handle_input, bind, ret. rewrite He.
  eexists. split; [reflexivity|].
  unfold press_select, turn. repeat case_match; reflexivity.
Qed.

Lemma pressed_game_run :
  handle_input press_start_only started_game [] = Some (pressed_game, []).
Proof. vm_compute. reflexivity. Qed.

Lemma start_press_witness :
  state pressed_game
  = (if start_edge press_start_only started_game
     then after_start (state started_game) else state started_game)
  /\ prev_start pressed_game = in_start press_start_only
  /\ start_edge press_start_only pressed_game = false
  /\ exists g2, handle_input press_start_only pressed_game [] = Some (g2, [])
                /\ state g2 = state pressed_game.
Proof.
  exact (start_acts_on_press_only press_start_only started_game [] pressed_game []
           pressed_game_run).
Defined.

(** ** Obstacles *)

Lemma blocked_insert (o : list Z) (k : nat) (v : Z) :
  o !! k = Some 0 -> truthy v = true ->
  length (List.filter truthy (<[k:=v]> o)) = S (length (List.filter truthy o)).
Proof.
  revert k. induction o as [|a o IH]; intros [|k] Hk Hv; simpl in *; try discriminate.
  - inversion Hk; subst. rewrite Hv. reflexivity.
  - destruct (truthy a); simpl; rewrite (IH k Hk Hv); reflexivity.
Qed.

Lemma blocked_aset (o : list Z) (i : Z) :
  0 <= i < Z.of_nat (length o) -> aget o i = 0 ->
  Z.of_nat (length (List.filter truthy (aset o i 1)))
  = Z.of_nat (length (List.filter truthy o)) + 1.
Proof.
  intros Hi Hz. unfold aget, aset in *.
  destruct (Z.ltb_spec i 0) as [|_]; [lia|].
  destruct (o !! Z.to_nat i) as [v|] eqn:Hl.
  - simpl in Hz. subst v. rewrite (blocked_insert o _ 1 Hl eq_refl). lia.
  - apply lookup_ge_None in Hl. lia.
Qed.

Lemma pick_obstacle_cell_inv (g : game) (ds : list nat) x y ds' :
  pick_obstacle_cell g ds = Some ((x, y), ds') ->
  in_grid x y /\ obstacle_at g x y = 0
  /\ (x, y) <> head_cell g /\ (x, y) <> (food_x g, food_y g)
  /\ ~ on_item g x y.
Proof.
  assert (Haux : forall n ds, (length ds <= n)%nat ->
            pick_obstacle_cell g ds = Some ((x, y), ds') ->
            in_grid x y /\ obstacle_at g x y = 0
            /\ (x, y) <> head_cell g /\ (x, y) <> (food_x g, food_y g)
            /\ ~ on_item g x y).
  { clear ds. induction n as [|n IH]; intros ds Hle H.
    - destruct ds; [discriminate | simpl in Hle; lia].
    - destruct ds as [|rx [|ry ds2]]; simpl in H; try discriminate.
      simpl in Hle.
      set (cx := Z.rem (Z.of_nat rx) GRID_W) in *.
      set (cy := Z.rem (Z.of_nat ry) GRID_H) in *.
      destruct (((aget (snake_x g) 0 =? cx) && (aget (snake_y g) 0 =? cy))
                || ((food_x g =? cx) && (food_y g =? cy))
                || item_occupies g cx cy
                || truthy (obstacle_at g cx cy)) eqn:Hc.
      + apply IH in H; [exact H | lia].
      + inversion H; subst x y ds'. clear H.
        apply orb_false_iff in Hc as [Hc Hob].
        apply orb_false_iff in Hc as [Hc Hit].
        apply orb_false_iff in Hc as [Hhd Hfd].
        split; [split; apply rem_range; reflexivity|].
        split; [apply truthy_false; exact Hob|].
        split.
        { intros E. unfold head_cell, snake_cell in E. inversion E as [[Ex Ey]].
          rewrite <- Ex, <- Ey, !Z.eqb_refl in Hhd. discriminate. }
        split.
        { intros E. inversion E as [[Ex Ey]].
          rewrite <- Ex, <- Ey, !Z.eqb_refl in Hfd. discriminate. }
        intros Ho. apply item_occupies_spec in Ho. congruence. }
  apply (Haux (length ds)). lia.
Qed.

Lemma obstacle_index_inj (x y a b : Z) :
  in_grid x y -> in_grid a b -> obstacle_index x y = obstacle_index a b ->
  (x, y) = (a, b).
Proof.
  unfold in_grid, obstacle_index, GRID_W, GRID_H. intros Hxy Hab E.
  assert (x = a) by lia. subst. f_equal. lia.
Qed.

Lemma place_obstacles_census (n : nat) (g : game) ds g' ds' :
  length (obstacle g) = Z.to_nat (GRID_W * GRID_H) ->
  place_obstacles n g ds = Some (g', ds') ->
  obstacle_count g' = obstacle_count g + Z.of_nat n
  /\ blocked_cells g' = blocked_cells g + Z.of_nat n
  /\ (forall a b, in_grid a b ->
        (a, b) = head_cell g \/ (a, b) = (food_x g, food_y g) ->
        obstacle_at g' a b = obstacle_at g a b).
Proof.
  revert g ds. induction n as [|n IH]; intros g ds Hlen H; simpl in H.
  - rand_inv. repeat split; try lia. 
  - rand_inv. destruct a as [x y].
    apply pick_obstacle_cell_inv in Hrun as (Hg & Hz & Hh & Hf & _).
    simpl in Hk.
    apply IH in Hk; [|simpl; rewrite length_aset; exact Hlen].
    destruct Hk as (Hc & Hb & Hsame).
    pose proof (index_in_range g x y Hlen Hg) as Hidx.
    split; [rewrite Hc; simpl; lia|].
    split.
    + rewrite Hb. unfold blocked_cells. simpl.
      rewrite (blocked_aset (obstacle g) (obstacle_index x y) Hidx Hz). lia.
    + intros a b Hab Hcase. rewrite (Hsame a b Hab Hcase).
      unfold obstacle_at. simpl. apply aget_aset_ne.
      intros E. apply obstacle_index_inj in E; [|assumption|assumption].
      destruct Hcase as [E' | E']; congruence.
Qed.

Lemma border_column_obstacle (l : list nat) (g h : game) :
  obstacle g = obstacle h ->
  obstacle (fold_left border_column l g) = obstacle (fold_left border_column l h).
Proof.
  revert g h. induction l as [|n l IH]; intros g h E; simpl; [exact E|].
  apply IH. unfold border_column, set_obstacle_at. simpl. rewrite E. reflexivity.
Qed.

Lemma border_row_obstacle (l : list nat) (g h : game) :
  obstacle g = obstacle h ->
  obstacle (fold_left border_row l g) = obstacle (fold_left border_row l h).
Proof.
  revert g h. induction l as [|n l IH]; intros g h E; simpl; [exact E|].
  apply IH. unfold border_row, set_obstacle_at. simpl. rewrite E. reflexivity.
Qed.

Lemma ring_game_blocked : blocked_cells ring_game = 2 * (GRID_W + GRID_H) - 4.
Proof. vm_compute. reflexivity. Qed.

Lemma ring_game_table :
  forallb (fun x => forallb (fun y =>
             Bool.eqb (truthy (obstacle_at ring_game (Z.of_nat x) (Z.of_nat y)))
                      (on_borderb (Z.of_nat x) (Z.of_nat y)))
             (seq 0 (Z.to_nat GRID_H)))
          (seq 0 (Z.to_nat GRID_W)) = true.
Proof. vm_compute. reflexivity. Qed.

Lemma on_borderb_spec (x y : Z) : on_borderb x y = true <-> on_border x y.
Proof.
  unfold on_borderb, on_border. rewrite !orb_true_iff, !Z.eqb_eq. tauto.
Qed.

Lemma ring_game_cells (x y : Z) :
  in_grid x y -> (obstacle_at ring_game x y <> 0 <-> on_border x y).
Proof.
  intros [Hx Hy]. pose proof ring_game_table as T.
  rewrite forallb_forall in T.
  specialize (T (Z.to_nat x)). rewrite forallb_forall in T.
  assert (Hinx : In (Z.to_nat x) (seq 0 (Z.to_nat GRID_W))) by (apply in_seq; lia).
  assert (Hiny : In (Z.to_nat y) (seq 0 (Z.to_nat GRID_H))) by (apply in_seq; lia).
  specialize (T Hinx (Z.to_nat y) Hiny).
  rewrite !Z2Nat.id in T by lia. apply Bool.eqb_prop in T.
  rewrite <- truthy_true, T. apply on_borderb_spec.
Qed.

Lemma clear_obstacles (l : list Z) (n : nat) :
  length l = n -> map (fun _ => 0) l = replicate n 0.
Proof.
  revert n. induction l as [|a l IH]; intros n <-; simpl; [reflexivity|].
  rewrite (IH _ eq_refl). reflexivity.
Qed.

Lemma reset_globals_obstacle (g : game) :
  arrays_sized g -> obstacle (reset_globals g) = obstacle init_game.
Proof.
  intros (_ & _ & Lo).
  transitivity (map (fun _ => 0) (obstacle g)); [reflexivity|].
  rewrite (clear_obstacles _ _ Lo). reflexivity.
Qed.

Lemma obstacles_only_fields (g g' : game) :
  obstacles_only g g' ->
  head_cell g' = head_cell g /\ food_x g' = food_x g /\ food_y g' = food_y g.
Proof. intros (o & c & ->). repeat split. Qed.

Lemma border_loops_frame (g : game) :
  obstacles_only g
    (fold_left border_row (seq 0 (Z.to_nat GRID_H))
       (fold_left border_column (seq 0 (Z.to_nat GRID_W)) g)).
Proof.
  eapply obstacles_only_trans; apply obstacles_only_fold; intros g0 n;
    eapply obstacles_only_trans; apply obstacles_only_set_at.
Qed.

Lemma border_loops_obstacle (g : game) :
  obstacle g = obstacle init_game ->
  obstacle (fold_left border_row (seq 0 (Z.to_nat GRID_H))
              (fold_left border_column (seq 0 (Z.to_nat GRID_W)) g))
  = obstacle ring_game.
Proof.
  intros E. unfold ring_game. apply border_row_obstacle, border_column_obstacle, E.
Qed.

Lemma ring_game_sized : length (obstacle ring_game) = Z.to_nat (GRID_W * GRID_H).
Proof. vm_compute. reflexivity. Qed.

(** [spawn_obstacles] on a cleared grid: what it leaves, whatever the head
    and food cells are. *)
Lemma spawn_obstacles_census (g : game) ds g' ds' :
  obstacle g = obstacle init_game ->
  in_grid (food_x g) (food_y g) ->
  spawn_obstacles g ds = Some (g', ds') ->
  census g'
  /\ food_x g' = food_x g /\ food_y g' = food_y g /\ head_cell g' = head_cell g
  /\ (obstacle_at g' (food_x g) (food_y g) <> 0 <-> on_border (food_x g) (food_y g))
  /\ (forall x y, in_grid x y -> on_border x y -> obstacle_at g' x y <> 0).
Proof.
  intros Ho Hfg H. unfold spawn_obstacles in H. cbv zeta in H.
  pose proof (border_loops_frame g) as Hfr.
  pose proof (border_loops_obstacle g Ho) as Ho2.
  set (g2 := fold_left border_row (seq 0 (Z.to_nat GRID_H))
               (fold_left border_column (seq 0 (Z.to_nat GRID_W)) g)) in *.
  apply obstacles_only_fields in Hfr as (Hh2 & Hfx2 & Hfy2).
  clearbody g2.
  set (g3 := set_obstacle_count (2 * (GRID_W + GRID_H) - 4) g2) in *.
  assert (Hlen : length (obstacle g3) = Z.to_nat (GRID_W * GRID_H)).
  { change (obstacle g3) with (obstacle g2). rewrite Ho2. exact ring_game_sized. }
  pose proof (place_obstacles_keeps _ _ _ _ _ H) as [_ Hkeep].
  pose proof (place_obstacles_frame _ _ _ _ _ H) as Hfr3.
  apply obstacles_only_fields in Hfr3 as (Hh3 & Hfx3 & Hfy3).
  apply place_obstacles_census in H as (Hc & Hb & Hsame); [|exact Hlen].
  change (food_x g3) with (food_x g2) in *. change (food_y g3) with (food_y g2) in *.
  change (head_cell g3) with (head_cell g2) in *.
  assert (Hring : forall x y, obstacle_at g3 x y = obstacle_at ring_game x y).
  { intros x y. unfold obstacle_at. change (obstacle g3) with (obstacle g2).
    rewrite Ho2. reflexivity. }
  split.
  { split.
    - rewrite Hc. reflexivity.
    - rewrite Hb. unfold blocked_cells. change (obstacle g3) with (obstacle g2).
      rewrite Ho2. change (Z.of_nat (length (List.filter truthy (obstacle ring_game))))
        with (blocked_cells ring_game). rewrite ring_game_blocked. reflexivity. }
  split; [congruence|]. split; [congruence|]. split; [congruence|].
  split.
  - rewrite (Hsame (food_x g) (food_y g) Hfg) by (right; congruence).
    rewrite Hring. apply ring_game_cells. exact Hfg.
  - intros x y Hxy Hbd. apply Hkeep. rewrite Hring.
    apply ring_game_cells; assumption.
Qed.

Lemma spawns_after_reset_census (r : game) ds g' ds' :
  obstacle r = obstacle init_game ->
  bind (spawn_food r) spawn_obstacles ds = Some (g', ds') ->
  census g'
  /\ in_grid (food_x g') (food_y g')
  /\ (obstacle_at g' (food_x g') (food_y g') <> 0 <-> on_border (food_x g') (food_y g')).
Proof.
  intros Ho H. apply bind_Some in H as (g1 & ds1 & Hfood & Hobst).
  apply spawn_food_inv in Hfood as (fx & fy & Hcell & ->).
  apply random_free_cell_inv in Hcell as (_ & Hg & _).
  apply spawn_obstacles_census in Hobst as (Hc & Hfx & Hfy & _ & Hiff & _);
    [|exact Ho|exact Hg].
  simpl in Hfx, Hfy, Hiff. rewrite Hfx, Hfy.
  split; [exact Hc|]. split; [exact Hg | exact Hiff].
Qed.

Lemma game_reset_census (g : game) ds g' ds' :
  arrays_sized g -> game_reset g ds = Some (g', ds') ->
  census g'
  /\ in_grid (food_x g') (food_y g')
  /\ (obstacle_at g' (food_x g') (food_y g') <> 0 <-> on_border (food_x g') (food_y g')).
Proof.
  intros Hs H.
  exact (spawns_after_reset_census (reset_globals g) ds g' ds'
           (reset_globals_obstacle g Hs) H).
Qed.

Lemma census_same_obstacles (g g' : game) : same_obstacles g g' -> census g -> census g'.
Proof.
  intros [Eo Ec] [Hc Hb]. unfold census, blocked_cells in *. rewrite Eo, Ec. tauto.
Qed.

Ltac same_obstacles_tac :=
  unfold same_obstacles, start_effect, add_score, grow, commit_move, turned, press_select,
    turn, update_particles, frame_prelude;
  repeat case_match; simpl; split; reflexivity.

Section Census.

Variable gate : Z -> bool.

Lemma update_snake_obstacles (g : game) ds g' ds' :
  update_snake gate g ds = Some (g', ds') -> same_obstacles g g'.
Proof.
  intros H. destruct (fatalb g) eqn:Hf.
  - rewrite update_snake_fatal in H by assumption. inversion H; subst. split; reflexivity.
  - rewrite update_snake_commit in H by assumption.
    apply after_commit_inv in H. cbv zeta in H.
    destruct H as (g3 & [[_ ->] | (_ & ps & fx & fy & t & ix & iy & _ & _ & ->)] & Hg');
      destruct Hg' as [-> | (_ & ps' & ->)]; same_obstacles_tac.
Qed.

Lemma press_start_census (g : game) ds g' ds' :
  arrays_sized g -> census g -> press_start g ds = Some (g', ds') -> census g'.
Proof.
  intros Hs Hc H. unfold press_start in H.
  assert (Hs' : arrays_sized (set_state STATE_PLAY g)) by exact Hs.
  destruct (state g).
  - exact (proj1 (game_reset_census _ _ _ _ Hs' H)).
  - inversion H; subst. exact Hc.
  - inversion H; subst. exact Hc.
  - exact (proj1 (game_reset_census _ _ _ _ Hs' H)).
Qed.

Lemma handle_input_census (i : input) (g : game) ds g' ds' :
  arrays_sized g -> census g -> handle_input i g ds = Some (g', ds') -> census g'.
Proof.
  intros Hs Hc H. apply handle_input_inv in H as (g1 & Hstart & Hg'). cbv zeta in Hg'.
  assert (H1 : census g1).
  { destruct (_ && _) in Hstart.
    - eapply press_start_census; eassumption.
    - destruct Hstart as [-> _]. exact Hc. }
  rewrite Hg'. eapply census_same_obstacles; [|exact H1]. same_obstacles_tac.
Qed.

Lemma play_frame_census (g : game) ds g' ds' :
  census g -> play_frame gate g ds = Some (g', ds') -> census g'.
Proof.
  intros Hc H. apply play_frame_inv in H. cbv zeta in H.
  destruct H as [(_ & -> & _) | (_ & g2 & Hup & ->)].
  - exact Hc.
  - apply update_snake_obstacles in Hup.
    eapply census_same_obstacles; [|exact Hc].
    destruct Hup as [Eo Ec]. split; [exact Eo | exact Ec].
Qed.

Lemma retro_run_census (i : input) (g : game) ds g' ds' :
  arrays_sized g -> census g -> retro_run gate i g ds = Some (g', ds') -> census g'.
Proof.
  intros Hs Hc H. apply retro_run_inv in H as (g1 & ds1 & g2 & Hin & Hfr & ->).
  apply (handle_input_census _ _ _ _ _ Hs Hc) in Hin.
  assert (H2 : census g2).
  { destruct (bool_decide _) in Hfr.
    - eapply play_frame_census; eassumption.
    - destruct Hfr as [-> _]. exact Hin. }
  exact H2.
Qed.

Lemma reachable_census (g : game) : reachable gate g -> census g.
Proof.
  induction 1 as [g ds g' ds' Hs H | g ds g' ds' R IH H | i g ds g' ds' R IH H
                 | i g ds g' ds' R IH H].
  - exact (proj1 (game_reset_census g ds g' ds' Hs H)).
  - eapply census_same_obstacles; [eapply update_snake_obstacles; exact H | exact IH].
  - eapply handle_input_census; [|exact IH|exact H].
    exact (proj1 (reachable_playable gate g R)).
  - eapply retro_run_census; [|exact IH|exact H].
    exact (proj1 (reachable_playable gate g R)).
Qed.

End Census.

(** X9. In every reachable state the obstacle counter equals the number of
    grid cells that hold an obstacle, and both equal the 136 cells of the
    border ring plus the 12 random obstacles: every random obstacle of a
    reset lands on a cell that was free of obstacles, and nothing but a reset
    changes the obstacle grid. *)
Theorem obstacle_count_is_exact (gate : Z -> bool) (g : game) :
  reachable gate g ->
  obstacle_count g = blocked_cells g /\ blocked_cells g = obstacle_total.
Proof.
  intros R. apply reachable_census in R as [Hc Hb]. split; congruence.
Qed.

Lemma obstacle_count_witness :
  obstacle_count stepped_game = blocked_cells stepped_game
  /\ blocked_cells stepped_game = obstacle_total.
Proof.
  exact (obstacle_count_is_exact sample_gate stepped_game stepped_game_reachable).
Defined.

(** X10. A reset places the food on a grid cell, and that cell ends up
    holding an obstacle exactly when it lies on the border ring: the food is
    drawn before the border is built, which does not spare it, whereas the
    random obstacles placed afterwards do. *)
Theorem reset_blocks_food_on_border_only (g : game) ds g' ds' :
  arrays_sized g -> game_reset g ds = Some (g', ds') ->
  in_grid (food_x g') (food_y g')
  /\ (obstacle_at g' (food_x g') (food_y g') <> 0
      <-> on_border (food_x g') (food_y g')).
Proof.
  intros Hs H. exact (proj2 (game_reset_census g ds g' ds' Hs H)).
Qed.

Lemma reset_food_witness :
  in_grid (food_x started_game) (food_y started_game)
  /\ (obstacle_at started_game (food_x started_game) (food_y started_game) <> 0
      <-> on_border (food_x started_game) (food_y started_game)).
Proof.
  exact (reset_blocks_food_on_border_only (set_state STATE_PLAY init_game) sample_draws
           started_game [] started_game_sized started_game_run).
Defined.

(** ** Food under the border *)

Lemma aget_replicate_0 (n : nat) (i : Z) : aget (replicate n 0) i = 0.
Proof.
  unfold aget. destruct (i <? 0); [reflexivity|].
  destruct (replicate n 0 !! Z.to_nat i) as [v|] eqn:E; [|reflexivity].
  apply lookup_replicate in E as [-> _]. reflexivity.
Qed.

Lemma border_cell_free_after_clear (r : game) (x y : Z) :
  snake_length r = 3 ->
  snake_cell r 0 = (GRID_W / 2, GRID_H / 2) ->
  snake_cell r 1 = (GRID_W / 2 - 1, GRID_H / 2) ->
  snake_cell r 2 = (GRID_W / 2 - 2, GRID_H / 2) ->
  obstacle r = obstacle init_game -> item_type r = ITEM_NONE ->
  on_border x y -> cell_collides r x y = false.
Proof.
  intros Hl H0 H1 H2 Ho Hit Hb. unfold cell_collides.
  apply orb_false_iff. split; [apply orb_false_iff; split|].
  - destruct (snake_occupies r x y) eqn:E; [|reflexivity].
    apply snake_occupies_spec in E as (i & Hi & Hc). exfalso.
    rewrite Hl in Hi. assert (Hcases : i = 0 \/ i = 1 \/ i = 2) by lia.
    unfold on_border, GRID_W, GRID_H in Hb.
    destruct Hcases as [-> | [-> | ->]]; rewrite ?H0, ?H1, ?H2 in Hc;
      vm_compute in Hc; inversion Hc; subst; lia.
  - unfold obstacle_at. rewrite Ho. apply truthy_false.
    apply (aget_replicate_0 (Z.to_nat (GRID_W * GRID_H))).
  - unfold item_occupies. rewrite Hit. reflexivity.
Qed.

Lemma spawns_after_reset_bury (r : game) (rx ry : nat) ds dsa g' ds' :
  dsa = rx :: ry :: ds ->
  snake_length r = 3 ->
  snake_cell r 0 = (GRID_W / 2, GRID_H / 2) ->
  snake_cell r 1 = (GRID_W / 2 - 1, GRID_H / 2) ->
  snake_cell r 2 = (GRID_W / 2 - 2, GRID_H / 2) ->
  obstacle r = obstacle init_game -> item_type r = ITEM_NONE ->
  on_border (Z.rem (Z.of_nat rx) GRID_W) (Z.rem (Z.of_nat ry) GRID_H) ->
  bind (spawn_food r) spawn_obstacles dsa = Some (g', ds') ->
  food_x g' = Z.rem (Z.of_nat rx) GRID_W /\ food_y g' = Z.rem (Z.of_nat ry) GRID_H
  /\ obstacle_at g' (food_x g') (food_y g') <> 0.
Proof.
  intros -> Hl H0 H1 H2 Ho Hit Hb H.
  pose proof (border_cell_free_after_clear r _ _ Hl H0 H1 H2 Ho Hit Hb) as Hfree.
  pose proof (spawns_after_reset_census r _ _ _ Ho H) as (_ & _ & Hiff).
  apply bind_Some in H as (g1 & ds1 & Hfood & Hobst).
  unfold spawn_food, bind in Hfood.
  rewrite (random_free_cell_first r rx ry ds Hfree) in Hfood.
  apply ret_Some in Hfood. inversion Hfood; subst g1 ds1. clear Hfood.
  apply spawn_obstacles_frame in Hobst as (o & c & ->).
  cbn [food_x food_y set_obstacle_count set_obstacle set_food_y set_food_x fst snd] in *.
  split; [reflexivity|]. split; [reflexivity|].
  apply Hiff. exact Hb.
Qed.

(** X11. A reset whose first two draws name a cell of the border ring puts
    the food on that cell, and the cell then holds an obstacle: the food
    lies where the head can never go. *)
Theorem reset_can_bury_food (g : game) (rx ry : nat) ds g' ds' :
  arrays_sized g ->
  on_border (Z.rem (Z.of_nat rx) GRID_W) (Z.rem (Z.of_nat ry) GRID_H) ->
  game_reset g (rx :: ry :: ds) = Some (g', ds') ->
  food_x g' = Z.rem (Z.of_nat rx) GRID_W /\ food_y g' = Z.rem (Z.of_nat ry) GRID_H
  /\ obstacle_at g' (food_x g') (food_y g') <> 0.
Proof.
  intros Hs Hb. generalize (eq_refl (rx :: ry :: ds)).
  generalize (rx :: ry :: ds) at 2 3. intros dsa Hds H.
  destruct (reset_globals_ready g Hs) as (_ & Hl & _).
  destruct (reset_globals_layout g Hs) as (H0 & H1 & H2 & _ & _ & Hit & _).
  exact (spawns_after_reset_bury (reset_globals g) rx ry ds dsa g' ds' (eq_sym Hds)
           Hl H0 H1 H2 (reset_globals_obstacle g Hs) Hit Hb H).
Qed.

Lemma buried_game_run :
  game_reset (set_state STATE_PLAY init_game) buried_draws = Some (buried_game, []).
Proof. vm_compute. reflexivity. Qed.

Lemma bury_food_witness :
  food_x buried_game = Z.rem (Z.of_nat 0) GRID_W
  /\ food_y buried_game = Z.rem (Z.of_nat 5) GRID_H
  /\ obstacle_at buried_game (food_x buried_game) (food_y buried_game) <> 0.
Proof.
  apply (reset_can_bury_food (set_state STATE_PLAY init_game) 0 5
           (drop 2 sample_draws) buried_game []).
  - exact started_game_sized.
  - left. reflexivity.
  - exact buried_game_run.
Defined.

Section Buried.

Variable gate : Z -> bool.

Lemma buried_food_tick (g : game) ds g' ds' :
  on_obstacle g (food_x g) (food_y g) ->
  update_snake gate g ds = Some (g', ds') ->
  food_x g' = food_x g /\ food_y g' = food_y g
  /\ score g' = score g /\ snake_length g' = snake_length g
  /\ obstacle g' = obstacle g.
Proof.
  intros Hob H. destruct (fatalb g) eqn:Hf.
  - rewrite update_snake_fatal in H by assumption. inversion H; subst.
    repeat split; reflexivity.
  - rewrite update_snake_commit in H by assumption.
    apply after_commit_steps in H. cbv zeta in H.
    destruct H as (g3 & ds3 & Hfirst & Hsecond).
    destruct Hfirst as [(_ & -> & _) | (Hc & _)].
    + destruct Hsecond as [(_ & -> & _) | (_ & Ht)].
      * repeat split; reflexivity.
      * apply take_item_steps in Ht as (ps & _ & ->).
        unfold start_effect. case_match; simpl; repeat split; reflexivity.
    + exfalso.
      assert (Hfat : fatal_collision g).
      { right. right. rewrite Hc. exact Hob. }
      apply fatalb_spec in Hfat. congruence.
Qed.

(** X12. Food that lies on an obstacle is never eaten: a frame without a
    newly pressed Start leaves the food where it is and the score and the
    length of the snake as they were, so this holds for as long as the game
    is not restarted. *)
Theorem buried_food_is_never_eaten (i : input) (g : game) ds g' ds' :
  on_obstacle g (food_x g) (food_y g) -> start_edge i g = false ->
  retro_run gate i g ds = Some (g', ds') ->
  food_x g' = food_x g /\ food_y g' = food_y g
  /\ score g' = score g /\ snake_length g' = snake_length g
  /\ on_obstacle g' (food_x g') (food_y g').
Proof.
  intros Hob He H.
  assert (Hkeep : food_x g' = food_x g /\ food_y g' = food_y g
                  /\ score g' = score g /\ snake_length g' = snake_length g
                  /\ obstacle g' = obstacle g).
  { apply retro_run_inv in H as (g1 & ds1 & g2 & Hin & Hfr & ->).
    apply handle_input_inv in Hin as (g0 & Hstart & Hg1). cbv zeta in Hg1.
    unfold start_edge in He. rewrite He in Hstart. destruct Hstart as [-> _].
    assert (H1 : food_x g1 = food_x g /\ food_y g1 = food_y g
                 /\ score g1 = score g /\ snake_length g1 = snake_length g
                 /\ obstacle g1 = obstacle g).
    { rewrite Hg1. unfold press_select, turn.
      repeat case_match; simpl; repeat split; reflexivity. }
    clear Hg1. destruct H1 as (F1 & F2 & F3 & F4 & F5).
    assert (H2 : food_x g2 = food_x g1 /\ food_y g2 = food_y g1
                 /\ score g2 = score g1 /\ snake_length g2 = snake_length g1
                 /\ obstacle g2 = obstacle g1).
    { destruct (bool_decide _) in Hfr.
      - apply play_frame_inv in Hfr. cbv zeta in Hfr.
        destruct Hfr as [(_ & -> & _) | (_ & g3 & Hup & ->)].
        + repeat split; reflexivity.
        + apply buried_food_tick in Hup; [exact Hup|].
          change (on_obstacle g1 (food_x g1) (food_y g1)).
          unfold on_obstacle, obstacle_at. rewrite F1, F2, F5. exact Hob.
      - destruct Hfr as [-> _]. repeat split; reflexivity. }
    destruct H2 as (G1 & G2 & G3 & G4 & G5).
    simpl. repeat split; congruence. }
  destruct Hkeep as (K1 & K2 & K3 & K4 & K5).
  split; [exact K1|]. split; [exact K2|]. split; [exact K3|]. split; [exact K4|].
  unfold on_obstacle, obstacle_at. rewrite K1, K2, K5. exact Hob.
Qed.

End Buried.

Lemma buried_frame_run :
  retro_run sample_gate no_input (set_move_counter 1 buried_game) []
  = Some (buried_frame, []).
Proof. vm_compute. reflexivity. Qed.

Lemma buried_food_witness :
  food_x buried_frame = food_x (set_move_counter 1 buried_game)
  /\ food_y buried_frame = food_y (set_move_counter 1 buried_game)
  /\ score buried_frame = score (set_move_counter 1 buried_game)
  /\ snake_length buried_frame = snake_length (set_move_counter 1 buried_game)
  /\ on_obstacle buried_frame (food_x buried_frame) (food_y buried_frame).
Proof.
  apply (buried_food_is_never_eaten sample_gate no_input
           (set_move_counter 1 buried_game) [] buried_frame []).
  - split; [vm_compute; repeat split; discriminate|]. vm_compute. discriminate.
  - reflexivity.
  - exact buried_frame_run.
Defined.

(** ** Spawning an item *)

(** X13. [spawn_item] never replaces an active item: it then returns the
    state unchanged and draws nothing.  When it does place an item, the item
    lies on a grid cell free of the snake and of obstacles, and never on the
    cell recorded for the previous item, because the new kind is stored
    before the cell is chosen and the stale coordinates then count as
    occupied. *)
Theorem spawn_item_respects_items (gate : Z -> bool) (g : game) ds g' ds' :
  spawn_item gate g ds = Some (g', ds') ->
  (item_type g <> ITEM_NONE -> g' = g /\ ds' = ds)
  /\ (item_type g = ITEM_NONE ->
      g' = g
      \/ (item_type g' <> ITEM_NONE
          /\ in_grid (item_x g') (item_y g')
          /\ ~ on_snake g' (item_x g') (item_y g')
          /\ obstacle_at g' (item_x g') (item_y g') = 0
          /\ (item_x g', item_y g') <> (item_x g, item_y g))).
Proof.
  intros H. split.
  - intros Hn. unfold spawn_item in H.
    rewrite (bool_decide_eq_false_2 _ Hn) in H. simpl in H.
    apply ret_Some in H. inversion H. split; reflexivity.
  - intros Hnone. apply spawn_item_cases in H
      as [-> | (_ & t & x & y & dsr & Ht & Hcell & ->)]; [left; reflexivity|].
    right. apply random_free_cell_inv in Hcell as (Hcol & Hg & _).
    pose proof (cell_collides_false _ _ _ Hg Hcol) as (Hns & Hno & Hni).
    simpl. split; [exact Ht|]. split; [exact Hg|]. split; [exact Hns|].
    split; [exact (obstacle_free_0 _ _ _ Hg Hno)|].
    intros E. inversion E as [[Ex Ey]]. apply Hni.
    split; [exact Ht|]. simpl. split; congruence.
Qed.

Lemma itemised_game_run :
  spawn_item sample_gate started_game item_draws = Some (itemised_game, []).
Proof. vm_compute. reflexivity. Qed.

Lemma spawn_item_witness :
  (item_type started_game <> ITEM_NONE -> itemised_game = started_game /\ [] = item_draws)
  /\ (item_type started_game = ITEM_NONE ->
      itemised_game = started_game
      \/ (item_type itemised_game <> ITEM_NONE
          /\ in_grid (item_x itemised_game) (item_y itemised_game)
          /\ ~ on_snake itemised_game (item_x itemised_game) (item_y itemised_game)
          /\ obstacle_at itemised_game (item_x itemised_game) (item_y itemised_game) = 0
          /\ (item_x itemised_game, item_y itemised_game)
             <> (item_x started_game, item_y started_game))).
Proof.
  exact (spawn_item_respects_items sample_gate started_game item_draws itemised_game []
           itemised_game_run).
Defined.

Example itemised_game_facts :
  item_type itemised_game = ITEM_PHASE
  /\ (item_x itemised_game, item_y itemised_game) = (10, 20).
Proof. vm_compute. split; reflexivity. Qed.

(** ** The particle pool *)

Lemma spawn_particles_loop_saturated (ps : list particle_t) ds :
  Forall (fun p => active p = true) ps -> spawn_particles_loop ps ds = Some (ps, ds).
Proof.
  revert ds. induction ps as [|p ps IH]; intros ds Hall; simpl; [reflexivity|].
  inversion Hall as [|? ? Hp Hrest]; subst. rewrite Hp.
  unfold bind. rewrite (IH ds Hrest). reflexivity.
Qed.

Lemma spawn_particles_loop_first (ps : list particle_t) :
  forall ds ps' ds' k p,
    spawn_particles_loop ps ds = Some (ps', ds') ->
    ps !! k = Some p -> active p = false ->
    (forall j q, (j < k)%nat -> ps !! j = Some q -> active q = true) ->
    exists p', ps' !! k = Some p' /\ active p' = true.
Proof.
  induction ps as [|p0 ps IH]; intros ds ps' ds' k p H Hk Hp Hbefore.
  - destruct k; discriminate.
  - simpl in H. destruct (active p0) eqn:Ha.
    + destruct k as [|k].
      * simpl in Hk. inversion Hk; subst. congruence.
      * rand_inv. simpl in Hk.
        destruct (IH _ _ _ k p Hrun Hk Hp) as (p' & Hp' & Hact).
        { intros j q Hj Hq. apply (Hbefore (S j) q); [lia | exact Hq]. }
        exists p'. split; [exact Hp' | exact Hact].
    + destruct k as [|k].
      * rand_inv. destruct (Z.rem a2 2 =? 0); rand_inv; eexists; split; reflexivity.
      * exfalso. specialize (Hbefore 0%nat p0 ltac:(lia) eq_refl). congruence.
Qed.

(** X14. An explosion never touches a particle that is still active and
    never resizes the pool; a slot it changes was inactive and is now active
    with 30 to 59 frames to live.  The first inactive slot of the pool is
    always activated, and a pool without an inactive slot is left as it is
    without any draw. *)
Theorem spawn_particles_reuses_idle_slots (g : game) ds g' ds' :
  spawn_particles g ds = Some (g', ds') ->
  length (particles g') = length (particles g)
  /\ (forall k p, particles g !! k = Some p -> active p = true ->
        particles g' !! k = Some p)
  /\ (forall k p', particles g' !! k = Some p' ->
        particles g !! k = Some p'
        \/ (exists p, particles g !! k = Some p /\ active p = false)
           /\ active p' = true /\ 30 <= lifetime p' <= 59)
  /\ (forall k p, particles g !! k = Some p -> active p = false ->
        (forall j q, (j < k)%nat -> particles g !! j = Some q -> active q = true) ->
        exists p', particles g' !! k = Some p' /\ active p' = true)
  /\ (Forall (fun p => active p = true) (particles g) ->
        particles g' = particles g /\ ds' = ds).
Proof.
  unfold spawn_particles. intros H. rand_inv. simpl.
  pose proof (spawn_particles_loop_spec _ _ _ _ Hrun) as (Hlen & Hkeep & Hnew).
  split; [exact Hlen|]. split; [exact Hkeep|]. split; [exact Hnew|]. split.
  - intros k p Hk Hp Hbefore.
    exact (spawn_particles_loop_first _ _ _ _ k p Hrun Hk Hp Hbefore).
  - intros Hall. rewrite (spawn_particles_loop_saturated _ ds Hall) in Hrun.
    inversion Hrun. split; reflexivity.
Qed.

Lemma sparked_game_run :
  spawn_particles started_game pickup_draws = Some (sparked_game, []).
Proof. vm_compute. reflexivity. Qed.

Lemma spawn_particles_witness :
  exists p', particles sparked_game !! 0%nat = Some p' /\ active p' = true.
Proof.
  apply (proj1 (proj2 (proj2 (proj2
           (spawn_particles_reuses_idle_slots started_game pickup_draws sparked_game []
              sparked_game_run))))
         0%nat {| lifetime := 0; active := false |}).
  - vm_compute. reflexivity.
  - reflexivity.
  - intros j q Hj. lia.
Defined.

(** ** Save states: what a load leaves alone *)

(** X15. A load that is accepted restores neither the pending direction,
    nor the obstacle grid and its counter, nor the particles, nor the
    remembered Start and Select buttons: whatever the buffer holds, these
    keep the values of the game that was running. *)
Theorem load_leaves_unsaved_globals (g : game) (data : list Z) (size : Z) (g' : game) :
  retro_unserialize g data size = inr (true, g') ->
  pending_dir g' = pending_dir g
  /\ obstacle g' = obstacle g /\ obstacle_count g' = obstacle_count g
  /\ particles g' = particles g
  /\ prev_start g' = prev_start g /\ prev_select g' = prev_select g.
Proof.
  intros H. apply retro_unserialize_frame in H as (H1 & H2 & H3 & H4 & H5 & H6).
  repeat split; assumption.
Qed.

Lemma reloaded_game_run :
  retro_unserialize turning_game saved_blob retro_serialize_size = inr (true, reloaded_game).
Proof. vm_compute. reflexivity. Qed.

Lemma load_leaves_witness :
  pending_dir reloaded_game = pending_dir turning_game
  /\ obstacle reloaded_game = obstacle turning_game
  /\ obstacle_count reloaded_game = obstacle_count turning_game
  /\ particles reloaded_game = particles turning_game
  /\ prev_start reloaded_game = prev_start turning_game
  /\ prev_select reloaded_game = prev_select turning_game.
Proof.
  exact (load_leaves_unsaved_globals turning_game saved_blob retro_serialize_size
           reloaded_game reloaded_game_run).
Defined.

(** X16. The direction stored in a save state does not survive the first
    step after the load: the step turns the snake into the pending direction
    of the game that was running when the load happened. *)
Theorem step_after_load_follows_old_pending (gate : Z -> bool) (g : game)
    (data : list Z) (size : Z) (g1 : game) ds g2 ds' :
  retro_unserialize g data size = inr (true, g1) ->
  update_snake gate g1 ds = Some (g2, ds') ->
  snake_dir g2 = pending_dir g /\ pending_dir g2 = pending_dir g.
Proof.
  intros Hload Hstep.
  apply retro_unserialize_frame in Hload as (Hp & _).
  apply update_snake_dirs in Hstep as [Hd Hp2].
  rewrite Hd, Hp2, Hp. split; reflexivity.
Qed.

Lemma reloaded_step_run :
  update_snake sample_gate reloaded_game [] = Some (reloaded_step, []).
Proof. vm_compute. reflexivity. Qed.

Lemma step_after_load_witness :
  snake_dir reloaded_step = pending_dir turning_game
  /\ pending_dir reloaded_step = pending_dir turning_game.
Proof.
  exact (step_after_load_follows_old_pending sample_gate turning_game saved_blob
           retro_serialize_size reloaded_game [] reloaded_step []
           reloaded_game_run reloaded_step_run).
Defined.

Example reloaded_facts :
  snake_dir started_game = DIR_RIGHT /\ snake_dir reloaded_game = DIR_RIGHT
  /\ snake_dir reloaded_step = DIR_UP /\ head_cell reloaded_step = (20, 14).
Proof. vm_compute. repeat split; reflexivity. Qed.

(** * The HUD layer *)

(** ** Colours *)

Lemma channel_byte (z : Z) : Z.land (to_uint32 z) 0xFF = z mod 2 ^ 8.
Proof.
  unfold to_uint32. change 0xFF with (Z.ones 8). rewrite Z.land_ones by lia.
  apply Z.mod_mod_divide. exists (2 ^ 24). reflexivity.
Qed.

Lemma RGB_bits (r g b n : Z) :
  0 <= n ->
  Z.testbit (RGB r g b) n
  = ((16 <=? n) && (n <? 24) && Z.testbit r (n - 16))
    || ((8 <=? n) && (n <? 16) && Z.testbit g (n - 8))
    || ((n <? 8) && Z.testbit b n).
Proof.
  intros Hn. unfold RGB. rewrite !channel_byte, !Z.lor_spec.
  rewrite !Z.shiftl_spec by lia. 
  destruct (Z.leb_spec 16 n); destruct (Z.ltb_spec n 24); destruct (Z.leb_spec 8 n);
    destruct (Z.ltb_spec n 16); destruct (Z.ltb_spec n 8); try lia; simpl;
    rewrite ?(Z.testbit_neg_r _ (n - 16)) by lia;
    rewrite ?(Z.testbit_neg_r _ (n - 8)) by lia;
    rewrite ?Z.testbit_mod_pow2 by lia;
    repeat match goal with
      | |- context [?a <? 8] =>
          destruct (Z.ltb_spec a 8); try lia
      end; simpl; rewrite ?orb_false_r; reflexivity.
Qed.

(** X17. Packing with [RGB] and unpacking with the shifts and masks the
    renderer uses give back each channel reduced to a byte, and the packed
    colour has no bit set above the three channels. *)
Theorem RGB_unpacks_to_channels (r g b : Z) :
  red_of (RGB r g b) = r mod 256
  /\ green_of (RGB r g b) = g mod 256
  /\ blue_of (RGB r g b) = b mod 256
  /\ Z.shiftr (RGB r g b) 24 = 0.
Proof.
  change 256 with (2 ^ 8).
  repeat split; apply Z.bits_inj'; intros n Hn;
    unfold red_of, green_of, blue_of;
    rewrite ?Z.land_spec, ?Z.shiftr_spec, ?Z.bits_0, ?Z.testbit_mod_pow2 by lia;
    rewrite RGB_bits by lia;
    change 0xFF with (Z.ones 8); rewrite ?Z.testbit_ones_nonneg by lia;
    destruct (Z.ltb_spec n 8);
    repeat match goal with
      | |- context [?a <=? ?b] => destruct (Z.leb_spec a b); try lia
      | |- context [?a <? ?b] => destruct (Z.ltb_spec a b); try lia
      end; simpl; rewrite ?orb_false_r, ?andb_true_r, ?andb_false_r;
    try reflexivity; f_equal; lia.
Qed.

(** ** Pixels *)

Lemma screen_size_Z : Z.of_nat screen_size = FB_WIDTH * FB_HEIGHT.
Proof. unfold screen_size. rewrite Z2Nat.id; [reflexivity | vm_compute; discriminate]. Qed.

Lemma screen_dims : FB_WIDTH = 640 /\ FB_HEIGHT = 480.
Proof. split; reflexivity. Qed.

Lemma length_plot (fb : list Z) (a b c : Z) : length (plot fb a b c) = length fb.
Proof. unfold plot. destruct (_ && _); [apply length_aset | reflexivity]. Qed.

Lemma pixel_plot (fb : list Z) (a b c u v : Z) :
  length fb = screen_size -> on_screen u v ->
  pixel (plot fb a b c) u v = if (a =? u) && (b =? v) then c else pixel fb u v.
Proof.
  intros Hlen [Hu Hv]. pose proof screen_size_Z as HN.
  destruct screen_dims as [HW HH]. rewrite HW, HH in *.
  unfold plot, pixel. rewrite HW, HH.
  destruct ((a >=? 0) && (a <? 640) && (b >=? 0) && (b <? 480)) eqn:Hguard.
  - apply andb_true_iff in Hguard as [Hguard Hb2].
    apply andb_true_iff in Hguard as [Hguard Hb1].
    apply andb_true_iff in Hguard as [Ha1 Ha2].
    apply Z.geb_le in Ha1, Hb1. apply Z.ltb_lt in Ha2, Hb2.
    rewrite (wrap_int_id (b * 640)) by (unfold is_int, INT_MIN, INT_MAX; lia).
    rewrite (wrap_int_id (b * 640 + a)) by (unfold is_int, INT_MIN, INT_MAX; lia).
    destruct (Z.eqb_spec a u) as [-> | Hne].
    + destruct (Z.eqb_spec b v) as [-> | Hne]; simpl.
      * apply aget_aset_eq. rewrite Hlen, HN. lia.
      * apply aget_aset_ne. lia.
    + simpl. apply aget_aset_ne. lia.
  - destruct (Z.eqb_spec a u) as [-> | Hne]; [|reflexivity].
    destruct (Z.eqb_spec b v) as [-> | Hne]; [|reflexivity].
    exfalso. 
    assert (Ht : (u >=? 0) && (u <? 640) && (v >=? 0) && (v <? 480) = true).
    { rewrite !andb_true_iff, !Z.geb_le, !Z.ltb_lt. lia. }
    congruence.
Qed.

Lemma paints_plot (fb : list Z) (a b c : Z) :
  length fb = screen_size ->
  paints (fun u v => (a =? u) && (b =? v)) c fb (plot fb a b c).
Proof.
  intros Hlen. split; [apply length_plot|].
  intros u v Huv. apply pixel_plot; assumption.
Qed.

Lemma paints_ext (s s' : Z -> Z -> bool) (c : Z) (fb fb' : list Z) :
  (forall u v, on_screen u v -> s u v = s' u v) ->
  paints s c fb fb' -> paints s' c fb fb'.
Proof.
  intros He [Hl Hp]. split; [exact Hl|].
  intros u v Huv. rewrite <- (He u v Huv). apply Hp, Huv.
Qed.

Lemma paints_none (c : Z) (fb : list Z) : paints (fun _ _ => false) c fb fb.
Proof. split; [reflexivity|]. intros u v _. reflexivity. Qed.

Lemma paints_then (s1 s2 : Z -> Z -> bool) (c : Z) (fb fb1 fb2 : list Z) :
  paints s1 c fb fb1 -> paints s2 c fb1 fb2 ->
  paints (fun u v => s1 u v || s2 u v) c fb fb2.
Proof.
  intros [L1 P1] [L2 P2]. split; [congruence|].
  intros u v Huv. rewrite (P2 u v Huv), (P1 u v Huv).
  destruct (s1 u v), (s2 u v); reflexivity.
Qed.

(** A loop whose every round paints with the same colour. *)
Lemma paints_fold (s : Z -> Z -> Z -> bool) (c : Z) (body : Z -> list Z -> list Z)
    (l : list nat) :
  forall fb,
    (forall i fb, In i l -> length fb = screen_size ->
                  paints (s (Z.of_nat i)) c fb (body (Z.of_nat i) fb)) ->
    length fb = screen_size ->
    paints (fun u v => existsb (fun i => s (Z.of_nat i) u v) l) c fb
      (fold_left (fun a i => body (Z.of_nat i) a) l fb).
Proof.
  induction l as [|i l IH]; intros fb Hbody Hlen; simpl.
  - apply paints_none.
  - pose proof (Hbody i fb (or_introl eq_refl) Hlen) as H1.
    eapply paints_then; [exact H1|].
    apply IH.
    + intros j fb' Hj. apply Hbody. right. exact Hj.
    + destruct H1 as [-> _]. exact Hlen.
Qed.

Lemma paints_for_int (s : Z -> Z -> Z -> bool) (c : Z) (body : Z -> list Z -> list Z)
    (n : Z) (fb : list Z) :
  (forall i fb, 0 <= i < n -> length fb = screen_size ->
                paints (s i) c fb (body i fb)) ->
  length fb = screen_size ->
  paints (fun u v => existsb (fun i => s (Z.of_nat i) u v) (seq 0 (Z.to_nat n))) c fb
    (for_int n body fb).
Proof.
  intros Hbody Hlen. unfold for_int. apply paints_fold; [|exact Hlen].
  intros i fb' Hi. apply Hbody. apply in_seq in Hi. lia.
Qed.

Lemma existsb_range (a n u : Z) :
  existsb (fun i => a + Z.of_nat i =? u) (seq 0 (Z.to_nat n))
  = (a <=? u) && (u <? a + n).
Proof.
  apply eq_true_iff_eq. rewrite existsb_exists, andb_true_iff, Z.leb_le, Z.ltb_lt.
  split.
  - intros (i & Hi & He). apply in_seq in Hi. apply Z.eqb_eq in He. lia.
  - intros [H1 H2]. exists (Z.to_nat (u - a)). split.
    + apply in_seq. lia.
    + apply Z.eqb_eq. lia.
Qed.

Lemma existsb_const_r (f : nat -> bool) (b : bool) (l : list nat) :
  existsb (fun i => f i && b) l = existsb f l && b.
Proof.
  induction l as [|i l IH]; simpl; [reflexivity|].
  rewrite IH. destruct (f i), b, (existsb f l); reflexivity.
Qed.

Lemma existsb_const_l (f : nat -> bool) (b : bool) (l : list nat) :
  existsb (fun i => b && f i) l = b && existsb f l.
Proof.
  induction l as [|i l IH]; simpl; [destruct b; reflexivity|].
  rewrite IH. destruct (f i), b, (existsb f l); reflexivity.
Qed.

Lemma existsb_ext_in (f g : nat -> bool) (l : list nat) :
  (forall i, In i l -> f i = g i) -> existsb f l = existsb g l.
Proof.
  induction l as [|i l IH]; intros H; simpl; [reflexivity|].
  rewrite (H i (or_introl eq_refl)), IH; [reflexivity|].
  intros j Hj. apply H. right. exact Hj.
Qed.

Lemma modest_sum (a b : Z) : modest a -> modest b -> wrap_int (a + b) = a + b.
Proof.
  unfold modest. intros Ha Hb. apply wrap_int_id. unfold is_int, INT_MIN, INT_MAX. lia.
Qed.

(** ** Segments *)

Lemma draw_segment_paints (x y px py pw ph colour : Z) (fb : list Z) :
  length fb = screen_size ->
  modest x -> modest y -> modest px -> modest py -> modest pw -> modest ph ->
  paints (in_rect (x + px) (y + py) pw ph) colour fb
    (draw_segment x y px py pw ph colour fb).
Proof.
  intros Hlen Hx Hy Hpx Hpy Hpw Hph. unfold draw_segment.
  eapply paints_ext; [|apply (paints_for_int
    (fun yy u v => (x + px <=? u) && (u <? x + px + pw) && (y + py + yy =? v)));
    [|exact Hlen]].
  - intros u v _. cbv beta. rewrite existsb_const_l.
    rewrite existsb_range. unfold in_rect.
    destruct (x + px <=? u), (u <? x + px + pw), (y + py <=? v), (v <? y + py + ph);
      reflexivity.
  - intros yy fb1 Hyy Hlen1. cbv beta.
    eapply paints_ext; [|apply (paints_for_int
      (fun xx u v => (x + px + xx =? u) && (y + py + yy =? v))); [|exact Hlen1]].
    + intros u v _. cbv beta. rewrite existsb_const_r.
      rewrite existsb_range. reflexivity.
    + intros xx fb2 Hxx Hlen2. cbv beta zeta.
      unfold modest in *.
      rewrite (wrap_int_id (x + px)) by (unfold is_int, INT_MIN, INT_MAX; lia).
      rewrite (wrap_int_id (y + py)) by (unfold is_int, INT_MIN, INT_MAX; lia).
      rewrite (wrap_int_id (x + px + xx)) by (unfold is_int, INT_MIN, INT_MAX; lia).
      rewrite (wrap_int_id (y + py + yy)) by (unfold is_int, INT_MIN, INT_MAX; lia).
      apply paints_plot. exact Hlen2.
Qed.

(** X18. [draw_segment] sets to the given colour exactly the pixels of the
    rectangle of width [pw] and height [ph] at [(x + px, y + py)] that lie on
    the screen, leaves every other pixel as it was and keeps the size of the
    frame buffer: the part of the rectangle outside the screen is clipped,
    and an empty or negative width or height draws nothing. *)
Theorem draw_segment_fills_clipped_rectangle (x y px py pw ph colour : Z)
    (fb : list Z) (u v : Z) :
  length fb = screen_size ->
  modest x -> modest y -> modest px -> modest py -> modest pw -> modest ph ->
  on_screen u v ->
  length (draw_segment x y px py pw ph colour fb) = screen_size
  /\ pixel (draw_segment x y px py pw ph colour fb) u v
     = if (x + px <=? u) && (u <? x + px + pw) && (y + py <=? v) && (v <? y + py + ph)
       then colour else pixel fb u v.
Proof.
  intros Hlen Hx Hy Hpx Hpy Hpw Hph Huv.
  destruct (draw_segment_paints x y px py pw ph colour fb Hlen Hx Hy Hpx Hpy Hpw Hph)
    as [Hl Hp].
  split; [congruence|]. exact (Hp u v Huv).
Qed.

Lemma blank_screen_length : length blank_screen = screen_size.
Proof. apply length_replicate. Qed.

Lemma modest_small (z : Z) : -1000 <= z <= 1000 -> modest z.
Proof. unfold modest. lia. Qed.

Lemma draw_segment_witness :
  length (draw_segment 10 20 4 0 12 4 7 blank_screen) = screen_size
  /\ pixel (draw_segment 10 20 4 0 12 4 7 blank_screen) 14 20
     = if (10 + 4 <=? 14) && (14 <? 10 + 4 + 12) && (20 + 0 <=? 20) && (20 <? 20 + 0 + 4)
       then 7 else pixel blank_screen 14 20.
Proof.
  apply (draw_segment_fills_clipped_rectangle 10 20 4 0 12 4 7 blank_screen 14 20).
  - exact blank_screen_length.
  - apply modest_small. lia.
  - apply modest_small. lia.
  - apply modest_small. lia.
  - apply modest_small. lia.
  - apply modest_small. lia.
  - apply modest_small. lia.
  - unfold on_screen, FB_WIDTH, FB_HEIGHT, GRID_W, GRID_H, CELL_SIZE. lia.
Defined.

(** ** Digits *)

Lemma in_rect_spec (x y w h u v : Z) :
  in_rect x y w h u v = true <-> x <= u < x + w /\ y <= v < y + h.
Proof.
  unfold in_rect. rewrite !andb_true_iff, !Z.leb_le, !Z.ltb_lt. lia.
Qed.

Lemma in_rect_false (x y w h u v : Z) :
  ~ (x <= u < x + w /\ y <= v < y + h) -> in_rect x y w h u v = false.
Proof.
  intros H. destruct (in_rect x y w h u v) eqn:E; [|reflexivity].
  apply in_rect_spec in E. contradiction.
Qed.

Lemma paints_segment_if (b : bool) (x y px py pw ph colour : Z) (fb : list Z) :
  length fb = screen_size ->
  modest x -> modest y -> modest px -> modest py -> modest pw -> modest ph ->
  paints (fun u v => b && in_rect (x + px) (y + py) pw ph u v) colour fb
    (if b then draw_segment x y px py pw ph colour fb else fb).
Proof.
  intros Hlen Hx Hy Hpx Hpy Hpw Hph. destruct b.
  - apply draw_segment_paints; assumption.
  - apply paints_none.
Qed.

Lemma paints_length (s : Z -> Z -> bool) (c : Z) (fb fb' : list Z) :
  paints s c fb fb' -> length fb = screen_size -> length fb' = screen_size.
Proof. intros [Hl _] H. congruence. Qed.

Lemma draw_digit_paints (x y value colour : Z) (fb : list Z) :
  0 <= value <= 9 -> length fb = screen_size -> modest x -> modest y ->
  paints (digit_shape (aget seven_seg_digits value) x y) colour fb
    (draw_digit x y value colour fb).
Proof.
  intros Hv Hlen Hx Hy. unfold draw_digit.
  replace ((value <? 0) || (value >? 9)) with false
    by (symmetry; apply orb_false_iff; split;
        [apply Z.ltb_ge | rewrite Z.gtb_ltb; apply Z.ltb_ge]; lia).
  cbv zeta. set (mask := aget seven_seg_digits value). clearbody mask.
  assert (M : forall z, (-1000 <=? z) && (z <=? 1000) = true -> modest z).
  { intros z Hz. apply andb_true_iff in Hz as [H1 H2].
    apply Z.leb_le in H1, H2. apply modest_small. lia. }
  pose proof (paints_segment_if (truthy (Z.land mask 64)) x y 4 0 (20 - 2 * 4) 4 colour fb
                Hlen Hx Hy (M 4 eq_refl) (M 0 eq_refl) (M (20 - 2 * 4) eq_refl)
                (M 4 eq_refl)) as P1.
  set (fb1 := if truthy (Z.land mask 64) then _ else fb) in *.
  pose proof (paints_length _ _ _ _ P1 Hlen) as L1.
  pose proof (paints_segment_if (truthy (Z.land mask 32)) x y (20 - 4) 4 4
                (Z.quot 36 2 - 4) colour fb1
                L1 Hx Hy (M (20 - 4) eq_refl) (M 4 eq_refl) (M 4 eq_refl)
                (M (Z.quot 36 2 - 4) eq_refl)) as P2.
  set (fb2 := if truthy (Z.land mask 32) then _ else fb1) in *.
  pose proof (paints_length _ _ _ _ P2 L1) as L2.
  pose proof (paints_segment_if (truthy (Z.land mask 16)) x y (20 - 4) (Z.quot 36 2) 4
                (Z.quot 36 2 - 4) colour fb2
                L2 Hx Hy (M (20 - 4) eq_refl) (M (Z.quot 36 2) eq_refl)
                (M 4 eq_refl) (M (Z.quot 36 2 - 4) eq_refl)) as P3.
  set (fb3 := if truthy (Z.land mask 16) then _ else fb2) in *.
  pose proof (paints_length _ _ _ _ P3 L2) as L3.
  pose proof (paints_segment_if (truthy (Z.land mask 8)) x y 4 (36 - 4) (20 - 2 * 4) 4
                colour fb3
                L3 Hx Hy (M 4 eq_refl) (M (36 - 4) eq_refl) (M (20 - 2 * 4) eq_refl)
                (M 4 eq_refl)) as P4.
  set (fb4 := if truthy (Z.land mask 8) then _ else fb3) in *.
  pose proof (paints_length _ _ _ _ P4 L3) as L4.
  pose proof (paints_segment_if (truthy (Z.land mask 4)) x y 0 (Z.quot 36 2) 4
                (Z.quot 36 2 - 4) colour fb4
                L4 Hx Hy (M 0 eq_refl) (M (Z.quot 36 2) eq_refl)
                (M 4 eq_refl) (M (Z.quot 36 2 - 4) eq_refl)) as P5.
  set (fb5 := if truthy (Z.land mask 4) then _ else fb4) in *.
  pose proof (paints_length _ _ _ _ P5 L4) as L5.
  pose proof (paints_segment_if (truthy (Z.land mask 2)) x y 0 4 4
                (Z.quot 36 2 - 4) colour fb5
                L5 Hx Hy (M 0 eq_refl) (M 4 eq_refl)
                (M 4 eq_refl) (M (Z.quot 36 2 - 4) eq_refl)) as P6.
  set (fb6 := if truthy (Z.land mask 2) then _ else fb5) in *.
  pose proof (paints_length _ _ _ _ P6 L5) as L6.
  pose proof (paints_segment_if (truthy (Z.land mask 1)) x y 4
                (Z.quot 36 2 - Z.quot 4 2) (20 - 2 * 4) 4 colour fb6
                L6 Hx Hy (M 4 eq_refl) (M (Z.quot 36 2 - Z.quot 4 2) eq_refl)
                (M (20 - 2 * 4) eq_refl) (M 4 eq_refl)) as P7.
  pose proof (paints_then _ _ _ _ _ _
                (paints_then _ _ _ _ _ _
                   (paints_then _ _ _ _ _ _
                      (paints_then _ _ _ _ _ _
                         (paints_then _ _ _ _ _ _
                            (paints_then _ _ _ _ _ _ P1 P2) P3) P4) P5) P6) P7) as P.
  eapply paints_ext; [|exact P].
  intros u v _. cbv beta. unfold digit_shape, segment_lit.
  change (20 - 2 * 4) with 12. change (20 - 4) with 16. change (36 - 4) with 32.
  change (Z.quot 36 2 - Z.quot 4 2) with 16.
  change (Z.quot 36 2 - 4) with 14. change (Z.quot 36 2) with 18.
  rewrite !Z.add_0_r. reflexivity.
Qed.

Lemma digit_shape_in_box (mask x y u v : Z) :
  digit_shape mask x y u v = true -> in_rect x y 20 36 u v = true.
Proof.
  unfold digit_shape, segment_lit. rewrite !orb_true_iff, !andb_true_iff.
  rewrite !in_rect_spec. lia.
Qed.

(** X19. [draw_digit] draws nothing for a value outside 0..9.  For any
    value it keeps the size of the frame buffer, leaves a pixel as it was or
    sets it to the given colour, and changes no pixel outside the 20 x 36
    box at [(x, y)]. *)
Theorem draw_digit_stays_in_box (x y value colour : Z) (fb : list Z) (u v : Z) :
  length fb = screen_size -> modest x -> modest y -> on_screen u v ->
  (value < 0 \/ 9 < value -> draw_digit x y value colour fb = fb)
  /\ length (draw_digit x y value colour fb) = screen_size
  /\ (pixel (draw_digit x y value colour fb) u v = colour
      \/ pixel (draw_digit x y value colour fb) u v = pixel fb u v)
  /\ (in_rect x y 20 36 u v = false ->
      pixel (draw_digit x y value colour fb) u v = pixel fb u v).
Proof.
  intros Hlen Hx Hy Huv.
  assert (Hout : value < 0 \/ 9 < value -> draw_digit x y value colour fb = fb).
  { intros Hv. unfold draw_digit.
    replace ((value <? 0) || (value >? 9)) with true; [reflexivity|].
    symmetry. apply orb_true_iff. rewrite Z.gtb_ltb, !Z.ltb_lt. exact Hv. }
  split; [exact Hout|].
  destruct (Z_lt_ge_dec value 0) as [Hneg | Hpos];
    [rewrite (Hout (or_introl Hneg)); split; [exact Hlen|]; split; [right|]; reflexivity|].
  destruct (Z_lt_ge_dec 9 value) as [Hbig | Hsmall];
    [rewrite (Hout (or_intror Hbig)); split; [exact Hlen|]; split; [right|]; reflexivity|].
  destruct (draw_digit_paints x y value colour fb ltac:(lia) Hlen Hx Hy) as [Hl Hp].
  split; [congruence|]. rewrite (Hp u v Huv).
  destruct (digit_shape _ x y u v) eqn:Hs.
  - split; [left; reflexivity|]. intros Hbox.
    apply digit_shape_in_box in Hs. congruence.
  - split; [right; reflexivity|]. reflexivity.
Qed.

Lemma draw_digit_witness :
  (7 < 0 \/ 9 < 7 -> draw_digit 8 32 7 HUD_TEXT_COLOUR blank_screen = blank_screen)
  /\ length (draw_digit 8 32 7 HUD_TEXT_COLOUR blank_screen) = screen_size
  /\ (pixel (draw_digit 8 32 7 HUD_TEXT_COLOUR blank_screen) 100 100 = HUD_TEXT_COLOUR
      \/ pixel (draw_digit 8 32 7 HUD_TEXT_COLOUR blank_screen) 100 100
         = pixel blank_screen 100 100)
  /\ (in_rect 8 32 20 36 100 100 = false ->
      pixel (draw_digit 8 32 7 HUD_TEXT_COLOUR blank_screen) 100 100
      = pixel blank_screen 100 100).
Proof.
  apply (draw_digit_stays_in_box 8 32 7 HUD_TEXT_COLOUR blank_screen 100 100).
  - exact blank_screen_length.
  - apply modest_small. lia.
  - apply modest_small. lia.
  - unfold on_screen, FB_WIDTH, FB_HEIGHT, GRID_W, GRID_H, CELL_SIZE. lia.
Defined.

Ltac probe_rects :=
  repeat match goal with
    | |- context [in_rect ?a ?b ?w ?h ?u ?v] =>
        first [ rewrite (proj2 (in_rect_spec a b w h u v)) by lia
              | rewrite (in_rect_false a b w h u v) by lia ]
    end;
  rewrite ?andb_true_r, ?andb_false_r, ?orb_false_r, ?orb_false_l; try reflexivity.

(** One pixel of each segment tells whether the segment is lit. *)
Lemma digit_shape_probes (mask x y : Z) :
  digit_shape mask x y (x + 4) y = truthy (Z.land mask 64)
  /\ digit_shape mask x y (x + 16) (y + 4) = truthy (Z.land mask 32)
  /\ digit_shape mask x y (x + 16) (y + 18) = truthy (Z.land mask 16)
  /\ digit_shape mask x y (x + 4) (y + 32) = truthy (Z.land mask 8)
  /\ digit_shape mask x y x (y + 18) = truthy (Z.land mask 4)
  /\ digit_shape mask x y x (y + 4) = truthy (Z.land mask 2)
  /\ digit_shape mask x y (x + 4) (y + 16) = truthy (Z.land mask 1).
Proof.
  unfold digit_shape, segment_lit. repeat split; probe_rects.
Qed.

Lemma masks_differ (v1 v2 : Z) :
  0 <= v1 <= 9 -> 0 <= v2 <= 9 ->
  let m1 := aget seven_seg_digits v1 in
  let m2 := aget seven_seg_digits v2 in
  truthy (Z.land m1 64) = truthy (Z.land m2 64) ->
  truthy (Z.land m1 32) = truthy (Z.land m2 32) ->
  truthy (Z.land m1 16) = truthy (Z.land m2 16) ->
  truthy (Z.land m1 8) = truthy (Z.land m2 8) ->
  truthy (Z.land m1 4) = truthy (Z.land m2 4) ->
  truthy (Z.land m1 2) = truthy (Z.land m2 2) ->
  truthy (Z.land m1 1) = truthy (Z.land m2 1) ->
  v1 = v2.
Proof.
  intros H1 H2. cbv zeta.
  assert (C1 : v1 = 0 \/ v1 = 1 \/ v1 = 2 \/ v1 = 3 \/ v1 = 4 \/ v1 = 5 \/ v1 = 6
               \/ v1 = 7 \/ v1 = 8 \/ v1 = 9) by lia.
  assert (C2 : v2 = 0 \/ v2 = 1 \/ v2 = 2 \/ v2 = 3 \/ v2 = 4 \/ v2 = 5 \/ v2 = 6
               \/ v2 = 7 \/ v2 = 8 \/ v2 = 9) by lia.
  clear H1 H2.
  repeat (destruct C1 as [-> | C1]); try subst v1;
    repeat (destruct C2 as [-> | C2]); try subst v2;
    vm_compute; intros; congruence.
Qed.

(** X20. Different digits give different pictures: drawn in a colour that
    no pixel of the frame buffer has yet, into a box that lies on the
    screen, two different values between 0 and 9 never produce the same
    frame buffer. *)
Theorem digits_are_distinguishable (x y v1 v2 colour : Z) (fb : list Z) :
  length fb = screen_size ->
  0 <= x -> x + 20 <= FB_WIDTH -> 0 <= y -> y + 36 <= FB_HEIGHT ->
  0 <= v1 <= 9 -> 0 <= v2 <= 9 ->
  (forall u v, on_screen u v -> pixel fb u v <> colour) ->
  v1 <> v2 ->
  draw_digit x y v1 colour fb <> draw_digit x y v2 colour fb.
Proof.
  intros Hlen Hx0 Hx1 Hy0 Hy1 Hv1 Hv2 Hbg Hne Heq. apply Hne.
  destruct screen_dims as [HW HH]. rewrite HW in Hx1. rewrite HH in Hy1.
  assert (Hx : modest x) by (unfold modest; lia).
  assert (Hy : modest y) by (unfold modest; lia).
  destruct (draw_digit_paints x y v1 colour fb Hv1 Hlen Hx Hy) as [_ P1].
  destruct (draw_digit_paints x y v2 colour fb Hv2 Hlen Hx Hy) as [_ P2].
  rewrite Heq in P1.
  assert (Hsame : forall u v, on_screen u v ->
            digit_shape (aget seven_seg_digits v1) x y u v
            = digit_shape (aget seven_seg_digits v2) x y u v).
  { intros u v Huv. specialize (P1 u v Huv). specialize (P2 u v Huv).
    rewrite P2 in P1. specialize (Hbg u v Huv).
    destruct (digit_shape _ x y u v), (digit_shape _ x y u v); congruence. }
  assert (Hon : forall a b, 0 <= a < 20 -> 0 <= b < 36 -> on_screen (x + a) (y + b)).
  { intros a b Ha Hb. unfold on_screen. rewrite HW, HH. lia. }
  destruct (digit_shape_probes (aget seven_seg_digits v1) x y)
    as (A1 & A2 & A3 & A4 & A5 & A6 & A7).
  destruct (digit_shape_probes (aget seven_seg_digits v2) x y)
    as (B1 & B2 & B3 & B4 & B5 & B6 & B7).
  pose proof (Hsame _ _ (Hon 4 0 ltac:(lia) ltac:(lia))) as E1.
  pose proof (Hsame _ _ (Hon 16 4 ltac:(lia) ltac:(lia))) as E2.
  pose proof (Hsame _ _ (Hon 16 18 ltac:(lia) ltac:(lia))) as E3.
  pose proof (Hsame _ _ (Hon 4 32 ltac:(lia) ltac:(lia))) as E4.
  pose proof (Hsame _ _ (Hon 0 18 ltac:(lia) ltac:(lia))) as E5.
  pose proof (Hsame _ _ (Hon 0 4 ltac:(lia) ltac:(lia))) as E6.
  pose proof (Hsame _ _ (Hon 4 16 ltac:(lia) ltac:(lia))) as E7.
  rewrite !Z.add_0_r in *.
  apply (masks_differ v1 v2 Hv1 Hv2); congruence.
Qed.

Lemma blank_screen_pixel (u v : Z) : pixel blank_screen u v = 0.
Proof. unfold pixel, blank_screen. apply aget_replicate_0. Qed.

Lemma digits_witness :
  draw_digit 8 32 1 HUD_TEXT_COLOUR blank_screen
  <> draw_digit 8 32 7 HUD_TEXT_COLOUR blank_screen.
Proof.
  apply (digits_are_distinguishable 8 32 1 7 HUD_TEXT_COLOUR blank_screen).
  - exact blank_screen_length.
  - lia.
  - vm_compute. discriminate.
  - lia.
  - vm_compute. discriminate.
  - lia.
  - lia.
  - intros u v _. rewrite blank_screen_pixel. vm_compute. discriminate.
  - lia.
Defined.

(** ** Confinement *)

Lemma confined_refl (s : Z -> Z -> bool) (fb : list Z) : confined s fb fb.
Proof. split; reflexivity. Qed.

Lemma confined_trans (s : Z -> Z -> bool) (fb fb1 fb2 : list Z) :
  confined s fb fb1 -> confined s fb1 fb2 -> confined s fb fb2.
Proof.
  intros [L1 P1] [L2 P2]. split; [congruence|].
  intros u v Huv Hs. rewrite (P2 u v Huv Hs). apply P1; assumption.
Qed.

Lemma confined_mono (s s' : Z -> Z -> bool) (fb fb' : list Z) :
  (forall u v, on_screen u v -> s u v = true -> s' u v = true) ->
  confined s fb fb' -> confined s' fb fb'.
Proof.
  intros Hss [L P]. split; [exact L|].
  intros u v Huv Hs'. apply P; [exact Huv|].
  destruct (s u v) eqn:E; [|reflexivity]. rewrite (Hss u v Huv E) in Hs'. discriminate.
Qed.

Lemma paints_confined (s : Z -> Z -> bool) (c : Z) (fb fb' : list Z) :
  paints s c fb fb' -> confined s fb fb'.
Proof.
  intros [L P]. split; [exact L|]. intros u v Huv Hs. rewrite (P u v Huv), Hs. reflexivity.
Qed.

Lemma confined_plot (s : Z -> Z -> bool) (fb : list Z) (a b c : Z) :
  length fb = screen_size ->
  (on_screen a b -> s a b = true) ->
  confined s fb (plot fb a b c).
Proof.
  intros Hlen Hs. split; [apply length_plot|].
  intros u v Huv Hsuv. rewrite (pixel_plot fb a b c u v Hlen Huv).
  destruct (Z.eqb_spec a u) as [-> | _]; [|reflexivity].
  destruct (Z.eqb_spec b v) as [-> | _]; [|reflexivity].
  rewrite (Hs Huv) in Hsuv. discriminate.
Qed.

(** An invariant of a counted loop. *)
Lemma for_int_ind {A} (P : A -> Prop) (n : Z) (body : Z -> A -> A) (a : A) :
  P a -> (forall i a, 0 <= i < n -> P a -> P (body i a)) -> P (for_int n body a).
Proof.
  intros Ha Hbody. unfold for_int.
  assert (Hl : forall i, In i (seq 0 (Z.to_nat n)) -> 0 <= Z.of_nat i < n).
  { intros i Hi. apply in_seq in Hi. lia. }
  revert a Ha. induction (seq 0 (Z.to_nat n)) as [|i l IH]; intros a Ha; simpl.
  - exact Ha.
  - apply IH.
    + intros j Hj. apply Hl. right. exact Hj.
    + apply Hbody; [apply Hl; left; reflexivity | exact Ha].
Qed.

Lemma confined_for_int (s : Z -> Z -> bool) (n : Z) (body : Z -> list Z -> list Z)
    (fb : list Z) :
  length fb = screen_size ->
  (forall i fb, 0 <= i < n -> length fb = screen_size -> confined s fb (body i fb)) ->
  confined s fb (for_int n body fb).
Proof.
  intros Hlen Hbody.
  apply (for_int_ind (fun fb' => length fb' = screen_size /\ confined s fb fb')
           n body fb).
  - split; [exact Hlen | apply confined_refl].
  - intros i fb' Hi [Hl Hc]. pose proof (Hbody i fb' Hi Hl) as Hstep.
    split; [destruct Hstep as [-> _]; exact Hl|].
    eapply confined_trans; eassumption.
Qed.

Lemma confined_length (s : Z -> Z -> bool) (fb fb' : list Z) :
  confined s fb fb' -> length fb = screen_size -> length fb' = screen_size.
Proof. intros [Hl _] H. congruence. Qed.

(** ** Glyphs and text *)

Lemma find_glyph_In (table : list (Z * list Z)) (c : Z) (bm : list Z) :
  find_glyph table c = Some bm -> In (c, bm) table.
Proof.
  induction table as [|[ch b] rest IH]; simpl; [discriminate|].
  destruct (Z.eqb_spec ch c) as [-> | _].
  - intros H. inversion H. left. reflexivity.
  - intros H. right. apply IH, H.
Qed.

Lemma font_glyphs_ok : forallb glyph_ok font_glyphs = true.
Proof. vm_compute. reflexivity. Qed.

Lemma font_covers_range :
  forallb (fun n => match get_glyph_bitmap (Z.of_nat n) with
                    | Some _ => true
                    | None => false
                    end) (seq 65 26 ++ seq 48 10) = true.
Proof. vm_compute. reflexivity. Qed.

(** X21. [get_glyph_bitmap] finds a bitmap exactly for the capital letters
    and the decimal digits; any other character, a lower-case letter or a
    punctuation mark for instance, has none.  A bitmap it returns has eight
    rows, none of which uses the leftmost of the eight columns, and its last
    row is empty, so that glyphs drawn side by side or one line below the
    other never touch. *)
Theorem glyphs_exist_for_capitals_and_digits (c : Z) :
  ((exists bm, get_glyph_bitmap c = Some bm) <-> (65 <= c <= 90 \/ 48 <= c <= 57))
  /\ (forall bm, get_glyph_bitmap c = Some bm ->
        length bm = 8%nat
        /\ (forall row, 0 <= aget bm row < 128)
        /\ aget bm 7 = 0).
Proof.
  assert (Hok : forall bm, get_glyph_bitmap c = Some bm -> glyph_ok (c, bm) = true).
  { intros bm H. apply find_glyph_In in H.
    pose proof font_glyphs_ok as T. rewrite forallb_forall in T. exact (T _ H). }
  split; [split|].
  - intros [bm H]. apply Hok in H. unfold glyph_ok in H. simpl in H.
    repeat (apply andb_true_iff in H as [H ?]).
    apply orb_true_iff in H. rewrite !andb_true_iff, !Z.leb_le in H. lia.
  - intros Hc. pose proof font_covers_range as T. rewrite forallb_forall in T.
    specialize (T (Z.to_nat c)). rewrite Z2Nat.id in T by lia.
    destruct (get_glyph_bitmap c) as [bm|]; [exists bm; reflexivity|].
    assert (Hin : In (Z.to_nat c) (seq 65 26 ++ seq 48 10)).
    { apply in_or_app. destruct Hc; [left | right]; apply in_seq; lia. }
    specialize (T Hin). discriminate.
  - intros bm H. apply Hok in H. unfold glyph_ok in H. cbn [fst snd] in H.
    apply andb_true_iff in H as [H H7]. apply andb_true_iff in H as [H Hrows].
    apply andb_true_iff in H as [_ Hlen].
    apply Nat.eqb_eq in Hlen. apply Z.eqb_eq in H7.
    split; [exact Hlen|]. split; [|exact H7].
    intros row. unfold aget. destruct (row <? 0); [lia|].
    destruct (bm !! Z.to_nat row) as [r|] eqn:E; simpl; [|lia].
    rewrite forallb_forall in Hrows.
    apply list_elem_of_lookup_2, list_elem_of_In in E.
    specialize (Hrows r E). apply andb_true_iff in Hrows as [H1 H2].
    apply Z.leb_le in H1. apply Z.ltb_lt in H2. lia.
Qed.

Lemma draw_glyph_confined (x y : Z) (bm : list Z) (colour : Z) (fb : list Z) :
  length fb = screen_size ->
  - 2 ^ 30 <= x <= 2 ^ 30 -> - 2 ^ 30 <= y <= 2 ^ 30 ->
  confined (in_rect x y 8 8) fb (draw_glyph x y bm colour fb).
Proof.
  intros Hlen Hx Hy. unfold draw_glyph.
  apply confined_for_int; [exact Hlen|]. intros row fb1 Hrow L1. cbv zeta.
  apply confined_for_int; [exact L1|]. intros col fb2 Hcol L2.
  destruct (truthy _); [|apply confined_refl].
  apply confined_plot; [exact L2|]. intros _.
  rewrite !wrap_int_id by (unfold is_int, INT_MIN, INT_MAX; lia).
  apply in_rect_spec. lia.
Qed.

Lemma draw_text_cons (x y c : Z) (rest : list Z) (colour : Z) (fb : list Z) :
  draw_text x y (c :: rest) colour fb
  = if c =? 32 then draw_text (wrap_int (x + 8)) y rest colour fb
    else draw_text (wrap_int (x + 8)) y rest colour
           (match get_glyph_bitmap c with
            | Some bm => draw_glyph x y bm colour fb
            | None => fb
            end).
Proof. reflexivity. Qed.

Lemma draw_text_confined (y colour : Z) (text : list Z) :
  forall x fb,
    length fb = screen_size ->
    - 2 ^ 20 <= x -> x + 8 * Z.of_nat (length text) <= 2 ^ 21 ->
    - 2 ^ 30 <= y <= 2 ^ 30 ->
    confined (in_rect x y (8 * Z.of_nat (length text)) 8) fb
      (draw_text x y text colour fb).
Proof.
  induction text as [|c rest IH]; intros x fb Hlen Hx0 Hx1 Hy.
  - apply confined_refl.
  - rewrite draw_text_cons.
    change (length (c :: rest)) with (S (length rest)) in *.
    rewrite Nat2Z.inj_succ in *.
    assert (Hw : wrap_int (x + 8) = x + 8)
      by (apply wrap_int_id; unfold is_int, INT_MIN, INT_MAX; lia).
    rewrite Hw.
    assert (Hrest : forall fb1, length fb1 = screen_size ->
              confined (in_rect x y (8 * Z.succ (Z.of_nat (length rest))) 8) fb1
                (draw_text (x + 8) y rest colour fb1)).
    { intros fb1 L1.
      eapply confined_mono; [|apply (IH (x + 8) fb1 L1); lia].
      intros u v _ Hin. apply in_rect_spec in Hin. apply in_rect_spec. lia. }
    destruct (c =? 32); [apply Hrest, Hlen|].
    destruct (get_glyph_bitmap c) as [bm|]; [|apply Hrest, Hlen].
    assert (Hg : confined (in_rect x y (8 * Z.succ (Z.of_nat (length rest))) 8) fb
                   (draw_glyph x y bm colour fb)).
    { eapply confined_mono; [|apply draw_glyph_confined; [exact Hlen|lia|exact Hy]].
      intros u v _ Hin. apply in_rect_spec in Hin. apply in_rect_spec. lia. }
    eapply confined_trans; [exact Hg|].
    apply Hrest. exact (confined_length _ _ _ Hg Hlen).
Qed.

Lemma draw_text_blank (x y colour : Z) (text : list Z) (fb : list Z) :
  Forall (fun c => c = 32 \/ get_glyph_bitmap c = None) text ->
  draw_text x y text colour fb = fb.
Proof.
  revert x. induction text as [|c rest IH]; intros x Hall; [reflexivity|].
  rewrite draw_text_cons. inversion Hall as [|? ? Hc Hrest]; subst.
  destruct (Z.eqb_spec c 32) as [_ | Hne]; [apply IH, Hrest|].
  destruct Hc as [Hc | Hc]; [contradiction|]. rewrite Hc. apply IH, Hrest.
Qed.

(** X22. [draw_text] keeps the size of the frame buffer and changes no
    pixel outside the band of eight rows from [y] and of eight columns per
    character from [x].  A text made of spaces and of characters without a
    glyph leaves the frame buffer as it was. *)
Theorem draw_text_stays_in_band (x y : Z) (text : list Z) (colour : Z)
    (fb : list Z) (u v : Z) :
  length fb = screen_size -> modest x -> modest y ->
  (length text <= 1000)%nat -> on_screen u v ->
  length (draw_text x y text colour fb) = screen_size
  /\ (in_rect x y (8 * Z.of_nat (length text)) 8 u v = false ->
      pixel (draw_text x y text colour fb) u v = pixel fb u v)
  /\ (Forall (fun c => c = 32 \/ get_glyph_bitmap c = None) text ->
      draw_text x y text colour fb = fb).
Proof.
  intros Hlen Hx Hy Ht Huv. unfold modest in Hx, Hy.
  destruct (draw_text_confined y colour text x fb Hlen ltac:(lia) ltac:(lia) ltac:(lia))
    as [Hl Hp].
  split; [congruence|]. split; [intros Hout; exact (Hp u v Huv Hout)|].
  apply draw_text_blank.
Qed.

Lemma draw_text_witness :
  length (draw_text 8 16 label_score HUD_TEXT_COLOUR blank_screen) = screen_size
  /\ (in_rect 8 16 (8 * Z.of_nat (length label_score)) 8 300 300 = false ->
      pixel (draw_text 8 16 label_score HUD_TEXT_COLOUR blank_screen) 300 300
      = pixel blank_screen 300 300)
  /\ (Forall (fun c => c = 32 \/ get_glyph_bitmap c = None) label_score ->
      draw_text 8 16 label_score HUD_TEXT_COLOUR blank_screen = blank_screen).
Proof.
  apply (draw_text_stays_in_band 8 16 label_score HUD_TEXT_COLOUR blank_screen 300 300).
  - exact blank_screen_length.
  - apply modest_small. lia.
  - apply modest_small. lia.
  - simpl. lia.
  - unfold on_screen, FB_WIDTH, FB_HEIGHT, GRID_W, GRID_H, CELL_SIZE. lia.
Defined.

Lemma glyph_witness : exists bm, get_glyph_bitmap 83 = Some bm.
Proof.
  apply (proj2 (proj1 (glyphs_exist_for_capitals_and_digits 83))). left. lia.
Defined.

(** ** The scoreboard *)

Lemma decimal_digit_bounds (n i : Z) :
  0 <= i ->
  (0 <= n -> 0 <= decimal_digit n i <= 9)
  /\ (n <= 0 -> -9 <= decimal_digit n i <= 0).
Proof.
  intros Hi. unfold decimal_digit.
  assert (Hp : 0 < 10 ^ i) by (apply Z.pow_pos_nonneg; lia).
  split; intros Hn.
  - assert (Hq : 0 <= Z.quot n (10 ^ i)) by (apply Z.quot_pos; lia).
    pose proof (Z.rem_bound_pos _ 10 Hq ltac:(lia)). lia.
  - assert (Hq : Z.quot n (10 ^ i) <= 0).
    { pose proof (Z.mul_quot_ge n (10 ^ i) Hn ltac:(lia)). nia. }
    pose proof (Z.rem_bound_pos_neg _ 10 ltac:(lia) Hq). lia.
Qed.

Lemma decimal_digits_sum (n : Z) :
  0 <= n ->
  decimal_digit n 0 + 10 * decimal_digit n 1 + 100 * decimal_digit n 2
  + 1000 * decimal_digit n 3 + 10000 * decimal_digit n 4
  = n mod 100000.
Proof.
  intros Hn. unfold decimal_digit.
  change (10 ^ 0) with 1. change (10 ^ 1) with 10. change (10 ^ 2) with (10 * 10).
  change (10 ^ 3) with (10 * 10 * 10). change (10 ^ 4) with (10 * 10 * 10 * 10).
  rewrite Z.quot_1_r. rewrite <- !Z.quot_quot by lia.
  set (q1 := Z.quot n 10). set (q2 := Z.quot q1 10).
  set (q3 := Z.quot q2 10). set (q4 := Z.quot q3 10).
  assert (H0 : 0 <= q1) by (apply Z.quot_pos; lia).
  assert (H1 : 0 <= q2) by (apply Z.quot_pos; lia).
  assert (H2 : 0 <= q3) by (apply Z.quot_pos; lia).
  assert (H3 : 0 <= q4) by (apply Z.quot_pos; lia).
  pose proof (Z.quot_rem' n 10) as E0. fold q1 in E0.
  pose proof (Z.quot_rem' q1 10) as E1. fold q2 in E1.
  pose proof (Z.quot_rem' q2 10) as E2. fold q3 in E2.
  pose proof (Z.quot_rem' q3 10) as E3. fold q4 in E3.
  pose proof (Z.quot_rem' q4 10) as E4.
  pose proof (Z.rem_bound_pos n 10 Hn ltac:(lia)).
  pose proof (Z.rem_bound_pos q1 10 H0 ltac:(lia)).
  pose proof (Z.rem_bound_pos q2 10 H1 ltac:(lia)).
  pose proof (Z.rem_bound_pos q3 10 H2 ltac:(lia)).
  pose proof (Z.rem_bound_pos q4 10 H3 ltac:(lia)).
  apply (Z.mod_unique_pos n 100000 (Z.quot q4 10)); lia.
Qed.

(** X23. Each digit loop of the scoreboard draws five digits, from the
    rightmost column to the leftmost: digit [i] is the remainder by ten of
    the number divided [i] times by ten.  For a number that is not negative
    these are decimal digits whose value is the number modulo 100000, so a
    larger number shows its last five digits only; for a negative number no
    digit is positive, and those below zero are not drawn at all. *)
Theorem scoreboard_shows_last_five_digits (dx : Z -> Z) (n : Z) (fb : list Z) :
  draw_number dx n fb
  = draw_digit (dx 4) 32 (decimal_digit n 4) HUD_TEXT_COLOUR
      (draw_digit (dx 3) 32 (decimal_digit n 3) HUD_TEXT_COLOUR
         (draw_digit (dx 2) 32 (decimal_digit n 2) HUD_TEXT_COLOUR
            (draw_digit (dx 1) 32 (decimal_digit n 1) HUD_TEXT_COLOUR
               (draw_digit (dx 0) 32 (decimal_digit n 0) HUD_TEXT_COLOUR fb))))
  /\ (0 <= n ->
      (forall i, 0 <= i -> 0 <= decimal_digit n i <= 9)
      /\ decimal_digit n 0 + 10 * decimal_digit n 1 + 100 * decimal_digit n 2
         + 1000 * decimal_digit n 3 + 10000 * decimal_digit n 4
         = n mod 100000)
  /\ (n < 0 ->
      forall i, 0 <= i ->
        decimal_digit n i <= 0
        /\ (decimal_digit n i < 0 ->
            forall x fb', draw_digit x 32 (decimal_digit n i) HUD_TEXT_COLOUR fb' = fb')).
Proof.
  split; [|split].
  - unfold draw_number, for_int. change (Z.to_nat 5) with 5%nat.
    cbn [seq fold_left fst snd Z.of_nat Pos.of_succ_nat Pos.succ].
    unfold decimal_digit.
    change (10 ^ 0) with 1. change (10 ^ 1) with 10. change (10 ^ 2) with (10 * 10).
    change (10 ^ 3) with (10 * 10 * 10). change (10 ^ 4) with (10 * 10 * 10 * 10).
    rewrite Z.quot_1_r. rewrite <- !Z.quot_quot by lia. reflexivity.
  - intros Hn. split; [|apply decimal_digits_sum, Hn].
    intros i Hi. apply (decimal_digit_bounds n i Hi), Hn.
  - intros Hn i Hi. pose proof (proj2 (decimal_digit_bounds n i Hi) ltac:(lia)) as Hb.
    split; [lia|]. intros Hneg x fb'. unfold draw_digit.
    replace (decimal_digit n i <? 0) with true by (symmetry; apply Z.ltb_lt; exact Hneg).
    reflexivity.
Qed.

Lemma score_digits_witness :
  (forall i, 0 <= i -> 0 <= decimal_digit 123456 i <= 9)
  /\ decimal_digit 123456 0 + 10 * decimal_digit 123456 1 + 100 * decimal_digit 123456 2
     + 1000 * decimal_digit 123456 3 + 10000 * decimal_digit 123456 4
     = 123456 mod 100000.
Proof.
  apply (proj1 (proj2 (scoreboard_shows_last_five_digits (fun i => 8 + (4 - i) * 24)
                         123456 blank_screen))).
  lia.
Defined.

Lemma draw_digit_confined (x y value colour : Z) (fb : list Z) :
  length fb = screen_size -> modest x -> modest y ->
  confined (in_rect x y 20 36) fb (draw_digit x y value colour fb).
Proof.
  intros Hlen Hx Hy.
  destruct (Z_lt_ge_dec value 0) as [Hneg | Hpos].
  { unfold draw_digit.
    replace (value <? 0) with true by (symmetry; apply Z.ltb_lt; exact Hneg).
    apply confined_refl. }
  destruct (Z_lt_ge_dec 9 value) as [Hbig | Hsmall].
  { unfold draw_digit.
    replace (value >? 9) with true by (symmetry; rewrite Z.gtb_ltb; apply Z.ltb_lt; exact Hbig).
    rewrite orb_true_r. apply confined_refl. }
  assert (Hv : 0 <= value <= 9) by lia.
  pose proof (paints_confined _ _ _ _ (draw_digit_paints x y value colour fb Hv Hlen Hx Hy))
    as Hc.
  eapply confined_mono; [|exact Hc].
  intros u v _. apply digit_shape_in_box.
Qed.

Lemma draw_number_confined (s : Z -> Z -> bool) (dx : Z -> Z) (n : Z) (fb : list Z) :
  length fb = screen_size ->
  (forall i, 0 <= i < 5 -> modest (dx i)
     /\ forall u v, in_rect (dx i) 32 20 36 u v = true -> s u v = true) ->
  confined s fb (draw_number dx n fb).
Proof.
  intros Hlen Hdx. unfold draw_number.
  apply (for_int_ind (fun st => length (snd st) = screen_size /\ confined s fb (snd st))).
  - split; [exact Hlen | apply confined_refl].
  - intros i [sc fb1] Hi [L1 C1]. cbn [fst snd] in *.
    destruct (Hdx i Hi) as [Hm Hs].
    assert (Hstep : confined s fb1
                      (draw_digit (dx i) 32 (Z.rem sc 10) HUD_TEXT_COLOUR fb1)).
    { eapply confined_mono; [|apply draw_digit_confined;
                               [exact L1 | exact Hm | apply modest_small; lia]].
      intros u v _. apply Hs. }
    split; [exact (confined_length _ _ _ Hstep L1)|].
    eapply confined_trans; eassumption.
Qed.

Lemma draw_phase_icon_confined (icon_x icon_y : Z) (fb : list Z) :
  length fb = screen_size -> modest icon_x -> modest icon_y ->
  confined (in_rect icon_x icon_y 12 12) fb (draw_phase_icon icon_x icon_y fb).
Proof.
  intros Hlen Hx Hy. unfold draw_phase_icon, modest in *.
  apply confined_for_int; [exact Hlen|]. intros y fb1 Hrow L1.
  apply confined_for_int; [exact L1|]. intros x fb2 Hcol L2. cbv zeta.
  destruct (_ <? 6); [|apply confined_refl].
  apply confined_plot; [exact L2|]. intros _.
  rewrite !wrap_int_id by (unfold is_int, INT_MIN, INT_MAX; lia).
  apply in_rect_spec. lia.
Qed.

Lemma draw_speed_icon_confined (icon_x icon_y : Z) (fb : list Z) :
  length fb = screen_size -> modest icon_x -> modest icon_y ->
  confined (in_rect icon_x icon_y 12 12) fb (draw_speed_icon icon_x icon_y fb).
Proof.
  intros Hlen Hx Hy. unfold draw_speed_icon, modest in *.
  apply confined_for_int; [exact Hlen|]. intros y fb1 Hrow L1.
  apply confined_for_int; [exact L1|]. intros x fb2 Hcol L2. cbv zeta.
  match goal with |- confined _ _ (if ?b then _ else _) => destruct b end;
    [|apply confined_refl].
  apply confined_plot; [exact L2|]. intros _.
  rewrite !wrap_int_id by (unfold is_int, INT_MIN, INT_MAX; lia).
  apply in_rect_spec. lia.
Qed.

Lemma draw_scoreboard_confined (g : game) (fb : list Z) :
  length fb = screen_size ->
  confined (in_rect 8 8 620 60) fb (draw_scoreboard g fb).
Proof.
  intros Hlen. unfold draw_scoreboard. cbv zeta.
  change (FB_WIDTH - 8 - 2 * 8 - 5 * 24 - 4) with 492.
  change (Z.quot FB_WIDTH 2 - 32) with 288.
  assert (M : forall z, (-1000 <=? z) && (z <=? 1000) = true -> modest z).
  { intros z Hz. apply andb_true_iff in Hz as [H1 H2].
    apply Z.leb_le in H1, H2. apply modest_small. lia. }
  assert (T1 : confined (in_rect 8 8 620 60) fb
                 (draw_text 8 16 label_score HUD_TEXT_COLOUR fb)).
  { eapply confined_mono;
      [|apply draw_text_confined; [exact Hlen | lia | simpl; lia | lia]].
    intros u v _ Hin. apply in_rect_spec in Hin. simpl in Hin. apply in_rect_spec. lia. }
  set (fb1 := draw_text 8 16 label_score HUD_TEXT_COLOUR fb) in *.
  pose proof (confined_length _ _ _ T1 Hlen) as L1.
  assert (N1 : confined (in_rect 8 8 620 60) fb1
                 (draw_number (fun i => 8 + (4 - i) * 24) (score g) fb1)).
  { apply draw_number_confined; [exact L1|]. intros i Hi. split.
    - apply modest_small. lia.
    - intros u v Hin. apply in_rect_spec in Hin. apply in_rect_spec. lia. }
  set (fb2 := draw_number _ (score g) fb1) in *.
  pose proof (confined_length _ _ _ N1 L1) as L2.
  assert (T2 : confined (in_rect 8 8 620 60) fb2
                 (draw_text 492 16 label_hi HUD_TEXT_COLOUR fb2)).
  { eapply confined_mono;
      [|apply draw_text_confined; [exact L2 | lia | simpl; lia | lia]].
    intros u v _ Hin. apply in_rect_spec in Hin. simpl in Hin. apply in_rect_spec. lia. }
  set (fb3 := draw_text 492 16 label_hi HUD_TEXT_COLOUR fb2) in *.
  pose proof (confined_length _ _ _ T2 L2) as L3.
  assert (N2 : confined (in_rect 8 8 620 60) fb3
                 (draw_number (fun i => FB_WIDTH - 8 - (i + 1) * 24) (highscore g) fb3)).
  { apply draw_number_confined; [exact L3|]. intros i Hi.
    destruct screen_dims as [-> _]. split.
    - apply modest_small. lia.
    - intros u v Hin. apply in_rect_spec in Hin. apply in_rect_spec. lia. }
  set (fb4 := draw_number _ (highscore g) fb3) in *.
  pose proof (confined_length _ _ _ N2 L3) as L4.
  assert (I1 : confined (in_rect 8 8 620 60) fb4
                 (if phase_timer g >? 0 then draw_phase_icon 288 8 fb4 else fb4)).
  { destruct (phase_timer g >? 0); [|apply confined_refl].
    eapply confined_mono;
      [|apply draw_phase_icon_confined; [exact L4 | exact (M 288 eq_refl) | exact (M 8 eq_refl)]].
    intros u v _ Hin. apply in_rect_spec in Hin. apply in_rect_spec. lia. }
  set (fb5 := if phase_timer g >? 0 then draw_phase_icon 288 8 fb4 else fb4) in *.
  pose proof (confined_length _ _ _ I1 L4) as L5.
  assert (I2 : confined (in_rect 8 8 620 60) fb5
                 (if speed_timer g >? 0
                  then draw_speed_icon (if phase_timer g >? 0 then 288 + 16 else 288) 8 fb5
                  else fb5)).
  { destruct (speed_timer g >? 0); [|apply confined_refl].
    eapply confined_mono;
      [|apply draw_speed_icon_confined;
        [exact L5 | destruct (phase_timer g >? 0); apply modest_small; lia
         | exact (M 8 eq_refl)]].
    intros u v _ Hin. apply in_rect_spec in Hin. apply in_rect_spec.
    destruct (phase_timer g >? 0); lia. }
  eapply confined_trans; [exact T1|].
  eapply confined_trans; [exact N1|].
  eapply confined_trans; [exact T2|].
  eapply confined_trans; [exact N2|].
  eapply confined_trans; [exact I1|].
  exact I2.
Qed.

(** X24. Whatever the score, the high score and the timers are,
    [draw_scoreboard] keeps the size of the frame buffer and changes no
    pixel outside columns 8 to 627 of rows 8 to 67: the labels, the two
    five-digit numbers and the two icons all lie in that band at the top of
    the screen. *)
Theorem scoreboard_stays_in_top_band (g : game) (fb : list Z) (u v : Z) :
  length fb = screen_size -> on_screen u v ->
  length (draw_scoreboard g fb) = screen_size
  /\ (~ (8 <= u < 628 /\ 8 <= v < 68) ->
      pixel (draw_scoreboard g fb) u v = pixel fb u v).
Proof.
  intros Hlen Huv. destruct (draw_scoreboard_confined g fb Hlen) as [Hl Hp].
  split; [congruence|]. intros Hout. apply (Hp u v Huv).
  apply in_rect_false. lia.
Qed.

Lemma scoreboard_witness :
  length (draw_scoreboard started_game blank_screen) = screen_size
  /\ (~ (8 <= 320 < 628 /\ 8 <= 240 < 68) ->
      pixel (draw_scoreboard started_game blank_screen) 320 240
      = pixel blank_screen 320 240).
Proof.
  apply (scoreboard_stays_in_top_band started_game blank_screen 320 240).
  - exact blank_screen_length.
  - unfold on_screen, FB_WIDTH, FB_HEIGHT, GRID_W, GRID_H, CELL_SIZE. lia.
Defined.
